(** * Violation detector: the violation analysis pipeline

    A shallow embedding of [services/violation_detector/main.py]: the
    geometry helpers, the simple scooper-usage classifier, the hand/worker
    association, the sequence tracker, the violation arbiter and the two
    janitors, followed by the properties of the pipeline.

    Conventions of the embedding.
    - Pixel coordinates, areas and confidences are Python floats; they are
      embedded as exact rationals ([Q]): the arithmetic of the embedding is
      exact and the rounding of binary64 is not modelled.  The one place
      where the rounding decides, the intersection abscissa of
      [_point_in_polygon], is also given on binary64 numbers
      ([Binary64._point_in_polygon]).
    - A Euclidean distance [((x1-x2)**2 + (y1-y2)**2)**0.5] is only ever
      compared by the code; it is represented by its square (type [dist]),
      and [dist_R] gives the real number it stands for.
    - A clock reading ([time.time()], [datetime.now()]) is an integer number
      of microseconds; the readings are supplied by an oracle, one value per
      read, in the order the program reads the clock.
    - A Python dict indexed by strings is a [gmap string _].
    - A sum of Euclidean lengths ([total_movement]) is a real number,
      compared by [Rle_dec] and [Rlt_dec]. *)

From Stdlib Require Import PrimFloat.
From Stdlib Require Import QArith Qminmax Qabs Reals Qreals Psatz ZArith String Ascii.
From stdpp Require Import gmap strings list fin_maps pretty.

Local Open Scope Q_scope.

(** ** Numbers *)

Definition Qltb (a b : Q) : bool := negb (Qle_bool b a).

(** A position dict such as [{"x": 520.0, "y": 420.0}]: [None] is a missing
    key. *)
Record Pos := { pos_x : option Q; pos_y : option Q }.

Definition at_xy (a b : Q) : Pos := {| pos_x := Some a; pos_y := Some b |}.

(** [Root s] is the number [s ** 0.5]; [Inf] is [float('inf')]. *)
Inductive dist := Root (sq : Q) | Inf.

(** [a < b] on distances. *)
Definition dist_ltb (a b : dist) : bool :=
  match a, b with
  | Root s, Root t => Qltb s t
  | Root _, Inf => true
  | Inf, _ => false
  end.

(** [d <= c] and [d < c] for a pixel threshold [c >= 0]. *)
Definition dist_le_px (d : dist) (c : Q) : bool :=
  match d with Root s => Qle_bool s (c * c) | Inf => false end.

Definition dist_lt_px (d : dist) (c : Q) : bool :=
  match d with Root s => Qltb s (c * c) | Inf => false end.


(** ** Data model *)

Record Detection := {
  class_name : string;
  confidence : Q;
  bbox : gmap string Q;
  center : Pos;
  area : Q;
  frame_id : string;
  timestamp : string
}.

Record ROI := {
  name : string;
  shape : string;
  ingredient_type : string;
  requires_scooper : bool;
  x : option Q;
  y : option Q;
  width : option Q;
  height : option Q;
  points : option (list Pos)
}.

(** ** Geometry *)

(** [_calculate_distance]: [pos.get("x", 0) or 0] reads a missing key as 0.
    The [except] branch is for non-numeric values, which [Pos] excludes. *)
Definition sq_distance (pos1 pos2 : Pos) : Q :=
  let x1 := default 0 (pos_x pos1) in
  let y1 := default 0 (pos_y pos1) in
  let x2 := default 0 (pos_x pos2) in
  let y2 := default 0 (pos_y pos2) in
  (x1 - x2) * (x1 - x2) + (y1 - y2) * (y1 - y2).

Definition _calculate_distance (pos1 pos2 : Pos) : dist :=
  Root (sq_distance pos1 pos2).


(** Loop state of [_point_in_polygon]: [xinters] is unbound until the first
    assignment and keeps its last value afterwards. *)
Record pip := {
  inside : bool;
  p1x : Q;
  p1y : Q;
  xinters : option Q
}.

(** One iteration of the [for] loop, with [p2 = points[i % n]].  [None] is a
    raised exception: [KeyError] for a point without ["x"] or ["y"],
    [UnboundLocalError] for a read of [xinters] before its assignment. *)
Definition pip_step (px py : Q) (s : pip) (p2 : Pos) : option pip :=
  p2x ← pos_x p2;
  p2y ← pos_y p2;
  if Qltb (Qmin (p1y s) p2y) py then
    if Qle_bool py (Qmax (p1y s) p2y) then
      if Qle_bool px (Qmax (p1x s) p2x) then
        let xi :=
          if negb (Qeq_bool (p1y s) p2y)
          then Some ((py - p1y s) * (p2x - p1x s) / (p2y - p1y s) + p1x s)
          else xinters s in
        flip ← (if Qeq_bool (p1x s) p2x then Some true
                else v ← xi; Some (Qle_bool px v));
        Some {| inside := if flip : bool then negb (inside s) else inside s;
                p1x := p2x; p1y := p2y; xinters := xi |}
      else Some {| inside := inside s; p1x := p2x; p1y := p2y; xinters := xinters s |}
    else Some {| inside := inside s; p1x := p2x; p1y := p2y; xinters := xinters s |}
  else Some {| inside := inside s; p1x := p2x; p1y := p2y; xinters := xinters s |}.

Fixpoint pip_loop (px py : Q) (s : pip) (ps : list Pos) : option pip :=
  match ps with
  | [] => Some s
  | p2 :: ps' => s' ← pip_step px py s p2; pip_loop px py s' ps'
  end.

(** [_point_in_polygon]: the loop visits [points[1], ..., points[n-1],
    points[0]]; any exception makes the function return [False]. *)
Definition _point_in_polygon (px py : Q) (pts : list Pos) : bool :=
  match pts with
  | [] => false
  | p0 :: rest =>
      let run :=
        x0 ← pos_x p0;
        y0 ← pos_y p0;
        pip_loop px py
          {| inside := false; p1x := x0; p1y := y0; xinters := None |}
          (rest ++ [p0]) in
      match run with Some s => inside s | None => false end
  end.

(** [_is_in_roi]: [not detection.bbox] holds for the empty dict;
    [(roi.width or 0)] reads [None] as 0. *)
Definition _is_in_roi (detection : Detection) (roi : ROI) : bool :=
  if decide (bbox detection = ∅) then false
  else
    let det_center_x := default 0 (pos_x (center detection)) in
    let det_center_y := default 0 (pos_y (center detection)) in
    match String.eqb (shape roi) "rectangle", x roi, y roi with
    | true, Some rx, Some ry =>
        Qle_bool rx det_center_x
        && Qle_bool det_center_x (rx + default 0 (width roi))
        && Qle_bool ry det_center_y
        && Qle_bool det_center_y (ry + default 0 (height roi))
    | _, _, _ =>
        match String.eqb (shape roi) "polygon", points roi with
        | true, Some (p :: ps) => _point_in_polygon det_center_x det_center_y (p :: ps)
        | _, _ => false
        end
    end.

(** ** The ray casting loop in binary64

    The loop above computes [xinters] without rounding.  Here is the same
    loop on IEEE 754 binary64 numbers, the floats of the interpreter, to
    evaluate [_point_in_polygon] where the rounding of [xinters] decides. *)

Module Binary64.

(** [min(a, b)] and [max(a, b)]: the first argument, unless the second is
    strictly smaller (greater). *)
Definition min (a b : float) : float := if PrimFloat.ltb b a then b else a.
Definition max (a b : float) : float := if PrimFloat.ltb a b then b else a.

(** A point dict; [None] is a missing key. *)
Record Pos := { pos_x : option float; pos_y : option float }.

Definition at_xy (a b : float) : Pos := {| pos_x := Some a; pos_y := Some b |}.

(** [a / b]: [None] is the [ZeroDivisionError] of a zero divisor. *)
Definition true_div (a b : float) : option float :=
  if PrimFloat.eqb b 0 then None else Some (a / b)%float.

Record pip := {
  inside : bool;
  p1x : float;
  p1y : float;
  xinters : option float
}.

Definition pip_step (x y : float) (s : pip) (p2 : Pos) : option pip :=
  p2x ← pos_x p2;
  p2y ← pos_y p2;
  if PrimFloat.ltb (min (p1y s) p2y) y then
    if PrimFloat.leb y (max (p1y s) p2y) then
      if PrimFloat.leb x (max (p1x s) p2x) then
        xi ← (if negb (PrimFloat.eqb (p1y s) p2y)
              then q ← true_div ((y - p1y s) * (p2x - p1x s)) (p2y - p1y s);
                   Some (Some (q + p1x s)%float)
              else Some (xinters s));
        flip ← (if PrimFloat.eqb (p1x s) p2x then Some true
                else v ← xi; Some (PrimFloat.leb x v));
        Some {| inside := if flip : bool then negb (inside s) else inside s;
                p1x := p2x; p1y := p2y; xinters := xi |}
      else Some {| inside := inside s; p1x := p2x; p1y := p2y; xinters := xinters s |}
    else Some {| inside := inside s; p1x := p2x; p1y := p2y; xinters := xinters s |}
  else Some {| inside := inside s; p1x := p2x; p1y := p2y; xinters := xinters s |}.

Fixpoint pip_loop (x y : float) (s : pip) (ps : list Pos) : option pip :=
  match ps with
  | [] => Some s
  | p2 :: ps' => s' ← pip_step x y s p2; pip_loop x y s' ps'
  end.

Definition _point_in_polygon (x y : float) (points : list Pos) : bool :=
  match points with
  | [] => false
  | p0 :: rest =>
      let run :=
        x0 ← pos_x p0;
        y0 ← pos_y p0;
        pip_loop x y
          {| inside := false; p1x := x0; p1y := y0; xinters := None |}
          (rest ++ [p0]) in
      match run with Some s => inside s | None => false end
  end.

End Binary64.

(** ** Simple scooper-usage classifier *)

(** The [for scooper in scoopers] loop shared by the two functions below. *)
Definition closest_scooper (hand : Detection) (scoopers : list Detection) : dist :=
  fold_left
    (fun closest_distance scooper =>
       let distance := _calculate_distance (center hand) (center scooper) in
       if dist_ltb distance closest_distance then distance else closest_distance)
    scoopers Inf.

(** [allow_nearby] is the value of
    [os.getenv("ALLOW_NEARBY_SCOOPER_FALLBACK", "true").lower() == "true"]. *)
Definition _is_hand_using_scooper_simple
    (allow_nearby : bool) (hand : Detection) (scoopers : list Detection) : bool :=
  match scoopers with
  | [] => false
  | _ =>
      let closest_distance := closest_scooper hand scoopers in
      if dist_le_px closest_distance 50 then true
      else if dist_le_px closest_distance 100 then allow_nearby
      else false
  end.

Definition _get_closest_scooper_distance
    (hand : Detection) (scoopers : list Detection) : dist :=
  match scoopers with
  | [] => Inf
  | _ => closest_scooper hand scoopers
  end.

(** ** Hand/worker association *)

(** The inner [for person_idx, person in enumerate(persons)] loop; the state is
    [(min_distance, closest_worker)]. *)
Fixpoint closest_person (hand : Detection) (persons : list Detection) (person_idx : nat)
    (st : dist * option nat) : dist * option nat :=
  match persons with
  | [] => st
  | person :: rest =>
      let distance := _calculate_distance (center hand) (center person) in
      let st' :=
        if dist_ltb distance (fst st) && dist_lt_px distance 150
        then (distance, Some (person_idx + 1)%nat)
        else st in
      closest_person hand rest (S person_idx) st'
  end.

Fixpoint associate_from (hands : list Detection) (persons : list Detection) (hand_idx : nat)
    (acc : gmap nat nat) : gmap nat nat :=
  match hands with
  | [] => acc
  | hand :: rest =>
      let acc' :=
        match snd (closest_person hand persons 0 (Inf, None)) with
        | Some closest_worker => <[hand_idx := closest_worker]> acc
        | None => acc
        end in
      associate_from rest persons (S hand_idx) acc'
  end.

Definition _associate_hands_with_workers (hands persons : list Detection) : gmap nat nat :=
  match persons with
  | [] => ∅
  | _ => associate_from hands persons 0 ∅
  end.

(** ** Detector state *)

Local Open Scope Z_scope.

Inductive ViolationType :=
  | HAND_WITHOUT_SCOOPER
  | INGREDIENT_GRABBED_NO_SCOOPER
  | IMPROPER_HYGIENE.

Record ROISequence := {
  sequence_id : string;
  hand_id : string;
  roi_name : string;
  worker_id : option nat;
  entry_frame : string;
  exit_frame : option string;
  entry_time : Z;
  exit_time : option Z;
  frames_in_roi : list string;
  positions_in_roi : list Pos;
  scooper_usage_frames : list bool;
  scooper_distances : list dist;
  is_active : bool;
  is_complete : bool
}.

Record Evidence := {
  hand_bbox : gmap string Q;
  hand_center : Pos;
  evidence_roi_name : string;
  roi_bounds : option Q * option Q * option Q * option Q;
  evidence_ingredient_type : string
}.

(** [ViolationEvent]: the fields of the pydantic model (the two optional
    movement fields, never set on this path, are left out).  [ev_timestamp] is
    the clock reading that the code renders with [isoformat()]. *)
Record ViolationEvent := {
  violation_id : string;
  ev_frame_id : string;
  ev_timestamp : Z;
  violation_type : ViolationType;
  description : string;
  ev_confidence : Q;
  evidence : Evidence;
  ev_worker_id : option nat;
  ev_roi_name : string;
  severity : string
}.

(** The attributes of [ViolationDetector] that the sequence tracker, the
    arbiter and the janitors read or write. *)
Record ViolationDetector := {
  violation_count : nat;
  active_sequences : gmap string ROISequence;
  completed_sequences : list ROISequence;
  sequence_counter : nat;
  sequence_violations : gmap string string;
  violation_timestamps : gmap string Z
}.

(** The detector as constructed by [__init__]. *)
Definition new_detector : ViolationDetector :=
  {| violation_count := 0;
     active_sequences := ∅;
     completed_sequences := [];
     sequence_counter := 0;
     sequence_violations := ∅;
     violation_timestamps := ∅ |}.

(** One element of the [violations] list of [_detect_violations].  The event
    is what the code appends; [em_key] and [em_hand] record, for the
    statements below, the sequence key and the hand detection of the loop
    iteration that appended it. *)
Record Emission := {
  em_key : string;
  em_hand : Detection;
  em_event : ViolationEvent
}.

(** ** Effects: state, clock and exceptions *)

(** [self] is the detector object, [violations] the list object local to the
    running [_detect_violations] call, [clock] the oracle of clock readings
    and [reads] the number of readings taken so far.  [emitted] is a history
    variable: every element ever appended to a [violations] list, in order. *)
Record World := {
  self : ViolationDetector;
  violations : list Emission;
  emitted : list Emission;
  clock : nat → Z;
  reads : nat
}.

Inductive exn := AttributeError (attr : string).

Inductive res (A : Type) :=
  | Val (a : A)
  | Raise (e : exn).
Arguments Val {A} a.
Arguments Raise {A} e.

Definition M (A : Type) : Type := World → res A * World.

Definition ret {A} (a : A) : M A := fun w => (Val a, w).

Definition bind {A B} (m : M A) (k : A → M B) : M B :=
  fun w =>
    match m w with
    | (Val a, w') => k a w'
    | (Raise e, w') => (Raise e, w')
    end.

Definition raise {A} (e : exn) : M A := fun w => (Raise e, w).

(** [try: body / except Exception: handler]: what [body] did to the state
    before raising stays done. *)
Definition try_except (body : M unit) (handler : exn → M unit) : M unit :=
  fun w =>
    match body w with
    | (Val u, w') => (Val u, w')
    | (Raise e, w') => handler e w'
    end.

Declare Scope py_scope.
Delimit Scope py_scope with py.
Notation "'let*' x ':=' m 'in' k" := (bind m (fun x => k))
  (at level 10, x name, m at level 100, k at level 200) : py_scope.
Notation "m ';;' k" := (bind m (fun _ => k))
  (at level 100, k at level 200, right associativity) : py_scope.
Local Open Scope py_scope.

Definition get_self : M ViolationDetector := fun w => (Val (self w), w).

Definition set_self (d : ViolationDetector) : M unit :=
  fun w => (Val tt, {| self := d; violations := violations w;
                       emitted := emitted w;
                       clock := clock w; reads := reads w |}).

Definition append_violation (e : Emission) : M unit :=
  fun w => (Val tt, {| self := self w; violations := violations w ++ [e];
                       emitted := emitted w ++ [e];
                       clock := clock w; reads := reads w |}).

(** [time.time()] and [datetime.now()]: the next reading of the oracle. *)
Definition now : M Z :=
  fun w => (Val (clock w (reads w)),
            {| self := self w; violations := violations w;
               emitted := emitted w;
               clock := clock w; reads := S (reads w) |}).

(** [for i, a in enumerate(l, start): body(i, a)]. *)
Fixpoint for_enumerate {A} (start : nat) (l : list A) (body : nat → A → M unit) : M unit :=
  match l with
  | [] => ret tt
  | a :: l' => body start a ;; for_enumerate (S start) l' body
  end.

Definition for_each {A} (l : list A) (body : A → M unit) : M unit :=
  for_enumerate 0 l (fun _ a => body a).

Definition seconds (n : Z) : Z := n * 1000000.

(** ** Strings *)

(** [str.lower()] on ASCII letters. *)
Definition lower_ascii (c : ascii) : ascii :=
  let n := nat_of_ascii c in
  if ((65 <=? n)%nat && (n <=? 90)%nat)%bool then ascii_of_nat (n + 32) else c.

Fixpoint lower (s : string) : string :=
  match s with
  | EmptyString => EmptyString
  | String c s' => String (lower_ascii c) (lower s')
  end.

(** [f"{hand_id}_{roi_name}"]. *)
Definition sequence_key_of (hand_id roi_name : string) : string :=
  hand_id +:+ "_" +:+ roi_name.

(** The truth value of [associated_worker]: [None] and [0] are false. *)
Definition truthy (associated_worker : option nat) : option nat :=
  match associated_worker with
  | Some (S n) => Some (S n)
  | _ => None
  end.

(** [f"hand_{i}_worker_{associated_worker}" if associated_worker else f"hand_{i}"]. *)
Definition hand_id_of (i : nat) (associated_worker : option nat) : string :=
  match truthy associated_worker with
  | Some w => "hand_" +:+ pretty i +:+ "_worker_" +:+ pretty w
  | None => "hand_" +:+ pretty i
  end.

Definition worker_info_of (associated_worker : option nat) : string :=
  match truthy associated_worker with
  | Some w => " (Worker " +:+ pretty w +:+ ")"
  | None => " (Unassigned)"
  end.

(** ** ROISequence methods *)

Definition add_frame (s : ROISequence) (frame_id : string) (position : Pos)
    (using_scooper : bool) (scooper_distance : dist) : ROISequence :=
  {| sequence_id := sequence_id s; hand_id := hand_id s; roi_name := roi_name s;
     worker_id := worker_id s; entry_frame := entry_frame s; exit_frame := exit_frame s;
     entry_time := entry_time s; exit_time := exit_time s;
     frames_in_roi := frames_in_roi s ++ [frame_id];
     positions_in_roi := positions_in_roi s ++ [position];
     scooper_usage_frames := scooper_usage_frames s ++ [using_scooper];
     scooper_distances := scooper_distances s ++ [scooper_distance];
     is_active := is_active s; is_complete := is_complete s |}.

Definition complete_sequence (s : ROISequence) (exit_frame : string) : M ROISequence :=
  let* t := now in
  ret {| sequence_id := sequence_id s; hand_id := hand_id s; roi_name := roi_name s;
         worker_id := worker_id s; entry_frame := entry_frame s;
         exit_frame := Some exit_frame;
         entry_time := entry_time s; exit_time := Some t;
         frames_in_roi := frames_in_roi s; positions_in_roi := positions_in_roi s;
         scooper_usage_frames := scooper_usage_frames s;
         scooper_distances := scooper_distances s;
         is_active := false; is_complete := true |}.

(** [ROISequence(sequence_id=..., hand_id=..., roi_name=..., worker_id=...,
    entry_frame=...)]: [__post_init__] fills the lists and reads the clock for
    [entry_time]. *)
Definition new_ROISequence (sequence_id hand_id roi_name : string)
    (worker_id : option nat) (entry_frame : string) : M ROISequence :=
  let* t := now in
  ret {| sequence_id := sequence_id; hand_id := hand_id; roi_name := roi_name;
         worker_id := worker_id; entry_frame := entry_frame; exit_frame := None;
         entry_time := t; exit_time := None;
         frames_in_roi := []; positions_in_roi := [];
         scooper_usage_frames := []; scooper_distances := [];
         is_active := true; is_complete := false |}.

(** ** Field updates of the detector object *)

Definition with_violation_count (n : nat) (d : ViolationDetector) : ViolationDetector :=
  {| violation_count := n; active_sequences := active_sequences d;
     completed_sequences := completed_sequences d;
     sequence_counter := sequence_counter d;
     sequence_violations := sequence_violations d;
     violation_timestamps := violation_timestamps d |}.

Definition with_active_sequences (m : gmap string ROISequence) (d : ViolationDetector)
    : ViolationDetector :=
  {| violation_count := violation_count d; active_sequences := m;
     completed_sequences := completed_sequences d;
     sequence_counter := sequence_counter d;
     sequence_violations := sequence_violations d;
     violation_timestamps := violation_timestamps d |}.

Definition with_completed_sequences (l : list ROISequence) (d : ViolationDetector)
    : ViolationDetector :=
  {| violation_count := violation_count d; active_sequences := active_sequences d;
     completed_sequences := l;
     sequence_counter := sequence_counter d;
     sequence_violations := sequence_violations d;
     violation_timestamps := violation_timestamps d |}.

Definition with_sequence_counter (n : nat) (d : ViolationDetector) : ViolationDetector :=
  {| violation_count := violation_count d; active_sequences := active_sequences d;
     completed_sequences := completed_sequences d;
     sequence_counter := n;
     sequence_violations := sequence_violations d;
     violation_timestamps := violation_timestamps d |}.

Definition with_sequence_violations (m : gmap string string) (d : ViolationDetector)
    : ViolationDetector :=
  {| violation_count := violation_count d; active_sequences := active_sequences d;
     completed_sequences := completed_sequences d;
     sequence_counter := sequence_counter d;
     sequence_violations := m;
     violation_timestamps := violation_timestamps d |}.

Definition with_violation_timestamps (m : gmap string Z) (d : ViolationDetector)
    : ViolationDetector :=
  {| violation_count := violation_count d; active_sequences := active_sequences d;
     completed_sequences := completed_sequences d;
     sequence_counter := sequence_counter d;
     sequence_violations := sequence_violations d;
     violation_timestamps := m |}.

Definition modify_self (f : ViolationDetector → ViolationDetector) : M unit :=
  let* d := get_self in set_self (f d).

(** ** Violation arbiter *)

(** The decision of [_should_create_sequence_violation] once the clock has
    been read. *)
Definition should_create_at (d : ViolationDetector) (current_time : Z)
    (sequence_key : string) (is_using_scooper : bool) : bool :=
  match sequence_violations d !! sequence_key with
  | Some _ => false
  | None =>
      let cooling :=
        match violation_timestamps d !! sequence_key with
        | Some last_violation_time =>
            let time_since_last := current_time - last_violation_time in
            time_since_last <? seconds 30
        | None => false
        end in
      if cooling then false
      else if negb is_using_scooper then true
      else false
  end.

Definition _should_create_sequence_violation (hand_id roi_name : string)
    (is_using_scooper : bool) : M bool :=
  let sequence_key := sequence_key_of hand_id roi_name in
  let* current_time := now in
  let* d := get_self in
  ret (should_create_at d current_time sequence_key is_using_scooper).

Definition _mark_sequence_as_violation (hand_id roi_name violation_id : string) : M unit :=
  let sequence_key := sequence_key_of hand_id roi_name in
  let* current_time := now in
  modify_self (fun d =>
    with_sequence_violations (<[sequence_key := violation_id]> (sequence_violations d)) d) ;;
  modify_self (fun d =>
    with_violation_timestamps (<[sequence_key := current_time]> (violation_timestamps d)) d).

Definition _create_violation (violation_type : ViolationType) (hand : Detection)
    (roi : ROI) (frame_id description severity : string) : M ViolationEvent :=
  modify_self (fun d => with_violation_count (S (violation_count d)) d) ;;
  let* d := get_self in
  let* t := now in
  ret {| violation_id := "violation_" +:+ pretty (violation_count d) +:+ "_" +:+ frame_id;
         ev_frame_id := frame_id;
         ev_timestamp := t;
         violation_type := violation_type;
         description := description;
         ev_confidence := confidence hand;
         evidence := {| hand_bbox := bbox hand;
                        hand_center := center hand;
                        evidence_roi_name := name roi;
                        roi_bounds := (x roi, y roi, width roi, height roi);
                        evidence_ingredient_type := ingredient_type roi |};
         ev_worker_id := None;
         ev_roi_name := name roi;
         severity := severity |}.

(** Reading a string attribute of a [ViolationEvent].  The model declares the
    string fields below; pydantic's [BaseModel] raises [AttributeError] for a
    name that is not a field of the model. *)
Definition getattr_str (v : ViolationEvent) (attr : string) : M string :=
  if String.eqb attr "violation_id" then ret (violation_id v)
  else if String.eqb attr "frame_id" then ret (ev_frame_id v)
  else if String.eqb attr "description" then ret (description v)
  else if String.eqb attr "roi_name" then ret (ev_roi_name v)
  else if String.eqb attr "severity" then ret (severity v)
  else raise (AttributeError attr).

Definition set_worker_id (v : ViolationEvent) (w : option nat) : ViolationEvent :=
  {| violation_id := violation_id v; ev_frame_id := ev_frame_id v;
     ev_timestamp := ev_timestamp v; violation_type := violation_type v;
     description := description v; ev_confidence := ev_confidence v;
     evidence := evidence v; ev_worker_id := w; ev_roi_name := ev_roi_name v;
     severity := severity v |}.

(** ** Sequence tracker *)

Definition _update_roi_sequence (hand_id roi_name frame_id : string) (hand_position : Pos)
    (using_scooper : bool) (scooper_distance : dist) (worker_id : option nat) : M unit :=
  let sequence_key := sequence_key_of hand_id roi_name in
  let* d := get_self in
  match active_sequences d !! sequence_key with
  | Some sequence =>
      let sequence := add_frame sequence frame_id hand_position using_scooper scooper_distance in
      set_self (with_active_sequences (<[sequence_key := sequence]> (active_sequences d)) d)
  | None =>
      modify_self (fun d => with_sequence_counter (S (sequence_counter d)) d) ;;
      let* d := get_self in
      let* sequence :=
        new_ROISequence ("seq_" +:+ pretty (sequence_counter d)) hand_id roi_name
                        worker_id frame_id in
      let sequence := add_frame sequence frame_id hand_position using_scooper scooper_distance in
      modify_self (fun d =>
        with_active_sequences (<[sequence_key := sequence]> (active_sequences d)) d)
  end.

Definition _check_sequence_completion (hand_id roi_name frame_id : string) : M unit :=
  let sequence_key := sequence_key_of hand_id roi_name in
  let* d := get_self in
  match active_sequences d !! sequence_key with
  | Some sequence =>
      let* sequence := complete_sequence sequence frame_id in
      modify_self (fun d =>
        with_completed_sequences (completed_sequences d ++ [sequence]) d) ;;
      modify_self (fun d =>
        with_active_sequences (delete sequence_key (active_sequences d)) d) ;;
      modify_self (fun d =>
        match sequence_violations d !! sequence_key with
        | Some _ => with_sequence_violations (delete sequence_key (sequence_violations d)) d
        | None => d
        end) ;;
      modify_self (fun d =>
        match violation_timestamps d !! sequence_key with
        | Some _ => with_violation_timestamps (delete sequence_key (violation_timestamps d)) d
        | None => d
        end)
  | None => ret tt
  end.

(** ** Janitors *)

(** [for key in keys: del m[key]]. *)
Definition delete_keys {V} (keys : list string) (m : gmap string V) : gmap string V :=
  fold_left (fun m key => delete key m) keys m.

(** The keys of the entries of [m] that satisfy [stale], as collected by the
    first loop of each janitor. *)
Definition stale_keys {V} (stale : V → bool) (m : gmap string V) : list string :=
  (map_to_list (filter (fun kv => stale kv.2 = true) m)).*1.

Definition _cleanup_old_sequences : M unit :=
  let* current_time := now in
  modify_self (fun d =>
    if (50 <? length (completed_sequences d))%nat
    then with_completed_sequences
           (drop (length (completed_sequences d) - 50) (completed_sequences d)) d
    else d) ;;
  let* d := get_self in
  let stale_sequences :=
    stale_keys (fun sequence => seconds 30 <? current_time - entry_time sequence)
               (active_sequences d) in
  set_self (with_active_sequences (delete_keys stale_sequences (active_sequences d)) d).

Definition _cleanup_old_violation_timestamps : M unit :=
  let* current_time := now in
  let* d := get_self in
  let stale_timestamps :=
    stale_keys (fun timestamp => seconds 60 <? current_time - timestamp)
               (violation_timestamps d) in
  set_self (with_violation_timestamps
              (delete_keys stale_timestamps (violation_timestamps d)) d).

(** ** Parsing the detections of a request *)

(** A number field of a detection dict: absent, JSON [null] or a number. *)
Inductive json_number := Missing | Null | Number (q : Q).

(** A detection dict of the request; [None] is a missing key. *)
Record RawDetection := {
  raw_class_name : option string;
  raw_confidence : json_number;
  raw_bbox : option (gmap string Q);
  raw_center : option Pos;
  raw_area : option Q
}.

(** The body of the loop of [_parse_detections]; [None] is the [KeyError] of
    [data["class_name"]], [data["bbox"]], [data["center"]] or [data["area"]].
    The timestamp string is kept as it is. *)
Definition parse_detection (frame_id timestamp : string) (data : RawDetection)
    : option Detection :=
  let confidence :=
    match raw_confidence data with
    | Missing => 0%Q
    | Null => 0%Q
    | Number q => q
    end in
  class_name ← raw_class_name data;
  bbox ← raw_bbox data;
  center ← raw_center data;
  area ← raw_area data;
  Some {| class_name := class_name; confidence := confidence; bbox := bbox;
          center := center; area := area; frame_id := frame_id;
          timestamp := timestamp |}.

Definition _parse_detections (detection_data : list RawDetection)
    (frame_id timestamp : string) : option (list Detection) :=
  mapM (parse_detection frame_id timestamp) detection_data.

(** ** The per-frame analysis *)

Definition has_class (names : list string) (d : Detection) : bool :=
  bool_decide (lower (class_name d) ∈ names).

Definition reset_violations : M unit :=
  fun w => (Val tt, {| self := self w; violations := [];
                       emitted := emitted w;
                       clock := clock w; reads := reads w |}).

Definition get_violations : M (list Emission) := fun w => (Val (violations w), w).

(** The body of the [try] block of the entry branch. *)
Definition create_sequence_violation (i : nat) (hand : Detection) (roi : ROI)
    (frame_id hand_id : string) (associated_worker : option nat) : M unit :=
  let worker_info := worker_info_of associated_worker in
  let* sequence_violation :=
    _create_violation HAND_WITHOUT_SCOOPER hand roi frame_id
      ("Hand " +:+ pretty (i + 1)%nat +:+ worker_info +:+ " in " +:+ name roi
       +:+ " without scooper (complete sequence)")
      "high" in
  let sequence_violation := set_worker_id sequence_violation associated_worker in
  append_violation {| em_key := sequence_key_of hand_id (name roi);
                      em_hand := hand;
                      em_event := sequence_violation |} ;;
  (* print(f"... {sequence_violation.id}") *)
  let* _ := getattr_str sequence_violation "id" in
  let* id := getattr_str sequence_violation "id" in
  _mark_sequence_as_violation hand_id (name roi) id.

(** The body of [for roi in rois] for hand number [i]. *)
Definition process_hand_roi (allow_nearby : bool) (scoopers : list Detection)
    (frame_id : string) (i : nat) (hand : Detection) (associated_worker : option nat)
    (roi : ROI) : M unit :=
  let is_in_roi := _is_in_roi hand roi in
  if requires_scooper roi && is_in_roi then
    let hand_id := hand_id_of i associated_worker in
    let sequence_key := sequence_key_of hand_id (name roi) in
    let* d := get_self in
    let is_new_entry :=
      match active_sequences d !! sequence_key with None => true | Some _ => false end in
    let is_using_scooper := _is_hand_using_scooper_simple allow_nearby hand scoopers in
    let closest_scooper_distance := _get_closest_scooper_distance hand scoopers in
    (if is_new_entry then
       let* sequence_violation_needed :=
         _should_create_sequence_violation hand_id (name roi) is_using_scooper in
       if sequence_violation_needed then
         try_except
           (create_sequence_violation i hand roi frame_id hand_id associated_worker)
           (fun _ => ret tt)
       else ret tt
     else ret tt) ;;
    _update_roi_sequence hand_id (name roi) frame_id (center hand)
                         is_using_scooper closest_scooper_distance associated_worker
  else
    let hand_id := hand_id_of i associated_worker in
    _check_sequence_completion hand_id (name roi) frame_id.

(** [_detect_violations].  Logging, the message broker and the database
    client do not touch the detector object and are left out. *)
Definition _detect_violations (allow_nearby : bool) (detections : list Detection)
    (rois : list ROI) (frame_id : string) : M (list ViolationEvent) :=
  reset_violations ;;
  let hands := List.filter (has_class ["hand"; "hands"]) detections in
  let persons := List.filter (has_class ["person"; "people"]) detections in
  let scoopers :=
    List.filter (has_class ["scooper"; "scoopers"; "spoon"; "utensil"]) detections in
  let hand_worker_associations := _associate_hands_with_workers hands persons in
  for_enumerate 0 hands (fun i hand =>
    let associated_worker := hand_worker_associations !! i in
    for_each rois (fun roi =>
      process_hand_roi allow_nearby scoopers frame_id i hand associated_worker roi)) ;;
  _cleanup_old_sequences ;;
  _cleanup_old_violation_timestamps ;;
  let* violations := get_violations in
  ret (map em_event violations).

(** A world in which the detector has just been constructed. *)
Definition new_world (clock : nat → Z) : World :=
  {| self := new_detector; violations := []; emitted := [];
     clock := clock; reads := 0 |}.

(** A frame as received by the analysis: parsed detections, ROIs, frame id. *)
Record Frame := {
  fr_detections : list Detection;
  fr_rois : list ROI;
  fr_id : string
}.

(** Successive analysis calls on the same detector. *)
Fixpoint analyze_frames (allow_nearby : bool) (frames : list Frame) (w : World) : World :=
  match frames with
  | [] => w
  | f :: rest =>
      analyze_frames allow_nearby rest
        (snd (_detect_violations allow_nearby (fr_detections f) (fr_rois f) (fr_id f) w))
  end.

(** ** Notions used by the statements *)

Local Open Scope Q_scope.


(** A vertex with both coordinates present. *)
Definition to_pos (v : Q * Q) : Pos := at_xy v.1 v.2.

(** The edges of the closed polygon with vertices [vs]: each vertex joined
    to the next one, the last to the first. *)
Fixpoint pairs_from (a : Q * Q) (vs : list (Q * Q)) : list ((Q * Q) * (Q * Q)) :=
  match vs with
  | [] => []
  | b :: vs' => (a, b) :: pairs_from b vs'
  end.

Definition edges (vs : list (Q * Q)) : list ((Q * Q) * (Q * Q)) :=
  match vs with
  | [] => []
  | v0 :: rest => pairs_from v0 (rest ++ [v0])
  end.

(** The abscissa at which the line through [a] and [b] meets the horizontal
    line of ordinate [py]. *)
Definition x_at (py : Q) (a b : Q * Q) : Q :=
  a.1 + (py - a.2) * (b.1 - a.1) / (b.2 - a.2).

(** The horizontal ray from [(px, py)] towards increasing abscissas crosses
    the edge [(a, b)]: the edge spans the ordinate [py] (lower end excluded,
    upper end included) and meets the ray's line at or beyond [px]. *)
Definition crosses (px py : Q) (e : (Q * Q) * (Q * Q)) : bool :=
  Qltb (Qmin e.1.2 e.2.2) py
  && Qle_bool py (Qmax e.1.2 e.2.2)
  && Qle_bool px (x_at py e.1 e.2).

(** The even-odd rule: a point is inside when its ray crosses an odd number
    of edges. *)
Definition even_odd (px py : Q) (vs : list (Q * Q)) : bool :=
  Nat.odd (length (List.filter (crosses px py) (edges vs))).

(** An axis-aligned rectangle as a rectangle ROI and as a polygon ROI with
    the four corners as vertices. *)
Definition rectangle_roi (rx ry w h : Q) : ROI :=
  {| name := "roi"; shape := "rectangle"; ingredient_type := "unknown";
     requires_scooper := true;
     x := Some rx; y := Some ry; width := Some w; height := Some h;
     points := None |}.

Definition corners (rx ry w h : Q) : list (Q * Q) :=
  [(rx, ry); (rx + w, ry); (rx + w, ry + h); (rx, ry + h)].

Definition polygon_roi (vs : list (Q * Q)) : ROI :=
  {| name := "roi"; shape := "polygon"; ingredient_type := "unknown";
     requires_scooper := true;
     x := None; y := None; width := None; height := None;
     points := Some (map to_pos vs) |}.

Local Open Scope Z_scope.

(** *** Executions *)

(** The state after running [m]. *)
Definition after {A} (m : M A) (w : World) : World := snd (m w).

(** The steps an analysis call is made of: the start of the call
    ([violations = []]), one iteration of [for roi in rois] for a hand, and
    the two janitors. *)
Inductive step :=
  | StepCall
  | StepPair (allow_nearby : bool) (scoopers : list Detection) (frame_id : string)
             (i : nat) (hand : Detection) (associated_worker : option nat) (roi : ROI)
  | StepCleanSequences
  | StepCleanTimestamps.

Definition run_step (s : step) : M unit :=
  match s with
  | StepCall => reset_violations
  | StepPair allow_nearby scoopers frame_id i hand associated_worker roi =>
      process_hand_roi allow_nearby scoopers frame_id i hand associated_worker roi
  | StepCleanSequences => _cleanup_old_sequences
  | StepCleanTimestamps => _cleanup_old_violation_timestamps
  end.

Fixpoint run_steps (ss : list step) (w : World) : World :=
  match ss with
  | [] => w
  | s :: ss' => run_steps ss' (after (run_step s) w)
  end.

(** The sequence key a loop iteration works on. *)
Definition pair_key (i : nat) (associated_worker : option nat) (roi : ROI) : string :=
  sequence_key_of (hand_id_of i associated_worker) (name roi).

(** The condition [roi.requires_scooper and is_in_roi] of the iteration. *)
Definition in_scooper_roi (hand : Detection) (roi : ROI) : bool :=
  requires_scooper roi && _is_in_roi hand roi.

(** The steps of the [for i, hand in enumerate(hands)] loop. *)
Fixpoint hand_steps (allow_nearby : bool) (scoopers : list Detection) (frame_id : string)
    (associations : gmap nat nat) (rois : list ROI) (start : nat) (hands : list Detection)
    : list step :=
  match hands with
  | [] => []
  | hand :: rest =>
      map (StepPair allow_nearby scoopers frame_id start hand (associations !! start)) rois
      ++ hand_steps allow_nearby scoopers frame_id associations rois (S start) rest
  end.

(** The steps of one call of [_detect_violations]. *)
Definition frame_steps (allow_nearby : bool) (detections : list Detection)
    (rois : list ROI) (frame_id : string) : list step :=
  let hands := List.filter (has_class ["hand"; "hands"]) detections in
  let persons := List.filter (has_class ["person"; "people"]) detections in
  let scoopers :=
    List.filter (has_class ["scooper"; "scoopers"; "spoon"; "utensil"]) detections in
  StepCall
  :: hand_steps allow_nearby scoopers frame_id
       (_associate_hands_with_workers hands persons) rois 0 hands
  ++ [StepCleanSequences; StepCleanTimestamps].

(** A sequence for [key] is open: the key is in [active_sequences]. *)
Definition is_open (key : string) (w : World) : Prop :=
  is_Some (active_sequences (self w) !! key).

(** The sequence for [key] stays open along the steps [ss] run from [w]. *)
Fixpoint stays_open (key : string) (ss : list step) (w : World) : Prop :=
  match ss with
  | [] => True
  | s :: ss' =>
      is_open key (after (run_step s) w) ∧ stays_open key ss' (after (run_step s) w)
  end.

(** The events emitted so far under [key]. *)
Definition events_for (key : string) (w : World) : list Emission :=
  List.filter (fun e => String.eqb (em_key e) key) (emitted w).

(** A step closes the sequence of [key] by exit: it is the iteration for
    [key] of a hand that is not in a scooper-requiring ROI, run while the
    sequence is open. *)
Definition is_exit_closure (key : string) (s : step) (w : World) : Prop :=
  match s with
  | StepPair _ _ _ i hand associated_worker roi =>
      pair_key i associated_worker roi = key
      ∧ in_scooper_roi hand roi = false
      ∧ is_open key w
  | _ => False
  end.

(** The clock never goes back. *)
Definition monotone (clock : nat → Z) : Prop :=
  ∀ m n, (m <= n)%nat → clock m <= clock n.

(** The cooldown as the specification states it: along any run of analysis
    calls from a fresh detector, two events emitted under one key are at
    least 30 seconds apart. *)
Definition cooldown_between_events : Prop :=
  ∀ (allow_nearby : bool) (clock : nat → Z) (frames : list Frame)
    (i j : nat) (e1 e2 : Emission),
    monotone clock →
    (i < j)%nat →
    emitted (analyze_frames allow_nearby frames (new_world clock)) !! i = Some e1 →
    emitted (analyze_frames allow_nearby frames (new_world clock)) !! j = Some e2 →
    em_key e1 = em_key e2 →
    seconds 30 <= ev_timestamp (em_event e2) - ev_timestamp (em_event e1).

(** The staleness janitor touches nothing but the active map (and trims the
    history it does not append to). *)
Definition janitor_only_drops_active : Prop :=
  ∀ w,
    let w' := after _cleanup_old_sequences w in
    sequence_violations (self w') = sequence_violations (self w)
    ∧ violation_timestamps (self w') = violation_timestamps (self w)
    ∧ (∃ older, completed_sequences (self w) = older ++ completed_sequences (self w'))
    ∧ ∀ k, active_sequences (self w') !! k
           = match active_sequences (self w) !! k with
             | Some s => if seconds 30 <? clock w (reads w) - entry_time s then None else Some s
             | None => None
             end.

(** An entry of [sequence_violations] disappears only in an exit closure of
    its key. *)
Definition violations_purged_only_by_exit : Prop :=
  ∀ s w k,
    is_Some (sequence_violations (self w) !! k) →
    sequence_violations (self (after (run_step s) w)) !! k = None →
    is_exit_closure k s w.

(** The same for [violation_timestamps]. *)
Definition timestamps_purged_only_by_exit : Prop :=
  ∀ s w k,
    is_Some (violation_timestamps (self w) !! k) →
    violation_timestamps (self (after (run_step s) w)) !! k = None →
    is_exit_closure k s w.

(** An entry of [violation_timestamps] disappears in an exit closure of its
    key or when the cooldown janitor finds it older than 60 seconds. *)
Definition timestamps_purged_by_exit_or_age : Prop :=
  ∀ s w k t,
    violation_timestamps (self w) !! k = Some t →
    violation_timestamps (self (after (run_step s) w)) !! k = None →
    is_exit_closure k s w
    ∨ (s = StepCleanTimestamps ∧ seconds 60 < clock w (reads w) - t).

(** An event of the entry path is well formed for the hands [hands] of its
    frame. *)
Definition entry_event_ok (hands : list Detection) (em : Emission) : Prop :=
  violation_type (em_event em) = HAND_WITHOUT_SCOOPER
  ∧ severity (em_event em) = "high"%string
  ∧ ev_confidence (em_event em) = confidence (em_hand em)
  ∧ em_hand em ∈ hands.

(** *** A concrete scene

    One rectangle ROI [[500, 400, 200, 200]] that requires a scooper, a hand
    inside it at (520, 420), a hand outside it at (20, 20), a hand on its left
    edge, and no scooper. *)

Definition a_bbox : gmap string Q :=
  <["x1" := 500%Q]> (<["y1" := 400%Q]> (<["x2" := 540%Q]> (<["y2" := 440%Q]> ∅))).

Definition hand_at (cx cy : Q) : Detection :=
  {| class_name := "hand"; confidence := (9 # 10)%Q; bbox := a_bbox;
     center := at_xy cx cy; area := 1600%Q;
     frame_id := "frame"; timestamp := "2024-01-01T00:00:00" |}.

Definition other_at (cls : string) (cx cy : Q) : Detection :=
  {| class_name := cls; confidence := (8 # 10)%Q; bbox := a_bbox;
     center := at_xy cx cy; area := 1600%Q;
     frame_id := "frame"; timestamp := "2024-01-01T00:00:00" |}.

Definition hand_inside : Detection := hand_at 520 420.
Definition hand_outside : Detection := hand_at 20 20.
Definition hand_on_edge : Detection := hand_at 500 450.

Definition the_roi : ROI := rectangle_roi 500 400 200 200.

Definition frame_with (hand : Detection) (fid : string) : Frame :=
  {| fr_detections := [hand]; fr_rois := [the_roi]; fr_id := fid |}.

(** The hand enters, leaves and enters again. *)
Definition reentry_frames : list Frame :=
  [frame_with hand_inside "frame_1"; frame_with hand_outside "frame_20";
   frame_with hand_inside "frame_25"].

(** A clock that advances a quarter of a second between two readings. *)
Definition quarter_clock (n : nat) : Z := Z.of_nat n * 250000.

(** A clock that reads 0 first and 61 seconds afterwards. *)
Definition late_clock (n : nat) : Z :=
  match n with O => 0 | S _ => seconds 61 end.

(** A detector in which a violation has been recorded for ["hand_0_roi"] at
    time 0. *)
Definition marked_world : World :=
  after (_mark_sequence_as_violation "hand_0" "roi" "violation_1_frame_1")
        (new_world late_clock).

(** A request's detection dict for a hand inside the ROI, with a [null]
    confidence. *)
Definition raw_hand : RawDetection :=
  {| raw_class_name := Some "hand"%string; raw_confidence := Null;
     raw_bbox := Some a_bbox; raw_center := Some (at_xy 520 420);
     raw_area := Some 1600%Q |}.

(** ** Sequence statistics *)

(** [get_sequence_duration]: the time between entry and exit, in
    microseconds ([total_seconds()] is this number divided by 10^6); 0 while
    the sequence has no exit time. *)
Definition get_sequence_duration (s : ROISequence) : Z :=
  match exit_time s with
  | Some t => t - entry_time s
  | None => 0
  end.

(** [sum(self.scooper_usage_frames)]: [True] counts 1 and [False] counts 0. *)
Definition sum_bools (l : list bool) : Z :=
  fold_left (fun acc (b : bool) => acc + (if b then 1 else 0)) l 0.

Definition get_scooper_usage_percentage (s : ROISequence) : Q :=
  match scooper_usage_frames s with
  | [] => 0%Q
  | _ =>
      (inject_Z (sum_bools (scooper_usage_frames s))
       / inject_Z (Z.of_nat (length (scooper_usage_frames s))) * 100)%Q
  end.

Definition was_scooper_used_properly (s : ROISequence) : bool :=
  match scooper_usage_frames s with
  | [] => false
  | _ =>
      let usage_percentage := get_scooper_usage_percentage s in
      Qle_bool 70 usage_percentage
  end.

(** *** Shapes of the tracked sequences *)

(** The four per-frame lists of a sequence describe the same frames, the
    first of which is the entry frame. *)
Definition frames_aligned (s : ROISequence) : Prop :=
  head (frames_in_roi s) = Some (entry_frame s)
  ∧ length (positions_in_roi s) = length (frames_in_roi s)
  ∧ length (scooper_usage_frames s) = length (frames_in_roi s)
  ∧ length (scooper_distances s) = length (frames_in_roi s).

(** A sequence as [active_sequences] holds it under [key]. *)
Definition active_sequence_ok (key : string) (s : ROISequence) : Prop :=
  sequence_key_of (hand_id s) (roi_name s) = key
  ∧ is_active s = true
  ∧ is_complete s = false
  ∧ exit_frame s = None
  ∧ exit_time s = None
  ∧ frames_aligned s.

(** A sequence as [completed_sequences] holds it. *)
Definition completed_sequence_ok (s : ROISequence) : Prop :=
  is_active s = false
  ∧ is_complete s = true
  ∧ is_Some (exit_frame s)
  ∧ is_Some (exit_time s)
  ∧ 0 <= get_sequence_duration s
  ∧ frames_aligned s.

(** The [n]-th violation id for a frame: [f"violation_{n}_{frame_id}"]. *)
Definition violation_id_of (n : nat) (frame_id : string) : string :=
  "violation_" +:+ pretty n +:+ "_" +:+ frame_id.

(** The step opens a sequence for a hand that is not using a scooper. *)
Definition opens_without_scooper (s : step) (w : World) : Prop :=
  match s with
  | StepPair allow_nearby scoopers _ i hand associated_worker roi =>
      in_scooper_roi hand roi = true
      ∧ ¬ is_open (pair_key i associated_worker roi) w
      ∧ _is_hand_using_scooper_simple allow_nearby hand scoopers = false
  | _ => False
  end.

(** An event returned for the frame [frame_id] is justified by a hand
    detection of the frame that is inside a scooper-requiring ROI of the
    request and is not using a scooper. *)
Definition justified (allow_nearby : bool) (detections : list Detection)
    (rois : list ROI) (frame_id : string) (ev : ViolationEvent) : Prop :=
  ∃ hand roi,
    hand ∈ detections
    ∧ has_class ["hand"; "hands"] hand = true
    ∧ roi ∈ rois
    ∧ requires_scooper roi = true
    ∧ _is_in_roi hand roi = true
    ∧ _is_hand_using_scooper_simple allow_nearby hand
        (List.filter (has_class ["scooper"; "scoopers"; "spoon"; "utensil"]) detections)
      = false
    ∧ ev_roi_name ev = name roi
    ∧ ev_frame_id ev = frame_id
    ∧ ev_confidence ev = confidence hand
    ∧ hand_center (evidence ev) = center hand.

(** What the tracker holds at any point of a run: the active sequences are
    well formed and were entered at a clock reading already taken; under a
    clock that never goes back the sequences of the history are well
    formed. *)
Definition shapes_hold_in (w : World) : Prop :=
  (∀ k s, active_sequences (self w) !! k = Some s →
          active_sequence_ok k s ∧ ∃ n, (n < reads w)%nat ∧ entry_time s = clock w n)
  ∧ (monotone (clock w) →
     ∀ s, s ∈ completed_sequences (self w) → completed_sequence_ok s).

(** The [n]-th sequence id: [f"seq_{self.sequence_counter}"]. *)
Definition sequence_id_of (n : nat) : string := "seq_" +:+ pretty n.

(** The sequences the tracker holds carry pairwise different ids, each one
    numbered by a value the counter has taken. *)
Definition sequence_ids_unique (w : World) : Prop :=
  (∀ k s, active_sequences (self w) !! k = Some s →
          ∃ n, (1 <= n <= sequence_counter (self w))%nat ∧ sequence_id s = sequence_id_of n)
  ∧ (∀ s, s ∈ completed_sequences (self w) →
          ∃ n, (1 <= n <= sequence_counter (self w))%nat ∧ sequence_id s = sequence_id_of n)
  ∧ (∀ k1 k2 s1 s2,
       active_sequences (self w) !! k1 = Some s1 →
       active_sequences (self w) !! k2 = Some s2 →
       sequence_id s1 = sequence_id s2 → k1 = k2)
  ∧ NoDup (sequence_id <$> completed_sequences (self w))
  ∧ (∀ k s, active_sequences (self w) !! k = Some s →
            sequence_id s ∉ sequence_id <$> completed_sequences (self w)).

(** The events emitted so far are numbered in order by the violation
    counter. *)
Definition ids_numbered (w : World) : Prop :=
  violation_count (self w) = length (emitted w)
  ∧ ∀ i em, emitted w !! i = Some em →
      violation_id (em_event em) = violation_id_of (S i) (ev_frame_id (em_event em)).

(** Decimal digits. *)
Definition is_digit (c : ascii) : bool :=
  let n := nat_of_ascii c in ((48 <=? n)%nat && (n <=? 57)%nat)%bool.

Fixpoint all_digits (s : string) : bool :=
  match s with
  | EmptyString => true
  | String c s' => is_digit c && all_digits s'
  end.

(** ** Parsing the ROIs of a request *)

Local Open Scope Q_scope.

(** A ROI dict of the request.  For the string, boolean and list fields
    [None] is a missing key; a number field is absent, [null] or a number;
    ["coordinates"] is an array of arrays of numbers. *)
Record RawROI := {
  raw_name : option string;
  raw_shape : option string;
  raw_ingredient_type : option string;
  raw_requires_scooper : option bool;
  raw_x : json_number;
  raw_y : json_number;
  raw_width : json_number;
  raw_height : json_number;
  raw_coordinates : option (list (list Q));
  raw_points : option (list Pos)
}.

(** [data.get(key, default)] for a number field. *)
Definition get_number (field : json_number) (default : option Q) : option Q :=
  match field with
  | Missing => default
  | Null => None
  | Number q => Some q
  end.

(** [min(l)] and [max(l)]: the first least and the first greatest element;
    [None] is the [ValueError] of an empty list. *)
Definition list_min (l : list Q) : option Q :=
  match l with
  | [] => None
  | v :: l' => Some (fold_left (fun m v => if Qltb v m then v else m) l' v)
  end.

Definition list_max (l : list Q) : option Q :=
  match l with
  | [] => None
  | v :: l' => Some (fold_left (fun m v => if Qltb m v then v else m) l' v)
  end.

(** The body of the loop of [_parse_rois]; [None] is the [IndexError] of
    [coord[0]] or [coord[1]] or the [KeyError] of [data["name"]]. *)
Definition parse_roi (data : RawROI) : option ROI :=
  let coordinates := default [] (raw_coordinates data) in
  derived ←
    (if (4 <=? length coordinates)%nat then
       x_coords ← mapM (fun coord => coord !! 0%nat) coordinates;
       y_coords ← mapM (fun coord => coord !! 1%nat) coordinates;
       x ← list_min x_coords;
       y ← list_min y_coords;
       max_x ← list_max x_coords;
       max_y ← list_max y_coords;
       points ← mapM (fun coord =>
                        cx ← coord !! 0%nat; cy ← coord !! 1%nat; Some (at_xy cx cy))
                     coordinates;
       Some (Some x, Some y, Some (max_x - x), Some (max_y - y), Some points)
     else Some (None, None, None, None, raw_points data));
  let '(x, y, width, height, points) := derived in
  name ← raw_name data;
  Some {| name := name;
          shape := default "rectangle"%string (raw_shape data);
          ingredient_type := default "unknown"%string (raw_ingredient_type data);
          requires_scooper := default true (raw_requires_scooper data);
          x := get_number (raw_x data) x;
          y := get_number (raw_y data) y;
          width := get_number (raw_width data) width;
          height := get_number (raw_height data) height;
          points := points |}.

Definition _parse_rois (roi_data : list RawROI) : option (list ROI) :=
  mapM parse_roi roi_data.



Local Open Scope Z_scope.

(** ** Frame ids *)

(** [s.split(sep)] for a separator of one character: the fields between
    the occurrences of [sep], one more than there are occurrences. *)
Fixpoint split_on (sep : ascii) (s : string) : list string :=
  match s with
  | EmptyString => [EmptyString]
  | String c s' =>
      if Ascii.eqb c sep then EmptyString :: split_on sep s'
      else match split_on sep s' with
           | field :: fields => String c field :: fields
           | [] => [String c EmptyString]
           end
  end.

(** [s.replace(old, "")] for a non-empty [old]: the occurrences of [old]
    are removed from left to right, without overlap.  [skip] counts the
    characters of the current occurrence still to be dropped. *)
Fixpoint remove_from (old : string) (skip : nat) (s : string) : string :=
  match s with
  | EmptyString => EmptyString
  | String c s' =>
      match skip with
      | S skip' => remove_from old skip' s'
      | O =>
          if String.prefix old s then remove_from old (String.length old - 1) s'
          else String c (remove_from old 0 s')
      end
  end.

Definition remove_all (old s : string) : string := remove_from old 0 s.

(** The whitespace that [int] strips, among the ASCII characters. *)
Definition is_space (c : ascii) : bool :=
  let n := nat_of_ascii c in
  (((9 <=? n)%nat && (n <=? 13)%nat) || ((28 <=? n)%nat && (n <=? 32)%nat))%bool.

Fixpoint lstrip (s : string) : string :=
  match s with
  | EmptyString => EmptyString
  | String c s' => if is_space c then lstrip s' else s
  end.

Fixpoint rstrip (s : string) : string :=
  match s with
  | EmptyString => EmptyString
  | String c s' =>
      match rstrip s' with
      | EmptyString => if is_space c then EmptyString else String c EmptyString
      | r => String c r
      end
  end.

Definition digit_value (c : ascii) : Z := Z.of_nat (nat_of_ascii c) - 48.

(** The digits of an integer literal, single underscores allowed between
    two digits; [None] is a [ValueError]. *)
Fixpoint int_digits (s : string) (after_digit : bool) (acc : Z) : option Z :=
  match s with
  | EmptyString => if after_digit then Some acc else None
  | String c s' =>
      if is_digit c then int_digits s' true (acc * 10 + digit_value c)
      else if (Ascii.eqb c "_" && after_digit)%bool then int_digits s' false acc
      else None
  end.

(** [int(s)] for an ASCII string [s]: surrounding whitespace, an optional
    sign, decimal digits. *)
Definition py_int (s : string) : option Z :=
  match rstrip (lstrip s) with
  | String "-" r => Z.opp <$> int_digits r false 0
  | String "+" r => int_digits r false 0
  | t => int_digits t false 0
  end.

Definition _extract_session_id (frame_id : string) : string :=
  let parts := split_on "_" frame_id in
  if (3 <=? length parts)%nat then
    let video_path := List.nth 0 parts EmptyString in
    "session_" +:+ remove_all ".mp4" (List.last (split_on "/" video_path) EmptyString)
  else "default_session".

Definition _extract_frame_number (frame_id : string) : Z :=
  let parts := split_on "_" frame_id in
  if (2 <=? length parts)%nat then
    match py_int (List.nth 1 parts EmptyString) with
    | Some n => n
    | None => 0
    end
  else 0.

Definition _extract_frame_path (frame_id : string) : string :=
  let parts := split_on "_" frame_id in
  if (1 <=? length parts)%nat then List.nth 0 parts EmptyString else EmptyString.

(** The frame id the frame reader builds:
    [f"{source_path}_{frame_count}_{timestamp}"]. *)
Definition reader_frame_id (source_path : string) (frame_count timestamp : nat) : string :=
  source_path +:+ "_" +:+ pretty frame_count +:+ "_" +:+ pretty timestamp.

(** The number of occurrences of a character. *)
Fixpoint count_char (c : ascii) (s : string) : nat :=
  match s with
  | EmptyString => 0
  | String c' s' => (if Ascii.eqb c' c then 1 else 0) + count_char c s'
  end.

(** ** Worker tracking *)

Local Open Scope Q_scope.

Inductive ActionType := CLEANING | GRABBING | IDLE | UNKNOWN.

(** An element of [hand_positions]. *)
Record HandPosition := {
  hp_position : Pos;
  hp_timestamp : string;
  hp_frame_id : string
}.

(** [WorkerTracker]; the two deques are lists with the oldest element
    first. *)
Record WorkerTracker := {
  wt_worker_id : string;
  detection_history : list Detection;
  hand_positions : list HandPosition;
  current_action : ActionType;
  last_seen : Z;
  wt_violations : list ViolationEvent
}.

(** [WorkerTracker(worker_id)], constructed at the clock reading [t]. *)
Definition new_WorkerTracker (worker_id : string) (t : Z) : WorkerTracker :=
  {| wt_worker_id := worker_id; detection_history := []; hand_positions := [];
     current_action := IDLE; last_seen := t; wt_violations := [] |}.

(** [deque(maxlen=n).append(a)] and [.extend(l)]: a full deque drops its
    oldest element. *)
Definition deque_append {A} (maxlen : nat) (q : list A) (a : A) : list A :=
  drop (length (q ++ [a]) - maxlen) (q ++ [a]).

Definition deque_extend {A} (maxlen : nat) (q : list A) (l : list A) : list A :=
  fold_left (deque_append maxlen) l q.

(** [l[-n:]]. *)
Definition last_n {A} (n : nat) (l : list A) : list A := drop (length l - n) l.

(** [pos["x"]] and [pos["y"]]; [None] is a [KeyError]. *)
Definition pos_xy (p : Pos) : option (Q * Q) :=
  px ← pos_x p; py ← pos_y p; Some (px, py).

(** The squares of the lengths of the moves between successive points. *)
Fixpoint squared_moves (pts : list (Q * Q)) : list Q :=
  match pts with
  | prev :: (curr :: _) as rest =>
      ((curr.1 - prev.1) * (curr.1 - prev.1) + (curr.2 - prev.2) * (curr.2 - prev.2))
      :: squared_moves rest
  | _ => []
  end.

(** [total_movement]: the sum of the lengths of the moves, a real number. *)
Definition total_movement (pts : list (Q * Q)) : R :=
  fold_right (fun sq acc => (sqrt (Q2R sq) + acc)%R) 0%R (squared_moves pts).

(** [direction_changes] of [_analyze_movement]: the moves that follow a
    move of more than 5 pixels along an axis and turn back on it. *)
Fixpoint direction_changes (pts : list (Q * Q)) : nat :=
  match pts with
  | prev_prev :: (prev :: (curr :: _) as rest') as rest =>
      let dir1_x := prev.1 - prev_prev.1 in
      let dir1_y := prev.2 - prev_prev.2 in
      let dir2_x := curr.1 - prev.1 in
      let dir2_y := curr.2 - prev.2 in
      ((if (Qltb 5 (Qabs dir1_x) || Qltb 5 (Qabs dir1_y))
           && Qltb (dir1_x * dir2_x + dir1_y * dir2_y) 0
        then 1 else 0)
       + direction_changes rest)%nat
  | _ => 0%nat
  end.

Definition Rleb (a b : R) : bool := if Rle_dec a b then true else false.
Definition Rltb (a b : R) : bool := if Rlt_dec a b then true else false.

(** [_analyze_movement]; [None] is the [KeyError] of a position without
    ["x"] or ["y"]. *)
Definition _analyze_movement (self : WorkerTracker) : option ActionType :=
  if (length (hand_positions self) <? 3)%nat then Some UNKNOWN
  else
    let recent_positions := last_n 5 (hand_positions self) in
    pts ← mapM (fun hp => pos_xy (hp_position hp)) recent_positions;
    let avg_movement := (total_movement pts / INR (length recent_positions))%R in
    let changes := direction_changes pts in
    if (2 <=? changes)%nat && Rleb 15 avg_movement && Rleb avg_movement 40
    then Some CLEANING
    else if Rltb avg_movement 8 then Some IDLE
    else if Rltb 12 avg_movement && (changes <=? 1)%nat then Some GRABBING
    else Some UNKNOWN.

Definition with_last_seen (t : Z) (self : WorkerTracker) : WorkerTracker :=
  {| wt_worker_id := wt_worker_id self; detection_history := detection_history self;
     hand_positions := hand_positions self; current_action := current_action self;
     last_seen := t; wt_violations := wt_violations self |}.

Definition with_hand_positions (l : list HandPosition) (self : WorkerTracker)
    : WorkerTracker :=
  {| wt_worker_id := wt_worker_id self; detection_history := detection_history self;
     hand_positions := l; current_action := current_action self;
     last_seen := last_seen self; wt_violations := wt_violations self |}.

Definition with_current_action (a : ActionType) (self : WorkerTracker) : WorkerTracker :=
  {| wt_worker_id := wt_worker_id self; detection_history := detection_history self;
     hand_positions := hand_positions self; current_action := a;
     last_seen := last_seen self; wt_violations := wt_violations self |}.

Definition with_detection_history (l : list Detection) (self : WorkerTracker)
    : WorkerTracker :=
  {| wt_worker_id := wt_worker_id self; detection_history := l;
     hand_positions := hand_positions self; current_action := current_action self;
     last_seen := last_seen self; wt_violations := wt_violations self |}.

(** How a call ended: normally, or with the [KeyError] of
    [_analyze_movement]. *)
Inductive outcome := Returned | RaisedKeyError.

(** [WorkerTracker.update]: the tracker after the call and how the call
    ended.  What was assigned before the exception stays assigned. *)
Definition update (self : WorkerTracker) (detections : list Detection) (frame_id : string)
    : M (WorkerTracker * outcome) :=
  let* t := now in
  let self := with_last_seen t self in
  let hand_detections := List.filter (fun d => String.eqb (class_name d) "hand") detections in
  match hand_detections with
  | hand :: _ =>
      let self :=
        with_hand_positions
          (deque_append 20 (hand_positions self)
             {| hp_position := center hand; hp_timestamp := timestamp hand;
                hp_frame_id := frame_id |}) self in
      match _analyze_movement self with
      | Some action =>
          let self := with_current_action action self in
          ret (with_detection_history
                 (deque_extend 50 (detection_history self) detections) self, Returned)
      | None => ret (self, RaisedKeyError)
      end
  | [] =>
      ret (with_detection_history
             (deque_extend 50 (detection_history self) detections) self, Returned)
  end.

(** [_find_associated_detections]. *)
Definition _find_associated_detections (person : Detection) (all_detections : list Detection)
    : list Detection :=
  person
  :: List.filter
       (fun detection =>
          bool_decide (class_name detection ∈ ["hand"; "scooper"]%string)
          && dist_lt_px (_calculate_distance (center person) (center detection)) 200)
       all_detections.

(** The [for i, person in enumerate(person_detections)] loop of
    [_update_workers], from index [i] on; it stops at the first exception. *)
Fixpoint update_persons (all_detections : list Detection) (frame_id : string) (i : nat)
    (persons : list Detection) (workers : gmap string WorkerTracker)
    : M (gmap string WorkerTracker * outcome) :=
  match persons with
  | [] => ret (workers, Returned)
  | person :: rest =>
      let worker_id := ("worker_" +:+ pretty i)%string in
      let* tracker :=
        match workers !! worker_id with
        | Some tracker => ret tracker
        | None => let* t := now in ret (new_WorkerTracker worker_id t)
        end in
      let associated_detections := _find_associated_detections person all_detections in
      let* updated := update tracker associated_detections frame_id in
      let workers := <[worker_id := fst updated]> workers in
      match snd updated with
      | Returned => update_persons all_detections frame_id (S i) rest workers
      | RaisedKeyError => ret (workers, RaisedKeyError)
      end
  end.

Definition _update_workers (detections : list Detection) (frame_id : string)
    (workers : gmap string WorkerTracker) : M (gmap string WorkerTracker * outcome) :=
  let person_detections :=
    List.filter (fun d => String.eqb (class_name d) "person") detections in
  let* looped := update_persons detections frame_id 0 person_detections workers in
  match snd looped with
  | Returned =>
      let* current_time := now in
      let inactive_workers :=
        stale_keys (fun worker => (seconds 30 <? current_time - last_seen worker)%Z)
                   (fst looped) in
      ret (delete_keys inactive_workers (fst looped), Returned)
  | RaisedKeyError => ret looped
  end.

(** Successive calls of [_update_workers] on the same detector, one per
    request, whether or not a call raised. *)
Fixpoint track_frames (frames : list Frame) (workers : gmap string WorkerTracker)
    : M (gmap string WorkerTracker) :=
  match frames with
  | [] => ret workers
  | f :: rest =>
      let* updated := _update_workers (fr_detections f) (fr_id f) workers in
      track_frames rest (fst updated)
  end.

(** Every recorded hand position of the tracker has both coordinates. *)
Definition positions_complete (self : WorkerTracker) : Prop :=
  Forall (fun hp => is_Some (pos_xy (hp_position hp))) (hand_positions self).

Local Open Scope Z_scope.

(** A tracker within the bounds of its two deques. *)
Definition within_bounds (self : WorkerTracker) : Prop :=
  (length (hand_positions self) <= 20)%nat ∧ (length (detection_history self) <= 50)%nat.

(** ** Hand tracking *)

Local Open Scope Q_scope.

(** [HandTracker]: positions are [(x, y)] tuples, timestamps clock
    readings. *)
Record HandTracker := {
  ht_hand_id : string;
  positions : list (Q * Q);
  timestamps : list Z;
  roi_entries : list string;
  ht_last_seen : Z
}.

(** [HandTracker.add_position]; a [roi_name] that is [None] or empty is
    not recorded. *)
Definition add_position (self : HandTracker) (x y : Q) (roi_name : option string)
    : M HandTracker :=
  let positions := positions self ++ [(x, y)] in
  let* t := now in
  let timestamps := timestamps self ++ [t] in
  let* last_seen := now in
  let roi_entries :=
    match roi_name with
    | Some roi_name =>
        if negb (String.eqb roi_name "") && negb (bool_decide (roi_name ∈ roi_entries self))
        then roi_entries self ++ [roi_name]
        else roi_entries self
    | None => roi_entries self
    end in
  if (10 <? length positions)%nat then
    ret {| ht_hand_id := ht_hand_id self; positions := last_n 10 positions;
           timestamps := last_n 10 timestamps; roi_entries := roi_entries;
           ht_last_seen := last_seen |}
  else
    ret {| ht_hand_id := ht_hand_id self; positions := positions;
           timestamps := timestamps; roi_entries := roi_entries;
           ht_last_seen := last_seen |}.

(** [HandTracker.get_movement_distance], a real number. *)
Definition get_movement_distance (self : HandTracker) : R :=
  if (length (positions self) <? 2)%nat then 0%R else total_movement (positions self).

(** The loop of [get_direction_changes]: the moves whose dot product with
    the move before is negative. *)
Fixpoint turns (pts : list (Q * Q)) : nat :=
  match pts with
  | p1 :: (p2 :: (p3 :: _) as rest') as rest =>
      let v1 := (p2.1 - p1.1, p2.2 - p1.2) in
      let v2 := (p3.1 - p2.1, p3.2 - p2.2) in
      let dot_product := v1.1 * v2.1 + v1.2 * v2.2 in
      ((if Qltb dot_product 0 then 1 else 0) + turns rest)%nat
  | _ => 0%nat
  end.

Definition get_direction_changes (self : HandTracker) : nat :=
  if (length (positions self) <? 3)%nat then 0%nat else turns (positions self).

(** [HandTracker.is_stale]. *)
Definition is_stale (self : HandTracker) (max_age_seconds : Z) : M bool :=
  let* t := now in
  ret (seconds max_age_seconds <? t - ht_last_seen self)%Z.

(** The lists of a hand tracker describe the same, at most ten, positions,
    and no ROI is entered twice. *)
Definition hand_tracker_ok (self : HandTracker) : Prop :=
  length (timestamps self) = length (positions self)
  ∧ (length (positions self) <= 10)%nat
  ∧ NoDup (roi_entries self)
  ∧ EmptyString ∉ roi_entries self.

(** Every key with a cooldown timestamp is recorded in
    [sequence_violations]. *)
Definition registries_nested (d : ViolationDetector) : Prop :=
  ∀ k, is_Some (violation_timestamps d !! k) → is_Some (sequence_violations d !! k).

(** ** Matching a detection across frames *)



(** * Properties

    ** Distances *)

Local Open Scope Q_scope.

Lemma Qltb_lt a b : Qltb a b = true ↔ a < b.
Proof.
  unfold Qltb. rewrite negb_true_iff. split.
  - intros H. apply Qnot_le_lt. intros Hle. apply Qle_bool_iff in Hle. congruence.
  - intros H. destruct (Qle_bool b a) eqn:E; [|done].
    apply Qle_bool_iff in E. exfalso; lra.
Qed.

Lemma Qltb_ge a b : Qltb a b = false ↔ b <= a.
Proof.
  unfold Qltb. rewrite negb_false_iff. apply Qle_bool_iff.
Qed.

Lemma Qle_bool_gt a b : Qle_bool a b = false ↔ b < a.
Proof.
  split.
  - intros H. apply Qnot_le_lt. intros Hle. apply Qle_bool_iff in Hle. congruence.
  - intros H. destruct (Qle_bool a b) eqn:E; [|done]. apply Qle_bool_iff in E. exfalso; lra.
Qed.









(** ** The simple classifier *)

Local Open Scope Q_scope.

Section Classifier.
Variable hand : Detection.

Let d (s : Detection) : dist := _calculate_distance (center hand) (center s).




End Classifier.



(** ** Hand/worker association *)

Local Open Scope Q_scope.

Section Association.
Variable hand : Detection.

Let d (p : Detection) : dist := _calculate_distance (center hand) (center p).

End Association.




(** ** Ray casting *)

Local Open Scope Q_scope.

Lemma Qle_bool_proper a b c d : a == c → b == d → Qle_bool a b = Qle_bool c d.
Proof.
  intros H1 H2. apply eq_true_iff_eq. rewrite !Qle_bool_iff. by rewrite H1, H2.
Qed.

Lemma Qeq_bool_false a b : Qeq_bool a b = false ↔ ¬ a == b.
Proof.
  split.
  - intros H He. apply Qeq_bool_iff in He. congruence.
  - intros H. destruct (Qeq_bool a b) eqn:E; [|done]. apply Qeq_bool_iff in E. done.
Qed.

(** An edge that spans the ordinate is not horizontal, and the point where
    it meets the line lies between its ends. *)
Lemma spans_not_flat (py ay b_y : Q) :
  Qmin ay b_y < py → py <= Qmax ay b_y → ¬ ay == b_y.
Proof.
  intros H1 H2 He.
  destruct (Q.min_spec ay b_y) as [[? Hm]|[? Hm]], (Q.max_spec ay b_y) as [[? HM]|[? HM]];
    rewrite Hm in H1; rewrite HM in H2; lra.
Qed.

Lemma x_at_le_max (py : Q) (a b : Q * Q) :
  Qmin a.2 b.2 < py → py <= Qmax a.2 b.2 → x_at py a b <= Qmax a.1 b.1.
Proof.
  destruct a as [ax ay], b as [bx b_y]. unfold x_at. cbn [fst snd]. intros H1 H2.
  assert (Hne := spans_not_flat _ _ _ H1 H2).
  set (t := (py - ay) / (b_y - ay)).
  assert (Ht : (py - ay) * (bx - ax) / (b_y - ay) == t * (bx - ax)).
  { unfold t. field. lra. }
  rewrite Ht.
  assert (Htd : t * (b_y - ay) == py - ay).
  { unfold t. field. lra. }
  assert (H01 : 0 <= t ∧ t <= 1).
  { destruct (Q.min_spec ay b_y) as [[Hlt Hm]|[Hlt Hm]], (Q.max_spec ay b_y) as [[? HM]|[? HM]];
      rewrite Hm in H1; rewrite HM in H2; try (exfalso; lra).
    - assert (0 < b_y - ay) by lra. split.
      + unfold t. apply Qle_shift_div_l; lra.
      + unfold t. apply Qle_shift_div_r; lra.
    - assert (Hn : b_y - ay < 0) by lra. split; apply Qnot_lt_le; intros Hc.
      + assert (0 < (- t) * (ay - b_y)); [apply Qmult_lt_0_compat; lra|lra].
      + assert (0 < (t - 1) * (ay - b_y)); [apply Qmult_lt_0_compat; lra|lra]. }
  destruct H01 as [H0 H1'].
  destruct (Q.max_spec ax bx) as [[Hlt HM]|[Hlt HM]]; rewrite HM.
  - assert (0 <= (1 - t) * (bx - ax)); [apply Qmult_le_0_compat; lra|lra].
  - assert (0 <= t * (ax - bx)); [apply Qmult_le_0_compat; lra|lra].
Qed.

Lemma pip_step_crosses px py s (b : Q * Q) :
  ∃ s', pip_step px py s (to_pos b) = Some s'
        ∧ inside s' = xorb (inside s) (crosses px py ((p1x s, p1y s), b))
        ∧ p1x s' = b.1 ∧ p1y s' = b.2.
Proof.
  destruct b as [bx b_y]. unfold pip_step, crosses, to_pos, at_xy. cbn.
  destruct (Qltb (Qmin (p1y s) b_y) py) eqn:E1; cbn;
    [|eexists; split; [reflexivity|]; cbn; by rewrite xorb_false_r].
  destruct (Qle_bool py (Qmax (p1y s) b_y)) eqn:E2; cbn;
    [|eexists; split; [reflexivity|]; cbn; by rewrite xorb_false_r].
  apply Qltb_lt in E1. apply Qle_bool_iff in E2.
  assert (Hne := spans_not_flat _ _ _ E1 E2).
  assert (Hmax := x_at_le_max py (p1x s, p1y s) (bx, b_y) E1 E2). cbn in Hmax.
  destruct (Qle_bool px (Qmax (p1x s) bx)) eqn:E3; cbn.
  - apply Qeq_bool_false in Hne. rewrite Hne. cbn.
    apply Qle_bool_iff in E3. apply Qeq_bool_false in Hne.
    destruct (Qeq_bool (p1x s) bx) eqn:E4; cbn.
    + eexists; split; [reflexivity|]. cbn. split; [|done].
      apply Qeq_bool_iff in E4.
      assert (Hx : x_at py (p1x s, p1y s) (bx, b_y) == p1x s).
      { unfold x_at. cbn. setoid_replace (bx - p1x s) with 0 using relation Qeq by lra.
        field. lra. }
      assert (Hle : Qle_bool px (x_at py (p1x s, p1y s) (bx, b_y)) = true).
      { apply Qle_bool_iff. rewrite Hx.
        destruct (Q.max_spec (p1x s) bx) as [[? HM]|[? HM]]; rewrite HM in E3; lra. }
      rewrite Hle. by destruct (inside s).
    + eexists; split; [reflexivity|]. cbn. split; [|done].
      rewrite (Qle_bool_proper px _ px (x_at py (p1x s, p1y s) (bx, b_y)));
        [by destruct (inside s), (Qle_bool _ _)|reflexivity|].
      unfold x_at. cbn. field. lra.
  - eexists; split; [reflexivity|]. cbn. split; [|done].
    apply Qle_bool_gt in E3.
    assert (Hle : Qle_bool px (x_at py (p1x s, p1y s) (bx, b_y)) = false)
      by (apply Qle_bool_gt; lra).
    rewrite Hle. by rewrite xorb_false_r.
Qed.

Lemma pip_loop_parity px py vs s :
  ∃ s', pip_loop px py s (map to_pos vs) = Some s'
        ∧ inside s' =
            xorb (inside s)
                 (Nat.odd (length (List.filter (crosses px py)
                                               (pairs_from (p1x s, p1y s) vs)))).
Proof.
  revert s. induction vs as [|b vs IH]; intros s; cbn [map pip_loop pairs_from].
  - exists s. split; [done|]. cbn. by rewrite xorb_false_r.
  - destruct (pip_step_crosses px py s b) as (s1 & Hs1 & Hin & Hx & Hy).
    rewrite Hs1. cbn [mbind option_bind].
    destruct (IH s1) as (s' & Hs' & Hin'). exists s'. split; [done|].
    rewrite Hin', Hin, Hx, Hy. destruct b as [bx b_y]. cbn [fst snd List.filter].
    destruct (crosses px py (p1x s, p1y s, (bx, b_y))); cbn [length].
    + generalize (length (List.filter (crosses px py) (pairs_from (bx, b_y) vs))).
      intros n. rewrite Nat.odd_succ, <- Nat.negb_odd.
      destruct (inside s), (Nat.odd n); reflexivity.
    + by rewrite xorb_false_r.
Qed.

(** The loop of [_point_in_polygon] computes the even-odd rule. *)
Lemma point_in_polygon_even_odd px py (vs : list (Q * Q)) :
  _point_in_polygon px py (map to_pos vs) = even_odd px py vs.
Proof.
  destruct vs as [|[x0 y0] rest]; [done|].
  unfold even_odd, edges.
  change (_point_in_polygon px py (map to_pos ((x0, y0) :: rest)))
    with (match pip_loop px py {| inside := false; p1x := x0; p1y := y0; xinters := None |}
                  (map to_pos rest ++ map to_pos [(x0, y0)])
          with Some s => inside s | None => false end).
  rewrite <- map_app.
  destruct (pip_loop_parity px py (rest ++ [(x0, y0)])
              {| inside := false; p1x := x0; p1y := y0; xinters := None |})
    as (s' & Hs' & Hin).
  rewrite Hs'. rewrite Hin. done.
Qed.

(** ** ROI containment *)

Local Open Scope Q_scope.

Lemma crosses_spec px py (a b : Q * Q) :
  crosses px py (a, b) = true
  ↔ Qmin a.2 b.2 < py ∧ py <= Qmax a.2 b.2 ∧ px <= x_at py a b.
Proof.
  unfold crosses. cbn [fst snd].
  rewrite !andb_true_iff, Qltb_lt, !Qle_bool_iff. tauto.
Qed.

Lemma crosses_horizontal px py x1 x2 yv : crosses px py ((x1, yv), (x2, yv)) = false.
Proof.
  destruct (crosses _ _ _) eqn:E; [|done]. apply crosses_spec in E as (H1 & H2 & _).
  cbn in H1, H2. exfalso. by apply (spans_not_flat _ _ _ H1 H2).
Qed.

Lemma crosses_vertical px py xv y1 y2 :
  crosses px py ((xv, y1), (xv, y2)) = true
  ↔ Qmin y1 y2 < py ∧ py <= Qmax y1 y2 ∧ px <= xv.
Proof.
  rewrite crosses_spec. cbn [fst snd]. split; intros (H1 & H2 & H3).
  - split; [done|]. split; [done|].
    assert (Hne := spans_not_flat _ _ _ H1 H2).
    assert (Hx : x_at py (xv, y1) (xv, y2) == xv) by (unfold x_at; cbn; field; lra).
    by rewrite Hx in H3.
  - split; [done|]. split; [done|].
    assert (Hne := spans_not_flat _ _ _ H1 H2).
    assert (Hx : x_at py (xv, y1) (xv, y2) == xv) by (unfold x_at; cbn; field; lra).
    by rewrite Hx.
Qed.

(** ** Rectangles as polygons *)

Local Open Scope Q_scope.

Lemma even_odd_corners px py rx ry w h :
  0 <= w → 0 <= h →
  even_odd px py (corners rx ry w h) = true
  ↔ (rx < px ∧ px <= rx + w) ∧ (ry < py ∧ py <= ry + h).
Proof.
  intros Hw Hh. unfold even_odd, corners, edges. cbn [app pairs_from List.filter].
  rewrite !crosses_horizontal.
  assert (Hmin : Qmin ry (ry + h) == ry)
    by (destruct (Q.min_spec ry (ry + h)) as [[? E]|[? E]]; rewrite E; lra).
  assert (Hmax : Qmax ry (ry + h) == ry + h)
    by (destruct (Q.max_spec ry (ry + h)) as [[? E]|[? E]]; rewrite E; lra).
  assert (Hmin' : Qmin (ry + h) ry == ry) by (rewrite Q.min_comm; exact Hmin).
  assert (Hmax' : Qmax (ry + h) ry == ry + h) by (rewrite Q.max_comm; exact Hmax).
  destruct (crosses px py (rx + w, ry, (rx + w, ry + h))) eqn:E2;
    destruct (crosses px py (rx, ry + h, (rx, ry))) eqn:E4; cbn [length Nat.odd negb].
  - apply crosses_vertical in E2 as (A1 & A2 & A3). apply crosses_vertical in E4 as (B1 & B2 & B3).
    split; [done|]. intros. exfalso. lra.
  - apply crosses_vertical in E2 as (A1 & A2 & A3).
    rewrite Hmin in A1. rewrite Hmax in A2.
    split; [intros _|done]. split; [|done]. split; [|done].
    apply Qnot_le_lt. intros Hle.
    assert (crosses px py (rx, ry + h, (rx, ry)) = true); [|congruence].
    apply crosses_vertical. rewrite Hmin', Hmax'. done.
  - exfalso. apply crosses_vertical in E4 as (B1 & B2 & B3).
    rewrite Hmin' in B1. rewrite Hmax' in B2.
    assert (crosses px py (rx + w, ry, (rx + w, ry + h)) = true); [|congruence].
    apply crosses_vertical. rewrite Hmin, Hmax. repeat split; lra.
  - split; [done|]. intros [[H1 H2] [H3 H4]].
    assert (crosses px py (rx + w, ry, (rx + w, ry + h)) = true); [|congruence].
    apply crosses_vertical. rewrite Hmin, Hmax. done.
Qed.

(** Claim C7, as the code has it.  For a rectangle of non-negative width
    and height, the ray-casting test on its four corners accepts exactly the
    points that the rectangle test accepts and that lie neither on the line
    [x = roi.x] nor on the line [y = roi.y]. *)
Theorem rectangle_polygon_agreement (detection : Detection) (rx ry w h : Q) :
  0 <= w → 0 <= h →
  _is_in_roi detection (polygon_roi (corners rx ry w h))
  = _is_in_roi detection (rectangle_roi rx ry w h)
    && negb (Qeq_bool (default 0 (pos_x (center detection))) rx)
    && negb (Qeq_bool (default 0 (pos_y (center detection))) ry).
Proof.
  intros Hw Hh. unfold _is_in_roi. destruct (decide (bbox detection = ∅)); [done|].
  set (cx := default 0 (pos_x (center detection))).
  set (cy := default 0 (pos_y (center detection))).
  change (match (shape (polygon_roi (corners rx ry w h)) =? "rectangle")%string,
                x (polygon_roi (corners rx ry w h)), y (polygon_roi (corners rx ry w h)) with
          | true, Some rx0, Some ry0 =>
              Qle_bool rx0 cx && Qle_bool cx (rx0 + default 0 (width (polygon_roi (corners rx ry w h))))
              && Qle_bool ry0 cy && Qle_bool cy (ry0 + default 0 (height (polygon_roi (corners rx ry w h))))
          | _, _, _ =>
              match (shape (polygon_roi (corners rx ry w h)) =? "polygon")%string,
                    points (polygon_roi (corners rx ry w h)) with
              | true, Some (p :: ps) => _point_in_polygon cx cy (p :: ps)
              | _, _ => false
              end
          end)
    with (_point_in_polygon cx cy (map to_pos (corners rx ry w h))).
  rewrite point_in_polygon_even_odd.
  change (match (shape (rectangle_roi rx ry w h) =? "rectangle")%string,
                x (rectangle_roi rx ry w h), y (rectangle_roi rx ry w h) with
          | true, Some rx0, Some ry0 =>
              Qle_bool rx0 cx && Qle_bool cx (rx0 + default 0 (width (rectangle_roi rx ry w h)))
              && Qle_bool ry0 cy && Qle_bool cy (ry0 + default 0 (height (rectangle_roi rx ry w h)))
          | _, _, _ =>
              match (shape (rectangle_roi rx ry w h) =? "polygon")%string,
                    points (rectangle_roi rx ry w h) with
              | true, Some (p :: ps) => _point_in_polygon cx cy (p :: ps)
              | _, _ => false
              end
          end)
    with (Qle_bool rx cx && Qle_bool cx (rx + w) && Qle_bool ry cy && Qle_bool cy (ry + h)).
  apply eq_true_iff_eq.
  rewrite (even_odd_corners cx cy rx ry w h Hw Hh).
  rewrite !andb_true_iff, !negb_true_iff, !Qle_bool_iff, !Qeq_bool_false.
  split.
  - intros [[H1 H2] [H3 H4]]. repeat split; try lra; intros He; lra.
  - intros [[[[[H1 H2] H3] H4] H5] H6]. repeat split; lra.
Qed.

(** ** The steps of the pipeline *)

Local Open Scope Z_scope.

Section PairStep.
Variables (allow_nearby : bool) (scoopers : list Detection) (fid : string)
          (i : nat) (hand : Detection) (aw : option nat) (roi : ROI).

Let key := pair_key i aw roi.
Let uses := _is_hand_using_scooper_simple allow_nearby hand scoopers.
Let pair := process_hand_roi allow_nearby scoopers fid i hand aw roi.

Lemma pair_continue w seq :
  in_scooper_roi hand roi = true →
  active_sequences (self w) !! key = Some seq →
  pair w =
    (Val tt,
     {| self := with_active_sequences
                  (<[key := add_frame seq fid (center hand) uses
                              (_get_closest_scooper_distance hand scoopers)]>
                     (active_sequences (self w))) (self w);
        violations := violations w; emitted := emitted w;
        clock := clock w; reads := reads w |}).
Proof.
  intros Hin Hact. unfold pair, process_hand_roi.
  unfold in_scooper_roi in Hin. rewrite Hin.
  unfold bind, get_self at 1. cbn.
  fold (pair_key i aw roi). fold key. rewrite Hact.
  unfold ret, _update_roi_sequence, bind, get_self. cbn.
  fold (pair_key i aw roi). fold key. rewrite Hact. reflexivity.
Qed.

(** What an iteration that opens a sequence does. *)
Lemma pair_entry w :
  in_scooper_roi hand roi = true →
  active_sequences (self w) !! key = None →
  ∃ w' seq,
    pair w = (Val tt, w')
    ∧ clock w' = clock w
    ∧ completed_sequences (self w') = completed_sequences (self w)
    ∧ sequence_violations (self w') = sequence_violations (self w)
    ∧ violation_timestamps (self w') = violation_timestamps (self w)
    ∧ active_sequences (self w') = <[key := seq]> (active_sequences (self w))
    ∧ if should_create_at (self w) (clock w (reads w)) key uses then
        ∃ ev,
          let em := {| em_key := key; em_hand := hand; em_event := ev |} in
          emitted w' = emitted w ++ [em]
          ∧ violations w' = violations w ++ [em]
          ∧ violation_type ev = HAND_WITHOUT_SCOOPER
          ∧ severity ev = "high"%string
          ∧ ev_confidence ev = confidence hand
          ∧ ev_frame_id ev = fid
          ∧ ev_timestamp ev = clock w (S (reads w))
          ∧ entry_time seq = clock w (S (S (reads w)))
          ∧ reads w' = S (S (S (reads w)))
          ∧ violation_count (self w') = S (violation_count (self w))
      else
        emitted w' = emitted w
        ∧ violations w' = violations w
        ∧ entry_time seq = clock w (S (reads w))
        ∧ reads w' = S (S (reads w))
        ∧ violation_count (self w') = violation_count (self w).
Proof.
  intros Hin Hact. unfold pair, process_hand_roi.
  unfold in_scooper_roi in Hin. rewrite Hin.
  unfold bind, get_self at 1. cbn.
  fold (pair_key i aw roi). fold key. rewrite Hact.
  unfold _should_create_sequence_violation, bind, now, get_self, ret. cbn.
  fold (pair_key i aw roi). fold key. fold uses.
  destruct (should_create_at (self w) (clock w (reads w)) key uses) eqn:Hneed.
  - unfold try_except, create_sequence_violation, _create_violation, bind, modify_self,
      get_self, set_self, now, ret, append_violation, getattr_str, raise,
      _update_roi_sequence, new_ROISequence. cbn.
    fold (pair_key i aw roi). fold key. rewrite Hact. cbn.
    eexists _, _. split; [reflexivity|]. cbn.
    repeat (split; [reflexivity|]).
    eexists. cbn. repeat (split; [reflexivity|]). reflexivity.
  - unfold _update_roi_sequence, new_ROISequence, bind, modify_self,
      get_self, set_self, now, ret. cbn.
    fold (pair_key i aw roi). fold key. rewrite Hact. cbn.
    eexists _, _. split; [reflexivity|]. cbn.
    repeat (split; [reflexivity|]). reflexivity.
Qed.

(** What an iteration for a hand outside the ROI does. *)
Lemma pair_exit w :
  in_scooper_roi hand roi = false →
  match active_sequences (self w) !! key with
  | None => pair w = (Val tt, w)
  | Some seq =>
      ∃ w' seq',
        pair w = (Val tt, w')
        ∧ clock w' = clock w
        ∧ reads w' = S (reads w)
        ∧ emitted w' = emitted w
        ∧ violations w' = violations w
        ∧ violation_count (self w') = violation_count (self w)
        ∧ completed_sequences (self w') = completed_sequences (self w) ++ [seq']
        ∧ active_sequences (self w') = delete key (active_sequences (self w))
        ∧ sequence_violations (self w') = delete key (sequence_violations (self w))
        ∧ violation_timestamps (self w') = delete key (violation_timestamps (self w))
  end.
Proof.
  intros Hin. unfold pair, process_hand_roi.
  unfold in_scooper_roi in Hin. rewrite Hin.
  unfold _check_sequence_completion, bind, get_self at 1. cbn.
  fold (pair_key i aw roi). fold key.
  destruct (active_sequences (self w) !! key) as [seq|] eqn:Hact; [|reflexivity].
  unfold complete_sequence, bind, modify_self, get_self, set_self, now, ret. cbn.
  fold (pair_key i aw roi). fold key.
  destruct (sequence_violations (self w) !! key) eqn:E; cbn;
    destruct (violation_timestamps (self w) !! key) eqn:E'; cbn;
    (eexists _, _; split; [reflexivity|]; cbn;
     repeat split; try reflexivity; symmetry; by apply delete_id).
Qed.
End PairStep.

(** ** The janitors *)

Lemma delete_keys_lookup {V} (keys : list string) (m : gmap string V) (k : string) :
  delete_keys keys m !! k = if decide (k ∈ keys) then None else m !! k.
Proof.
  unfold delete_keys. revert m. induction keys as [|k0 keys IH]; intros m; cbn [fold_left].
  - rewrite decide_False; [done|]. apply not_elem_of_nil.
  - rewrite IH. destruct (decide (k ∈ keys)) as [Hin|Hnin].
    + rewrite decide_True; [done|]. by apply elem_of_cons; right.
    + destruct (decide (k = k0)) as [->|Hne].
      * rewrite decide_True by (apply elem_of_cons; by left). apply lookup_delete_eq.
      * rewrite decide_False; [by apply lookup_delete_ne|].
        intros [?|?]%elem_of_cons; done.
Qed.

Lemma stale_keys_elem {V} (stale : V → bool) (m : gmap string V) (k : string) :
  k ∈ stale_keys stale m ↔ ∃ v, m !! k = Some v ∧ stale v = true.
Proof.
  unfold stale_keys. rewrite list_elem_of_fmap. split.
  - intros ([k' v] & -> & Hkv). apply elem_of_map_to_list in Hkv.
    apply map_lookup_filter_Some in Hkv as [Hm Hs]. by exists v.
  - intros (v & Hm & Hs). exists (k, v). split; [done|].
    apply elem_of_map_to_list. by apply map_lookup_filter_Some.
Qed.

Lemma janitor_lookup {V} (stale : V → bool) (m : gmap string V) (k : string) :
  delete_keys (stale_keys stale m) m !! k
  = match m !! k with
    | Some v => if stale v then None else Some v
    | None => None
    end.
Proof.
  rewrite delete_keys_lookup. destruct (decide (k ∈ stale_keys stale m)) as [Hin|Hnin].
  - apply stale_keys_elem in Hin as (v & -> & ->). done.
  - destruct (m !! k) as [v|] eqn:E; [|done].
    destruct (stale v) eqn:Es; [|done].
    exfalso. apply Hnin. apply stale_keys_elem. by exists v.
Qed.

Lemma cleanup_sequences_spec w :
  ∃ w',
    _cleanup_old_sequences w = (Val tt, w')
    ∧ clock w' = clock w
    ∧ reads w' = S (reads w)
    ∧ emitted w' = emitted w
    ∧ violations w' = violations w
    ∧ violation_count (self w') = violation_count (self w)
    ∧ sequence_violations (self w') = sequence_violations (self w)
    ∧ violation_timestamps (self w') = violation_timestamps (self w)
    ∧ completed_sequences (self w')
      = (if (50 <? length (completed_sequences (self w)))%nat
         then drop (length (completed_sequences (self w)) - 50) (completed_sequences (self w))
         else completed_sequences (self w))
    ∧ ∀ k, active_sequences (self w') !! k
           = match active_sequences (self w) !! k with
             | Some s => if seconds 30 <? clock w (reads w) - entry_time s then None else Some s
             | None => None
             end.
Proof.
  unfold _cleanup_old_sequences, bind, modify_self, get_self, set_self, now, ret.
  cbn -[Nat.ltb Nat.sub drop Z.ltb seconds].
  eexists. split; [reflexivity|]. cbn -[Nat.ltb Nat.sub drop Z.ltb seconds].
  destruct (50 <? length (completed_sequences (self w)))%nat;
    cbn -[Nat.ltb Nat.sub drop Z.ltb seconds];
    repeat (match goal with |- _ ∧ _ => split; [reflexivity|] end);
    intros k; apply janitor_lookup.
Qed.

Lemma cleanup_timestamps_spec w :
  ∃ w',
    _cleanup_old_violation_timestamps w = (Val tt, w')
    ∧ clock w' = clock w
    ∧ reads w' = S (reads w)
    ∧ emitted w' = emitted w
    ∧ violations w' = violations w
    ∧ violation_count (self w') = violation_count (self w)
    ∧ sequence_violations (self w') = sequence_violations (self w)
    ∧ active_sequences (self w') = active_sequences (self w)
    ∧ completed_sequences (self w') = completed_sequences (self w)
    ∧ ∀ k, violation_timestamps (self w') !! k
           = match violation_timestamps (self w) !! k with
             | Some t => if seconds 60 <? clock w (reads w) - t then None else Some t
             | None => None
             end.
Proof.
  unfold _cleanup_old_violation_timestamps, bind, modify_self, get_self, set_self, now, ret.
  cbn -[Z.ltb seconds]. eexists. split; [reflexivity|]. cbn -[Z.ltb seconds].
  repeat (match goal with |- _ ∧ _ => split; [reflexivity|] end).
  intros k. apply janitor_lookup.
Qed.

(** ** One violation per sequence *)

Local Open Scope Z_scope.

(** Case analysis on a step: the start of a call, a continuing frame, an
    entry, an exit, and the two janitors. *)
Ltac step_cases s w :=
  let a := fresh "allow" in let sc := fresh "scoopers" in let f := fresh "fid" in
  let i := fresh "i" in let h := fresh "hand" in let aw := fresh "aw" in
  let r := fresh "roi" in let Hin := fresh "Hin" in let Hact := fresh "Hact" in
  let seq := fresh "seq" in
  destruct s as [|a sc f i h aw r| |];
  [ idtac
  | destruct (in_scooper_roi h r) eqn:Hin;
    [ destruct (active_sequences (self w) !! pair_key i aw r) as [seq|] eqn:Hact;
      [ pose proof (pair_continue a sc f i h aw r w seq Hin Hact)
      | pose proof (pair_entry a sc f i h aw r w Hin Hact) ]
    | pose proof (pair_exit a sc f i h aw r w Hin) ]
  | pose proof (cleanup_sequences_spec w)
  | pose proof (cleanup_timestamps_spec w) ].

Lemma after_eq {A} (m : M A) w r w' : m w = (r, w') → after m w = w'.
Proof. unfold after. by intros ->. Qed.

Lemma events_for_app k w w' new :
  emitted w' = emitted w ++ new →
  events_for k w' = events_for k w ++ List.filter (fun e => String.eqb (em_key e) k) new.
Proof. unfold events_for. intros ->. apply List.filter_app. Qed.

Lemma events_for_same k w w' : emitted w' = emitted w → events_for k w' = events_for k w.
Proof. unfold events_for. by intros ->. Qed.

(** A step never raises, and keeps the clock. *)
Lemma run_step_total s w : run_step s w = (Val tt, after (run_step s) w).
Proof.
  unfold after. step_cases s w; cbn [run_step].
  - reflexivity.
  - by rewrite H.
  - destruct H as (w' & seq & -> & _). done.
  - destruct (active_sequences (self w) !! pair_key i aw roi).
    + destruct H as (w' & seq' & -> & _). done.
    + by rewrite H.
  - destruct H as (w' & -> & _). done.
  - destruct H as (w' & -> & _). done.
Qed.

Lemma run_step_clock s w : clock (after (run_step s) w) = clock w.
Proof.
  unfold after. step_cases s w; cbn [run_step].
  - reflexivity.
  - by rewrite H.
  - destruct H as (w' & seq & -> & Hc & _). done.
  - destruct (active_sequences (self w) !! pair_key i aw roi).
    + destruct H as (w' & seq' & -> & Hc & _). done.
    + by rewrite H.
  - destruct H as (w' & -> & Hc & _). done.
  - destruct H as (w' & -> & Hc & _). done.
Qed.

(** A step appends at most one event, and only when it opens a sequence. *)
Lemma run_step_emitted s w :
  emitted (after (run_step s) w) = emitted w
  ∨ ∃ allow scoopers fid i hand aw roi ev,
      s = StepPair allow scoopers fid i hand aw roi
      ∧ in_scooper_roi hand roi = true
      ∧ active_sequences (self w) !! pair_key i aw roi = None
      ∧ should_create_at (self w) (clock w (reads w)) (pair_key i aw roi)
          (_is_hand_using_scooper_simple allow hand scoopers) = true
      ∧ emitted (after (run_step s) w)
        = emitted w ++ [{| em_key := pair_key i aw roi; em_hand := hand; em_event := ev |}]
      ∧ violations (after (run_step s) w)
        = violations w ++ [{| em_key := pair_key i aw roi; em_hand := hand; em_event := ev |}]
      ∧ violation_type ev = HAND_WITHOUT_SCOOPER
      ∧ severity ev = "high"%string
      ∧ ev_confidence ev = confidence hand
      ∧ ev_timestamp ev = clock w (S (reads w)).
Proof.
  unfold after. step_cases s w; cbn [run_step].
  - by left.
  - left. by rewrite H.
  - destruct H as (w' & seq & -> & _ & _ & _ & _ & _ & H). cbn [snd].
    destruct (should_create_at _ _ _ _) eqn:Hneed.
    + destruct H as (ev & He & Hv & Ht & Hs & Hc & _ & Hts & _).
      right. exists allow, scoopers, fid, i, hand, aw, roi, ev. done.
    + left. by destruct H as (-> & _).
  - left. destruct (active_sequences (self w) !! pair_key i aw roi).
    + destruct H as (w' & seq' & -> & _ & _ & He & _). done.
    + by rewrite H.
  - left. destruct H as (w' & -> & _ & _ & He & _). done.
  - left. destruct H as (w' & -> & _ & _ & He & _). done.
Qed.

(** While a sequence is open for [k], no step emits an event under [k]. *)
Lemma open_no_event k s w :
  is_open k w → events_for k (after (run_step s) w) = events_for k w.
Proof.
  intros [seq Hopen].
  destruct (run_step_emitted s w)
    as [He|(a & sc & f & i & h & aw & r & ev & -> & Hin & Hact & Hneed & He & _)].
  - by apply events_for_same.
  - rewrite (events_for_app _ _ _ _ He). cbn [List.filter em_key].
    destruct (String.eqb_spec (pair_key i aw r) k) as [<-|Hne]; [congruence|].
    by rewrite app_nil_r.
Qed.

(** While [sequence_violations] records [k], no step emits an event under [k]. *)
Lemma recorded_no_event k s w :
  is_Some (sequence_violations (self w) !! k) →
  events_for k (after (run_step s) w) = events_for k w.
Proof.
  intros [v Hrec].
  destruct (run_step_emitted s w)
    as [He|(a & sc & f & i & h & aw & r & ev & -> & Hin & Hact & Hneed & He & _)].
  - by apply events_for_same.
  - rewrite (events_for_app _ _ _ _ He). cbn [List.filter em_key].
    destruct (String.eqb_spec (pair_key i aw r) k) as [<-|Hne].
    + unfold should_create_at in Hneed. by rewrite Hrec in Hneed.
    + by rewrite app_nil_r.
Qed.

Lemma stays_open_no_event k ss w :
  is_open k w → stays_open k ss w → events_for k (run_steps ss w) = events_for k w.
Proof.
  revert w. induction ss as [|s ss IH]; intros w Hopen Hstay; cbn [run_steps]; [done|].
  destruct Hstay as [Hopen' Hstay]. rewrite IH by done. by apply open_no_event.
Qed.

Lemma step_at_most_one k s w :
  (length (events_for k (after (run_step s) w)) <= length (events_for k w) + 1)%nat.
Proof.
  destruct (run_step_emitted s w)
    as [He|(a & sc & f & i & h & aw & r & ev & -> & Hin & Hact & Hneed & He & _)].
  - rewrite (events_for_same _ _ _ He). lia.
  - rewrite (events_for_app _ _ _ _ He). rewrite length_app. cbn [List.filter].
    destruct (String.eqb _ _); cbn; lia.
Qed.

Lemma stays_open_end k ss w :
  is_open k w → stays_open k ss w → is_open k (run_steps ss w).
Proof.
  revert w. induction ss as [|s ss IH]; intros w Hopen Hstay; cbn [run_steps]; [done|].
  destruct Hstay as [Hopen' Hstay]. by apply IH.
Qed.

(** Claim C2.  From the step that opens a sequence for [k] and as long as
    the sequence stays open, its closing step included, at most one event is
    emitted under [k]; while [sequence_violations] records [k], and while a
    sequence is open for [k], no step emits an event under [k]. *)
Theorem one_violation_per_sequence (k : string) (w : World) (s : step) (ss : list step) :
  (¬ is_open k w → stays_open k (s :: ss) w →
   ∀ s', (length (events_for k (after (run_step s') (run_steps (s :: ss) w)))
          <= length (events_for k w) + 1)%nat)
  ∧ (is_Some (sequence_violations (self w) !! k) →
     events_for k (after (run_step s) w) = events_for k w)
  ∧ (is_open k w → events_for k (after (run_step s) w) = events_for k w).
Proof.
  split; [|split].
  - intros _ [Hopen Hstay] s'. cbn [run_steps].
    rewrite (open_no_event k s' _ (stays_open_end k ss _ Hopen Hstay)).
    rewrite (stays_open_no_event k ss _ Hopen Hstay). apply step_at_most_one.
  - apply recorded_no_event.
  - apply open_no_event.
Qed.

(** Claim C3.  When the hand is using a scooper in the frame that opens
    its sequence, no event is emitted under the sequence's key as long as the
    sequence stays open, the closing step included, whatever the later
    frames show; a continuing frame does not run the arbiter: it reads no
    clock, creates no violation and emits nothing. *)
Theorem scooper_at_entry_no_violation
    (allow_nearby : bool) (scoopers : list Detection) (fid : string) (i : nat)
    (hand : Detection) (aw : option nat) (roi : ROI) (w : World) (ss : list step) :
  let k := pair_key i aw roi in
  let entry := StepPair allow_nearby scoopers fid i hand aw roi in
  in_scooper_roi hand roi = true →
  (¬ is_open k w →
   _is_hand_using_scooper_simple allow_nearby hand scoopers = true →
   stays_open k ss (after (run_step entry) w) →
   is_open k (after (run_step entry) w)
   ∧ events_for k (run_steps (entry :: ss) w) = events_for k w
   ∧ ∀ s', events_for k (after (run_step s') (run_steps (entry :: ss) w)) = events_for k w)
  ∧ (is_open k w →
     emitted (after (run_step entry) w) = emitted w
     ∧ reads (after (run_step entry) w) = reads w
     ∧ violation_count (self (after (run_step entry) w)) = violation_count (self w)).
Proof.
  intros k entry Hin. split.
  - intros Hclosed Huses Hstay.
    assert (Hnone : active_sequences (self w) !! k = None).
    { destruct (active_sequences (self w) !! k) eqn:E; [|done]. exfalso. apply Hclosed. by eexists. }
    destruct (pair_entry allow_nearby scoopers fid i hand aw roi w Hin Hnone)
      as (w' & seq & Hrun & _ & _ & _ & _ & Hact & Hcase).
    assert (Hafter : after (run_step entry) w = w') by (by apply (after_eq _ _ _ _ Hrun)).
    assert (Hopen : is_open k w').
    { unfold is_open. rewrite Hact. fold k. rewrite lookup_insert_eq. by eexists. }
    rewrite Hafter in Hstay |- *. split; [done|].
    cbn [run_steps]. rewrite Hafter.
    assert (Hno : should_create_at (self w) (clock w (reads w)) k
                    (_is_hand_using_scooper_simple allow_nearby hand scoopers) = false).
    { unfold should_create_at. rewrite Huses.
      destruct (sequence_violations (self w) !! k); [done|].
      by destruct (match violation_timestamps (self w) !! k with Some _ => _ | None => _ end). }
    fold k in Hcase. rewrite Hno in Hcase. destruct Hcase as (He & _).
    assert (Hsame : events_for k (run_steps ss w') = events_for k w).
    { rewrite (stays_open_no_event k ss w' Hopen Hstay). by apply events_for_same. }
    split; [done|]. intros s'.
    rewrite (open_no_event k s' _ (stays_open_end k ss _ Hopen Hstay)). done.
  - intros [seq Hopen].
    assert (Hrun := pair_continue allow_nearby scoopers fid i hand aw roi w seq Hin Hopen).
    assert (Hafter : after (run_step entry) w = _) by (by apply (after_eq _ _ _ _ Hrun)).
    rewrite Hafter. done.
Qed.

(** ** Analysis calls as runs of steps *)

Local Open Scope Z_scope.

Lemma run_steps_app ss1 ss2 w : run_steps (ss1 ++ ss2) w = run_steps ss2 (run_steps ss1 w).
Proof. revert w. induction ss1 as [|s ss1 IH]; intros w; cbn [app run_steps]; [done|apply IH]. Qed.

Lemma bind_val {A B} (m : M A) (k : A → M B) w a w' :
  m w = (Val a, w') → bind m k w = k a w'.
Proof. unfold bind. by intros ->. Qed.

Lemma for_each_steps {A} (l : list A) (mk : A → step) (start : nat) w :
  for_enumerate start l (fun _ a => run_step (mk a)) w = (Val tt, run_steps (map mk l) w).
Proof.
  revert start w. induction l as [|a l IH]; intros start w; cbn [for_enumerate map run_steps].
  - reflexivity.
  - rewrite (bind_val _ _ _ _ _ (run_step_total (mk a) w)). apply IH.
Qed.

Lemma hands_loop_steps allow scoopers fid assoc rois start hands w :
  for_enumerate start hands (fun i hand =>
    let associated_worker := assoc !! i in
    for_each rois (fun roi =>
      process_hand_roi allow scoopers fid i hand associated_worker roi)) w
  = (Val tt, run_steps (hand_steps allow scoopers fid assoc rois start hands) w).
Proof.
  revert start w. induction hands as [|hand hands IH]; intros start w;
    cbn [for_enumerate hand_steps].
  - reflexivity.
  - rewrite run_steps_app.
    erewrite bind_val; [apply IH|].
    cbv zeta. unfold for_each.
    apply (for_each_steps rois (StepPair allow scoopers fid start hand (assoc !! start)) 0 w).
Qed.

(** An analysis call is the run of its steps; it returns the events of its
    [violations] list. *)
Lemma detect_violations_steps allow detections rois fid w :
  let w' := run_steps (frame_steps allow detections rois fid) w in
  _detect_violations allow detections rois fid w
  = (Val (map em_event (violations w')), w').
Proof.
  cbv zeta. unfold _detect_violations, frame_steps.
  cbn [run_steps]. rewrite run_steps_app. cbn [run_steps].
  rewrite (bind_val _ _ _ _ _ (run_step_total StepCall w)).
  erewrite bind_val; [|apply hands_loop_steps].
  erewrite bind_val; [|apply (run_step_total StepCleanSequences)].
  erewrite bind_val; [|apply (run_step_total StepCleanTimestamps)].
  reflexivity.
Qed.

Lemma analyze_frames_steps allow frames w :
  analyze_frames allow frames w
  = run_steps (flat_map (fun f => frame_steps allow (fr_detections f) (fr_rois f) (fr_id f))
                        frames) w.
Proof.
  revert w. induction frames as [|f frames IH]; intros w; cbn [analyze_frames flat_map].
  - reflexivity.
  - rewrite run_steps_app, IH. by rewrite detect_violations_steps.
Qed.

Local Open Scope Z_scope.

(** ** Bounded state (C8) *)

Lemma pair_step_completed a sc f i h aw r w :
  ∃ closed,
    completed_sequences (self (after (run_step (StepPair a sc f i h aw r)) w))
    = completed_sequences (self w) ++ closed.
Proof.
  unfold after. cbn [run_step].
  destruct (in_scooper_roi h r) eqn:Hin.
  - destruct (active_sequences (self w) !! pair_key i aw r) as [seq|] eqn:Hact.
    + rewrite (pair_continue a sc f i h aw r w seq Hin Hact). exists []. cbn. by rewrite app_nil_r.
    + destruct (pair_entry a sc f i h aw r w Hin Hact) as (w' & seq & -> & _ & Hc & _).
      exists []. cbn [snd]. by rewrite app_nil_r.
  - assert (H := pair_exit a sc f i h aw r w Hin).
    destruct (active_sequences (self w) !! pair_key i aw r).
    + destruct H as (w' & seq' & -> & _ & _ & _ & _ & _ & Hc & _). by exists [seq'].
    + rewrite H. exists []. cbn. by rewrite app_nil_r.
Qed.

Lemma roi_steps_completed a sc f i h aw rois w :
  ∃ closed,
    completed_sequences (self (run_steps (map (StepPair a sc f i h aw) rois) w))
    = completed_sequences (self w) ++ closed.
Proof.
  revert w. induction rois as [|roi rois IH]; intros w; cbn [map run_steps].
  - exists []. by rewrite app_nil_r.
  - destruct (IH (after (run_step (StepPair a sc f i h aw roi)) w)) as (c2 & ->).
    destruct (pair_step_completed a sc f i h aw roi w) as (c1 & ->).
    exists (c1 ++ c2). by rewrite app_assoc.
Qed.

Lemma hand_steps_completed a sc f assoc rois start hands w :
  ∃ closed,
    completed_sequences (self (run_steps (hand_steps a sc f assoc rois start hands) w))
    = completed_sequences (self w) ++ closed.
Proof.
  revert start w. induction hands as [|hand hands IH]; intros start w; cbn [hand_steps].
  - exists []. cbn. by rewrite app_nil_r.
  - rewrite run_steps_app.
    destruct (IH (S start)
                (run_steps (map (StepPair a sc f start hand (assoc !! start)) rois) w))
      as (c2 & ->).
    destruct (roi_steps_completed a sc f start hand (assoc !! start) rois w) as (c1 & ->).
    exists (c1 ++ c2). by rewrite app_assoc.
Qed.

Lemma run_steps_clock ss w : clock (run_steps ss w) = clock w.
Proof.
  revert w. induction ss as [|s ss IH]; intros w; cbn [run_steps]; [done|].
  by rewrite IH, run_step_clock.
Qed.

(** Claim C8.  After every analysis call the history holds at most 50
    sequences, the most recent ones of the history grown by the sequences
    closed in the call; every active sequence left is at most 30 seconds old
    at the staleness janitor's clock reading, and every timestamp entry left
    is at most 60 seconds old at the cooldown janitor's clock reading. *)
Theorem bounded_state_after_analysis
    (allow_nearby : bool) (detections : list Detection) (rois : list ROI)
    (fid : string) (w : World) :
  ∃ vs w',
    _detect_violations allow_nearby detections rois fid w = (Val vs, w')
    ∧ (length (completed_sequences (self w')) <= 50)%nat
    ∧ (∃ closed older,
         completed_sequences (self w) ++ closed = older ++ completed_sequences (self w'))
    ∧ (2 <= reads w')%nat
    ∧ (∀ k s, active_sequences (self w') !! k = Some s →
              clock w (reads w' - 2) - entry_time s <= seconds 30)
    ∧ (∀ k t, violation_timestamps (self w') !! k = Some t →
              clock w (reads w' - 1) - t <= seconds 60).
Proof.
  eexists _, _. split; [apply detect_violations_steps|].
  unfold frame_steps. cbn [run_steps]. rewrite run_steps_app. cbn [run_steps].
  set (w0 := after (run_step StepCall) w).
  set (w1 := run_steps _ w0).
  assert (Hclock1 : clock w1 = clock w).
  { unfold w1. rewrite run_steps_clock. apply run_step_clock. }
  destruct (hand_steps_completed allow_nearby
              (List.filter (has_class ["scooper"; "scoopers"; "spoon"; "utensil"]) detections)
              fid
              (_associate_hands_with_workers
                 (List.filter (has_class ["hand"; "hands"]) detections)
                 (List.filter (has_class ["person"; "people"]) detections))
              rois 0 (List.filter (has_class ["hand"; "hands"]) detections) w0)
    as (closed & Hclosed).
  fold w1 in Hclosed. change (completed_sequences (self w0)) with (completed_sequences (self w)) in Hclosed.
  destruct (cleanup_sequences_spec w1)
    as (w2 & Hrun2 & Hc2 & Hr2 & _ & _ & _ & _ & Hts2 & Hcomp2 & Hact2).
  assert (Hw2 : after (run_step StepCleanSequences) w1 = w2) by (by apply (after_eq _ _ _ _ Hrun2)).
  rewrite Hw2.
  destruct (cleanup_timestamps_spec w2)
    as (w3 & Hrun3 & Hc3 & Hr3 & _ & _ & _ & _ & Hact3 & Hcomp3 & Hts3).
  assert (Hw3 : after (run_step StepCleanTimestamps) w2 = w3) by (by apply (after_eq _ _ _ _ Hrun3)).
  rewrite Hw3. rewrite Hcomp3, Hact3, Hr3, Hr2.
  replace (S (S (reads w1)) - 2)%nat with (reads w1) by lia.
  replace (S (S (reads w1)) - 1)%nat with (S (reads w1)) by lia.
  split; [|split; [|split; [lia|split]]].
  - rewrite Hcomp2. destruct (50 <? length (completed_sequences (self w1)))%nat eqn:E.
    + rewrite length_drop. apply Nat.ltb_lt in E. lia.
    + apply Nat.ltb_ge in E. lia.
  - exists closed. rewrite <- Hclosed, Hcomp2.
    destruct (50 <? length (completed_sequences (self w1)))%nat.
    + exists (take (length (completed_sequences (self w1)) - 50) (completed_sequences (self w1))).
      by rewrite take_drop.
    + by exists [].
  - intros k s Hs. rewrite Hact2 in Hs.
    destruct (active_sequences (self w1) !! k) as [s0|]; [|done].
    destruct (seconds 30 <? clock w1 (reads w1) - entry_time s0) eqn:E; [done|].
    injection Hs as <-. apply Z.ltb_ge in E. by rewrite <- Hclock1.
  - intros k t Ht. rewrite Hts3 in Ht.
    destruct (violation_timestamps (self w2) !! k) as [t0|]; [|done].
    destruct (seconds 60 <? clock w2 (reads w2) - t0) eqn:E; [done|].
    injection Ht as <-. apply Z.ltb_ge in E. rewrite Hc2, Hr2, Hclock1 in E. done.
Qed.

Local Open Scope Z_scope.

(** ** Frame effects of the steps on the registries (C9, C1) *)

Lemma janitor_frame : janitor_only_drops_active.
Proof.
  intros w w'.
  destruct (cleanup_sequences_spec w)
    as (w2 & Hrun & _ & _ & _ & _ & _ & Hsv & Hts & Hcomp & Hact).
  assert (Hw : w' = w2) by (by apply (after_eq _ _ _ _ Hrun)).
  rewrite Hw. split; [done|]. split; [done|]. split; [|done].
  rewrite Hcomp. destruct (50 <? length (completed_sequences (self w)))%nat.
  - exists (take (length (completed_sequences (self w)) - 50) (completed_sequences (self w))).
    by rewrite take_drop.
  - by exists [].
Qed.

(** What each step does to the two registries. *)
Lemma run_step_registries s w k :
  (sequence_violations (self (after (run_step s) w)) !! k = sequence_violations (self w) !! k
   ∨ is_exit_closure k s w)
  ∧ (violation_timestamps (self (after (run_step s) w)) !! k = violation_timestamps (self w) !! k
     ∨ is_exit_closure k s w
     ∨ (s = StepCleanTimestamps
        ∧ ∃ t, violation_timestamps (self w) !! k = Some t
               ∧ seconds 60 < clock w (reads w) - t)).
Proof.
  unfold after. step_cases s w; cbn [run_step].
  - split; by left.
  - rewrite H. split; by left.
  - destruct H as (w' & seq & -> & _ & _ & Hsv & Hts & _). cbn [snd].
    rewrite Hsv, Hts. split; by left.
  - destruct (active_sequences (self w) !! pair_key i aw roi) as [seq|] eqn:Hact.
    + destruct H as (w' & seq' & -> & _ & _ & _ & _ & _ & _ & _ & Hsv & Hts). cbn [snd].
      rewrite Hsv, Hts.
      destruct (decide (pair_key i aw roi = k)) as [<-|Hne].
      * split; [right|right; left]; (split; [done|]); (split; [done|]); by exists seq.
      * rewrite !lookup_delete_ne by done. split; by left.
    + rewrite H. split; by left.
  - destruct H as (w' & -> & _ & _ & _ & _ & _ & Hsv & Hts & _). cbn [snd].
    rewrite Hsv, Hts. split; by left.
  - destruct H as (w' & -> & _ & _ & _ & _ & _ & Hsv & _ & _ & Hts). cbn [snd].
    rewrite Hsv. split; [by left|]. rewrite Hts.
    destruct (violation_timestamps (self w) !! k) as [t|] eqn:E; [|by left].
    destruct (seconds 60 <? clock w (reads w) - t) eqn:E'; [|by left].
    right; right. split; [done|]. exists t. split; [done|]. by apply Z.ltb_lt.
Qed.

Lemma exit_closure_purges k s w :
  is_exit_closure k s w →
  ¬ is_open k (after (run_step s) w)
  ∧ sequence_violations (self (after (run_step s) w)) !! k = None
  ∧ violation_timestamps (self (after (run_step s) w)) !! k = None
  ∧ emitted (after (run_step s) w) = emitted w
  ∧ clock (after (run_step s) w) = clock w.
Proof.
  destruct s as [|a sc f i h aw r| |]; try done.
  intros (<- & Hin & [seq Hopen]).
  assert (H := pair_exit a sc f i h aw r w Hin). rewrite Hopen in H.
  destruct H as (w' & seq' & Hrun & Hc & _ & He & _ & _ & _ & Hact & Hsv & Hts).
  assert (Hw : after (run_step (StepPair a sc f i h aw r)) w = w')
    by (by apply (after_eq _ _ _ _ Hrun)).
  rewrite Hw. unfold is_open. rewrite Hact, Hsv, Hts, !lookup_delete_eq.
  split; [by intros [? ?]|done].
Qed.

Lemma violations_only_by_exit : violations_purged_only_by_exit.
Proof.
  intros s w k [v Hv] Hnone.
  destruct (run_step_registries s w k) as [[Heq|Hexit] _]; [|done]. congruence.
Qed.

Lemma timestamps_by_exit_or_age : timestamps_purged_by_exit_or_age.
Proof.
  intros s w k t Ht Hnone.
  destruct (run_step_registries s w k) as [_ [Heq|[Hexit|(-> & t' & Ht' & Hold)]]].
  - congruence.
  - by left.
  - right. split; [done|]. congruence.
Qed.

(** No step adds an entry to [sequence_violations] or to
    [violation_timestamps]: the [try] block of the entry branch raises before
    it reaches [_mark_sequence_as_violation]. *)
Lemma step_never_records s w k :
  (∀ v, sequence_violations (self (after (run_step s) w)) !! k = Some v →
        sequence_violations (self w) !! k = Some v)
  ∧ (∀ t, violation_timestamps (self (after (run_step s) w)) !! k = Some t →
          violation_timestamps (self w) !! k = Some t).
Proof.
  destruct (run_step_registries s w k) as [Hsv Hts]. split.
  - intros v Hv. destruct Hsv as [Heq|Hexit]; [congruence|].
    destruct (exit_closure_purges k s w Hexit) as (_ & Hnone & _). congruence.
  - intros t Ht. destruct Hts as [Heq|[Hexit|(-> & t' & Ht' & Hold)]].
    + congruence.
    + destruct (exit_closure_purges k s w Hexit) as (_ & _ & Hnone & _). congruence.
    + destruct (cleanup_timestamps_spec w) as (w' & Hrun & _ & _ & _ & _ & _ & _ & _ & _ & Hl).
      assert (Hw : after (run_step StepCleanTimestamps) w = w')
        by (by apply (after_eq _ _ _ _ Hrun)).
      rewrite Hw, Hl, Ht' in Ht.
      destruct (seconds 60 <? clock w (reads w) - t'); [done|congruence].
Qed.

Lemma fresh_detector_never_records clock ss :
  sequence_violations (self (run_steps ss (new_world clock))) = ∅
  ∧ violation_timestamps (self (run_steps ss (new_world clock))) = ∅.
Proof.
  assert (H : ∀ w, sequence_violations (self w) = ∅ → violation_timestamps (self w) = ∅ →
                   sequence_violations (self (run_steps ss w)) = ∅
                   ∧ violation_timestamps (self (run_steps ss w)) = ∅).
  { induction ss as [|s ss IH]; intros w Hsv Hts; cbn [run_steps]; [done|].
    apply IH; apply map_eq; intros k; rewrite lookup_empty.
    - destruct (sequence_violations (self (after (run_step s) w)) !! k) as [v|] eqn:E; [|done].
      apply (proj1 (step_never_records s w k)) in E. by rewrite Hsv in E.
    - destruct (violation_timestamps (self (after (run_step s) w)) !! k) as [t|] eqn:E; [|done].
      apply (proj2 (step_never_records s w k)) in E. by rewrite Hts in E. }
  by apply H.
Qed.

(** Claim C9, as the code has it.  The staleness janitor removes the stale
    entries of the active map, appends nothing to the history and leaves
    [sequence_violations] and [violation_timestamps] as they are; an entry of
    [sequence_violations] disappears only in an exit closure of its key, an
    entry of [violation_timestamps] only in such an exit closure or when the
    cooldown janitor finds it older than 60 seconds. *)
Theorem janitor_and_purges :
  janitor_only_drops_active
  ∧ violations_purged_only_by_exit
  ∧ timestamps_purged_by_exit_or_age.
Proof.
  split; [apply janitor_frame|].
  split; [apply violations_only_by_exit|apply timestamps_by_exit_or_age].
Qed.

Local Open Scope Z_scope.

(** ** Fields of the emitted events (C10) *)

Lemma run_step_violations_ok (hands : list Detection) s w :
  (∀ a sc f i h aw r, s = StepPair a sc f i h aw r → h ∈ hands) →
  Forall (entry_event_ok hands) (violations w) →
  Forall (entry_event_ok hands) (violations (after (run_step s) w)).
Proof.
  intros Hhand Hok.
  destruct (run_step_emitted s w)
    as [He|(a & sc & f & i & h & aw & r & ev & Hs & _ & _ & _ & _ & Hv & Hty & Hsev & Hconf & _)].
  - unfold after in *. step_cases s w; cbn [run_step] in *.
    + constructor.
    + by rewrite H.
    + destruct H as (w' & seq & Hrun & _ & _ & _ & _ & _ & Hcase).
      rewrite Hrun in He |- *. cbn [snd] in *.
      destruct (should_create_at _ _ _ _).
      * destruct Hcase as (ev & He' & _). rewrite He' in He.
        apply (f_equal length) in He. rewrite length_app in He. cbn in He. lia.
      * destruct Hcase as (_ & Hv & _). by rewrite Hv.
    + destruct (active_sequences (self w) !! pair_key i aw roi).
      * destruct H as (w' & seq' & -> & _ & _ & _ & Hv & _). cbn [snd]. by rewrite Hv.
      * by rewrite H.
    + destruct H as (w' & -> & _ & _ & _ & Hv & _). cbn [snd]. by rewrite Hv.
    + destruct H as (w' & -> & _ & _ & _ & Hv & _). cbn [snd]. by rewrite Hv.
  - rewrite Hv. apply Forall_app. split; [done|]. constructor; [|constructor].
    repeat split; try done. cbn. by apply (Hhand a sc f i h aw r).
Qed.

Lemma run_steps_violations_ok (hands : list Detection) ss w :
  (∀ s a sc f i h aw r, s ∈ ss → s = StepPair a sc f i h aw r → h ∈ hands) →
  Forall (entry_event_ok hands) (violations w) →
  Forall (entry_event_ok hands) (violations (run_steps ss w)).
Proof.
  revert w. induction ss as [|s ss IH]; intros w Hhand Hok; cbn [run_steps]; [done|].
  apply IH.
  - intros s' a sc f i h aw r Hin. apply Hhand. by apply elem_of_cons; right.
  - apply run_step_violations_ok; [|done].
    intros a sc f i h aw r. apply Hhand. by apply elem_of_cons; left.
Qed.

Lemma hand_steps_hand a sc f assoc rois start hands s a' sc' f' i h aw r :
  s ∈ hand_steps a sc f assoc rois start hands →
  s = StepPair a' sc' f' i h aw r →
  h ∈ hands.
Proof.
  revert start. induction hands as [|hand hands IH]; intros start; cbn [hand_steps].
  - by intros ?%elem_of_nil.
  - intros [Hin|Hin]%elem_of_app Hs.
    + apply list_elem_of_fmap in Hin as (roi & Heq & _). rewrite Heq in Hs.
      injection Hs as _ _ _ _ Hh _ _. apply elem_of_cons; left. by symmetry.
    + apply elem_of_cons; right. by apply (IH (S start)).
Qed.

Lemma frame_violations_ok allow detections rois fid w :
  Forall (entry_event_ok (List.filter (has_class ["hand"; "hands"]) detections))
         (violations (run_steps (frame_steps allow detections rois fid) w)).
Proof.
  unfold frame_steps. cbn [run_steps].
  apply run_steps_violations_ok; [|constructor].
  intros s a sc f i h aw r [Hin|Hin]%elem_of_app Hs.
  - by eapply hand_steps_hand.
  - apply elem_of_cons in Hin as [->|Hin]; [done|].
    apply elem_of_cons in Hin as [->|Hin]; [done|]. by apply elem_of_nil in Hin.
Qed.

Lemma parse_detection_confidence fid ts data d :
  parse_detection fid ts data = Some d →
  confidence d = match raw_confidence data with Number q => q | _ => 0%Q end.
Proof.
  unfold parse_detection.
  destruct (raw_class_name data), (raw_bbox data), (raw_center data), (raw_area data);
    cbn; try done.
  intros [= <-]. cbn. by destruct (raw_confidence data).
Qed.

(** Claim C10.  Every event an analysis call appends has type
    [HAND_WITHOUT_SCOOPER], severity ["high"] and the confidence of the hand
    detection it was created for; that detection is a hand parsed from the
    request, with confidence 0 when the request's field is missing or
    [null]. *)
Theorem entry_violation_fields
    (allow_nearby : bool) (detection_data : list RawDetection) (fid ts : string)
    (detections : list Detection) (rois : list ROI) (w : World) :
  _parse_detections detection_data fid ts = Some detections →
  ∃ w',
    _detect_violations allow_nearby detections rois fid w
    = (Val (map em_event (violations w')), w')
    ∧ ∀ em, em ∈ violations w' →
        violation_type (em_event em) = HAND_WITHOUT_SCOOPER
        ∧ severity (em_event em) = "high"%string
        ∧ ev_confidence (em_event em) = confidence (em_hand em)
        ∧ has_class ["hand"; "hands"] (em_hand em) = true
        ∧ ∃ data, data ∈ detection_data
            ∧ parse_detection fid ts data = Some (em_hand em)
            ∧ confidence (em_hand em)
              = match raw_confidence data with Number q => q | _ => 0%Q end.
Proof.
  intros Hparse. eexists. split; [apply detect_violations_steps|].
  intros em Hem.
  assert (Hok := frame_violations_ok allow_nearby detections rois fid w).
  rewrite Forall_forall in Hok. destruct (Hok em Hem) as (Hty & Hsev & Hconf & Hhand).
  repeat (split; [done|]).
  apply list_elem_of_In, List.filter_In in Hhand as [Hin Hcls]. split; [done|].
  apply list_elem_of_In in Hin.
  unfold _parse_detections in Hparse. apply mapM_Some in Hparse.
  apply list_elem_of_lookup in Hin as [n Hn].
  destruct (Forall2_lookup_r _ _ _ _ _ Hparse Hn) as (data & Hdata & Hpd).
  exists data. split; [by eapply list_elem_of_lookup_2|]. split; [done|].
  by eapply parse_detection_confidence.
Qed.

Local Open Scope Z_scope.

(** ** The claims on the concrete scene *)

Lemma quarter_clock_monotone : monotone quarter_clock.
Proof. intros m n Hmn. unfold quarter_clock. lia. Qed.

(** Claim C1 at the failing input: the hand enters without scooper, leaves
    and enters again, on a clock that advances a quarter of a second per
    reading.  Two events are emitted under the same key two seconds apart,
    and after the first of the three frames neither registry holds the key:
    the violation was emitted and never recorded. *)
Lemma reentry_within_cooldown_emits_twice :
  monotone quarter_clock
  ∧ map (fun e => (em_key e, ev_frame_id (em_event e), ev_timestamp (em_event e)))
        (emitted (analyze_frames true reentry_frames (new_world quarter_clock)))
    = [("hand_0_roi", "frame_1", 250000); ("hand_0_roi", "frame_25", 2250000)]%string
  ∧ (let w := analyze_frames true [frame_with hand_inside "frame_1"]
                (new_world quarter_clock) in
     length (emitted w) = 1%nat
     ∧ sequence_violations (self w) !! "hand_0_roi"%string = None
     ∧ violation_timestamps (self w) !! "hand_0_roi"%string = None).
Proof.
  split; [apply quarter_clock_monotone|]. split; [vm_compute; reflexivity|].
  cbv zeta. split; [|split]; vm_compute; reflexivity.
Qed.

Lemma cooldown_between_events_fails : ¬ cooldown_between_events.
Proof.
  intros Hclaim.
  set (w := analyze_frames true reentry_frames (new_world quarter_clock)).
  destruct (emitted w) as [|e1 [|e2 rest]] eqn:E; [by vm_compute in E|by vm_compute in E|].
  assert (H := Hclaim true quarter_clock reentry_frames 0%nat 1%nat e1 e2
                 quarter_clock_monotone).
  fold w in H. rewrite E in H.
  assert (He1 : (em_key e1, ev_timestamp (em_event e1)) = ("hand_0_roi"%string, 250000)).
  { vm_compute in E. by injection E as <- _. }
  assert (He2 : (em_key e2, ev_timestamp (em_event e2)) = ("hand_0_roi"%string, 2250000)).
  { vm_compute in E. by injection E as _ <- _. }
  injection He1 as Hk1 Ht1. injection He2 as Hk2 Ht2.
  specialize (H ltac:(lia) eq_refl eq_refl ltac:(congruence)).
  rewrite Ht1, Ht2 in H. unfold seconds in H. lia.
Qed.

(** The world between the entry of the hand and its exit. *)
Lemma entry_opens :
  is_open "hand_0_roi"
    (after (run_step (StepPair true [] "frame_1" 0 hand_inside None the_roi))
           (new_world quarter_clock)).
Proof. unfold is_open. vm_compute. eexists. reflexivity. Defined.

Lemma fresh_closed : ¬ is_open "hand_0_roi" (new_world quarter_clock).
Proof. intros [s Hs]. vm_compute in Hs. discriminate. Defined.

(** C2, witness: an entry followed by a continuing frame. *)
Lemma one_violation_per_sequence_witness :
  (length (events_for "hand_0_roi"
             (after (run_step (StepPair true [] "frame_3" 0 hand_outside None the_roi))
                (run_steps [StepPair true [] "frame_1" 0 hand_inside None the_roi;
                            StepPair true [] "frame_2" 0 hand_inside None the_roi]
                           (new_world quarter_clock))))
   <= length (events_for "hand_0_roi" (new_world quarter_clock)) + 1)%nat.
Proof.
  apply (proj1 (one_violation_per_sequence "hand_0_roi" (new_world quarter_clock)
                  (StepPair true [] "frame_1" 0 hand_inside None the_roi)
                  [StepPair true [] "frame_2" 0 hand_inside None the_roi])).
  - apply fresh_closed.
  - split; [apply entry_opens|]. split; [|exact I].
    unfold is_open. vm_compute. eexists. reflexivity.
Defined.

(** C3, witness: the hand enters next to a scooper and the scooper is gone in
    the next frame. *)
Lemma scooper_at_entry_witness :
  events_for "hand_0_roi"
    (run_steps [StepPair true [other_at "scooper" 530 430] "frame_1" 0 hand_inside None the_roi;
                StepPair true [] "frame_2" 0 hand_inside None the_roi]
               (new_world quarter_clock))
  = events_for "hand_0_roi" (new_world quarter_clock).
Proof.
  apply (proj1 (scooper_at_entry_no_violation true [other_at "scooper" 530 430]
                  "frame_1" 0 hand_inside None the_roi (new_world quarter_clock)
                  [StepPair true [] "frame_2" 0 hand_inside None the_roi] eq_refl)).
  - apply fresh_closed.
  - vm_compute. reflexivity.
  - split; [|exact I]. unfold is_open. vm_compute. eexists. reflexivity.
Defined.

Local Open Scope Q_scope.








(** Claim C6 at the failing input, in the binary64 arithmetic of the code:
    the polygon of the two points (0, 0) and (1, 3) and the center
    (0.33333333333333337, 1).  The traversal of the edge from (0, 0)
    computes the abscissa 0.3333333333333333, left of the center; the
    traversal back from (1, 3) computes 0.33333333333333337, the abscissa of
    the center; the loop toggles once and the two-point polygon contains
    the center.  Without rounding both abscissas are 1/3 and the loop
    toggles twice. *)
Lemma two_point_polygon_contains_center :
  Binary64._point_in_polygon 0x1.5555555555556p-2 1
    [Binary64.at_xy 0 0; Binary64.at_xy 1 3] = true
  ∧ ((1 - 0) * (1 - 0) / (3 - 0) + 0)%float = 0x1.5555555555555p-2%float
  ∧ ((1 - 3) * (0 - 1) / (0 - 3) + 1)%float = 0x1.5555555555556p-2%float
  ∧ _point_in_polygon (6004799503160662 # 18014398509481984) 1 [at_xy 0 0; at_xy 1 3]
    = false.
Proof. split; [|split; [|split]]; vm_compute; reflexivity. Qed.

(** C7, counterexample: a hand on the left edge of the rectangle is inside
    the rectangle and outside the same rectangle given as a polygon. *)
Lemma rectangle_polygon_counterexample :
  _is_in_roi hand_on_edge (rectangle_roi 500 400 200 200) = true
  ∧ _is_in_roi hand_on_edge (polygon_roi (corners 500 400 200 200)) = false.
Proof. split; vm_compute; reflexivity. Qed.

(** C7, witness of the amended statement. *)
Lemma rectangle_polygon_witness :
  _is_in_roi hand_inside (polygon_roi (corners 500 400 200 200))
  = _is_in_roi hand_inside (rectangle_roi 500 400 200 200)
    && negb (Qeq_bool (default 0 (pos_x (center hand_inside))) 500)
    && negb (Qeq_bool (default 0 (pos_y (center hand_inside))) 400).
Proof.
  apply (rectangle_polygon_agreement hand_inside 500 400 200 200); discriminate.
Defined.

Local Open Scope Z_scope.

(** C9, counterexample: the cooldown janitor deletes a timestamp entry older
    than 60 seconds, and it is no exit closure. *)
Lemma purge_counterexample :
  violation_timestamps (self marked_world) !! "hand_0_roi"%string = Some 0
  ∧ violation_timestamps (self (after (run_step StepCleanTimestamps) marked_world))
      !! "hand_0_roi"%string = None
  ∧ ¬ is_exit_closure "hand_0_roi" StepCleanTimestamps marked_world.
Proof. split; [vm_compute; reflexivity|]. split; [vm_compute; reflexivity|]. intros []. Qed.

Lemma timestamps_purged_only_by_exit_fails : ¬ timestamps_purged_only_by_exit.
Proof.
  intros Hclaim.
  apply (Hclaim StepCleanTimestamps marked_world "hand_0_roi"%string).
  - exists 0. vm_compute. reflexivity.
  - vm_compute. reflexivity.
Qed.

(** C9, witness of the amended statement: a recorded violation disappears
    when the hand leaves the ROI. *)
Lemma janitor_and_purges_witness :
  is_exit_closure "hand_0_roi"
    (StepPair true [] "frame_2" 0 hand_outside None the_roi)
    (after (_update_roi_sequence "hand_0" "roi" "frame_1" (at_xy 520 420) false Inf None)
           marked_world).
Proof.
  apply (proj1 (proj2 janitor_and_purges)).
  - vm_compute. eexists. reflexivity.
  - vm_compute. reflexivity.
Defined.

(** C10, witness: a hand whose confidence is [null] enters the ROI. *)
Lemma entry_violation_fields_witness :
  ∃ w',
    _detect_violations true
      [{| class_name := "hand"; confidence := 0%Q; bbox := a_bbox;
          center := at_xy 520 420; area := 1600%Q;
          frame_id := "frame_1"; timestamp := "2024-01-01T00:00:00" |}]
      [the_roi] "frame_1" (new_world quarter_clock)
    = (Val (map em_event (violations w')), w')
    ∧ Forall (fun em => ev_confidence (em_event em) = 0%Q) (violations w')
    ∧ length (violations w') = 1%nat.
Proof.
  destruct (entry_violation_fields true [raw_hand] "frame_1" "2024-01-01T00:00:00"
              [{| class_name := "hand"; confidence := 0%Q; bbox := a_bbox;
                  center := at_xy 520 420; area := 1600%Q;
                  frame_id := "frame_1"; timestamp := "2024-01-01T00:00:00" |}]
              [the_roi] (new_world quarter_clock) eq_refl)
    as (w' & Hrun & Hall).
  exists w'. split; [exact Hrun|]. split.
  - apply Forall_forall. intros em Hem.
    destruct (Hall em Hem) as (_ & _ & Hconf & _ & data & Hdata & _ & Hc).
    apply list_elem_of_singleton in Hdata as ->. rewrite Hconf, Hc. reflexivity.
  - assert (Hw : snd (_detect_violations true
              [{| class_name := "hand"; confidence := 0%Q; bbox := a_bbox;
                  center := at_xy 520 420; area := 1600%Q;
                  frame_id := "frame_1"; timestamp := "2024-01-01T00:00:00" |}]
              [the_roi] "frame_1" (new_world quarter_clock)) = w')
      by (by rewrite Hrun).
    rewrite <- Hw. vm_compute. reflexivity.
Defined.

(** * Further properties of the pipeline

    ** What an iteration does to the tracker, field by field *)

Local Open Scope Z_scope.

Section PairExact.
Variables (allow_nearby : bool) (scoopers : list Detection) (fid : string)
          (i : nat) (hand : Detection) (aw : option nat) (roi : ROI).

Let key := pair_key i aw roi.
Let uses := _is_hand_using_scooper_simple allow_nearby hand scoopers.
Let pair := process_hand_roi allow_nearby scoopers fid i hand aw roi.

(** The sequence an entry creates, once its entry time is known. *)
Let opened (n : nat) (t : Z) : ROISequence :=
  {| sequence_id := "seq_" +:+ pretty n; hand_id := hand_id_of i aw;
     roi_name := name roi; worker_id := aw; entry_frame := fid; exit_frame := None;
     entry_time := t; exit_time := None;
     frames_in_roi := [fid]; positions_in_roi := [center hand];
     scooper_usage_frames := [uses];
     scooper_distances := [_get_closest_scooper_distance hand scoopers];
     is_active := true; is_complete := false |}.

Lemma pair_entry_exact w :
  in_scooper_roi hand roi = true →
  active_sequences (self w) !! key = None →
  ∃ w' n,
    pair w = (Val tt, w')
    ∧ (reads w <= n < reads w')%nat
    ∧ sequence_counter (self w') = S (sequence_counter (self w))
    ∧ completed_sequences (self w') = completed_sequences (self w)
    ∧ active_sequences (self w')
      = <[key := opened (S (sequence_counter (self w))) (clock w n)]> (active_sequences (self w))
    ∧ if should_create_at (self w) (clock w (reads w)) key uses then
        ∃ ev,
          emitted w' = emitted w ++ [{| em_key := key; em_hand := hand; em_event := ev |}]
          ∧ violations w' = violations w ++ [{| em_key := key; em_hand := hand; em_event := ev |}]
          ∧ violation_count (self w') = S (violation_count (self w))
          ∧ violation_id ev = violation_id_of (S (violation_count (self w))) fid
          ∧ ev_frame_id ev = fid
          ∧ ev_roi_name ev = name roi
          ∧ ev_confidence ev = confidence hand
          ∧ hand_center (evidence ev) = center hand
          ∧ ev_worker_id ev = aw
      else
        emitted w' = emitted w
        ∧ violations w' = violations w
        ∧ violation_count (self w') = violation_count (self w).
Proof.
  intros Hin Hact. unfold pair, process_hand_roi.
  unfold in_scooper_roi in Hin. rewrite Hin.
  unfold bind, get_self at 1. cbn.
  fold (pair_key i aw roi). fold key. rewrite Hact.
  unfold _should_create_sequence_violation, bind, now, get_self, ret. cbn.
  fold (pair_key i aw roi). fold key. fold uses.
  destruct (should_create_at (self w) (clock w (reads w)) key uses) eqn:Hneed.
  - unfold try_except, create_sequence_violation, _create_violation, bind, modify_self,
      get_self, set_self, now, ret, append_violation, getattr_str, raise,
      _update_roi_sequence, new_ROISequence. cbn.
    fold (pair_key i aw roi). fold key. rewrite Hact. cbn.
    eexists _, (S (S (reads w))). split; [reflexivity|]. cbn.
    split; [lia|]. repeat (split; [reflexivity|]).
    eexists. cbn. repeat (split; [reflexivity|]). reflexivity.
  - unfold _update_roi_sequence, new_ROISequence, bind, modify_self,
      get_self, set_self, now, ret. cbn.
    fold (pair_key i aw roi). fold key. rewrite Hact. cbn.
    eexists _, (S (reads w)). split; [reflexivity|]. cbn.
    split; [lia|]. repeat (split; [reflexivity|]). reflexivity.
Qed.

(** The sequence an exit files in the history. *)
Let closed (seq : ROISequence) (t : Z) : ROISequence :=
  {| sequence_id := sequence_id seq; hand_id := hand_id seq; roi_name := roi_name seq;
     worker_id := worker_id seq; entry_frame := entry_frame seq;
     exit_frame := Some fid;
     entry_time := entry_time seq; exit_time := Some t;
     frames_in_roi := frames_in_roi seq; positions_in_roi := positions_in_roi seq;
     scooper_usage_frames := scooper_usage_frames seq;
     scooper_distances := scooper_distances seq;
     is_active := false; is_complete := true |}.

Lemma pair_exit_exact w seq :
  in_scooper_roi hand roi = false →
  active_sequences (self w) !! key = Some seq →
  ∃ w',
    pair w = (Val tt, w')
    ∧ reads w' = S (reads w)
    ∧ sequence_counter (self w') = sequence_counter (self w)
    ∧ completed_sequences (self w')
      = completed_sequences (self w) ++ [closed seq (clock w (reads w))]
    ∧ active_sequences (self w') = delete key (active_sequences (self w)).
Proof.
  intros Hin Hact. unfold pair, process_hand_roi.
  unfold in_scooper_roi in Hin. rewrite Hin.
  unfold _check_sequence_completion, bind, get_self at 1. cbn.
  fold (pair_key i aw roi). fold key. rewrite Hact.
  unfold complete_sequence, bind, modify_self, get_self, set_self, now, ret. cbn.
  fold (pair_key i aw roi). fold key.
  destruct (sequence_violations (self w) !! key) eqn:E; cbn;
    destruct (violation_timestamps (self w) !! key) eqn:E'; cbn;
    (eexists; split; [reflexivity|]; cbn; repeat split; reflexivity).
Qed.
End PairExact.

(** ** Shapes of the tracked sequences *)

Lemma add_frame_aligned seq f p u d :
  frames_aligned seq → frames_aligned (add_frame seq f p u d).
Proof.
  intros (Hh & Hp & Hu & Hd). unfold frames_aligned. cbn.
  rewrite !length_app, Hp, Hu, Hd. cbn. repeat split; try done.
  destruct (frames_in_roi seq); [done|exact Hh].
Qed.

Lemma shapes_step s w : shapes_hold_in w → shapes_hold_in (after (run_step s) w).
Proof.
  intros [Hact Hcomp]. unfold after, shapes_hold_in.
  destruct s as [|a sc f i h aw r| |]; cbn [run_step].
  - done.
  - destruct (in_scooper_roi h r) eqn:Hin.
    + destruct (active_sequences (self w) !! pair_key i aw r) as [seq|] eqn:Hk.
      * rewrite (pair_continue a sc f i h aw r w seq Hin Hk).
        cbn [snd self active_sequences completed_sequences with_active_sequences clock reads].
        split; [|exact Hcomp]. intros k s.
        destruct (decide (pair_key i aw r = k)) as [<-|Hne].
        -- rewrite lookup_insert_eq. intros [= <-].
           destruct (Hact _ _ Hk) as ((Hkey & Ha & Hc & Hef & Het & Hal) & Hn).
           split; [|exact Hn]. repeat split; try done.
           all: by apply add_frame_aligned.
        -- rewrite lookup_insert_ne by done. apply Hact.
      * destruct (pair_entry_exact a sc f i h aw r w Hin Hk)
          as (w' & n & Hrun & Hn & _ & Hc & Ha & _).
        destruct (pair_entry a sc f i h aw r w Hin Hk) as (w'' & seq & Hrun' & Hclk & _).
        assert (w'' = w') as -> by congruence.
        rewrite Hrun. cbn [snd]. rewrite Hclk, Hc. split; [|exact Hcomp].
        intros k s. rewrite Ha.
        destruct (decide (pair_key i aw r = k)) as [<-|Hne].
        -- rewrite lookup_insert_eq. intros [= <-]. split.
           ++ repeat split; done.
           ++ exists n. cbn. split; [lia|done].
        -- rewrite lookup_insert_ne by done. intros Hs.
           destruct (Hact _ _ Hs) as (Hok & m & Hm & Hmt). split; [done|].
           exists m. split; [lia|done].
    + destruct (active_sequences (self w) !! pair_key i aw r) as [seq|] eqn:Hk.
      * destruct (pair_exit_exact a sc f i h aw r w seq Hin Hk)
          as (w' & Hrun & Hr & _ & Hc & Ha).
        assert (Hx := pair_exit a sc f i h aw r w Hin). rewrite Hk in Hx.
        destruct Hx as (w'' & seq' & Hrun' & Hclk & _).
        assert (w'' = w') as -> by congruence.
        rewrite Hrun. cbn [snd]. split.
        -- intros k s. rewrite Ha. intros Hs.
           apply lookup_delete_Some in Hs as [_ Hs].
           destruct (Hact _ _ Hs) as (Hok & m & Hm & Hmt). split; [done|].
           exists m. split; [lia|]. by rewrite Hclk.
        -- rewrite Hclk, Hc. intros Hmono s Hs.
           apply elem_of_app in Hs as [Hs|Hs]; [by apply Hcomp|].
           apply list_elem_of_singleton in Hs as ->.
           destruct (Hact _ _ Hk) as ((Hkey & Hac & Hco & Hef & Het & Hal) & m & Hm & Hmt).
           unfold completed_sequence_ok, get_sequence_duration. cbn.
           split; [done|]. split; [done|]. split; [by eexists|]. split; [by eexists|].
           split; [|exact Hal]. rewrite Hmt.
           assert (clock w m <= clock w (reads w)) by (apply Hmono; lia). lia.
      * assert (Hx := pair_exit a sc f i h aw r w Hin). rewrite Hk in Hx.
        rewrite Hx. done.
  - destruct (cleanup_sequences_spec w)
      as (w' & -> & Hclk & Hr & _ & _ & _ & _ & _ & Hc & Ha). cbn [snd]. split.
    + intros k s. rewrite Ha.
      destruct (active_sequences (self w) !! k) as [s0|] eqn:Hk; [|done].
      destruct (seconds 30 <? clock w (reads w) - entry_time s0); [done|].
      intros [= <-]. destruct (Hact _ _ Hk) as (Hok & m & Hm & Hmt). split; [done|].
      exists m. split; [lia|]. by rewrite Hclk.
    + rewrite Hclk, Hc. intros Hmono s Hs. apply Hcomp; [done|].
      destruct (50 <? length (completed_sequences (self w)))%nat; [|done].
      rewrite <- (take_drop (length (completed_sequences (self w)) - 50)).
      apply elem_of_app. by right.
  - destruct (cleanup_timestamps_spec w)
      as (w' & -> & Hclk & Hr & _ & _ & _ & _ & Ha & Hc & _). cbn [snd]. split.
    + intros k s. rewrite Ha. intros Hs.
      destruct (Hact _ _ Hs) as (Hok & m & Hm & Hmt). split; [done|].
      exists m. split; [lia|]. by rewrite Hclk.
    + rewrite Hclk, Hc. exact Hcomp.
Qed.

Lemma shapes_steps ss w : shapes_hold_in w → shapes_hold_in (run_steps ss w).
Proof.
  revert w. induction ss as [|s ss IH]; intros w Hw; cbn [run_steps]; [done|].
  by apply IH, shapes_step.
Qed.

Lemma shapes_fresh clock : shapes_hold_in (new_world clock).
Proof. split; [intros k s Hs|intros _ s Hs]; cbn in Hs; [by rewrite lookup_empty in Hs|by apply elem_of_nil in Hs]. Qed.

Lemma shapes_analysis allow frames clock :
  shapes_hold_in (analyze_frames allow frames (new_world clock)).
Proof. rewrite analyze_frames_steps. apply shapes_steps, shapes_fresh. Qed.

Lemma analysis_clock allow frames w : clock (analyze_frames allow frames w) = clock w.
Proof. rewrite analyze_frames_steps. apply run_steps_clock. Qed.

(** X1.  Whatever frames a fresh detector has analysed, every sequence of
    [active_sequences] is filed under the key made of its own hand id and
    ROI name, is active and not complete, has no exit frame and no exit
    time, and its four per-frame lists have the same, non-zero length, the
    first frame being the entry frame. *)
Theorem active_sequences_well_formed
    (allow_nearby : bool) (frames : list Frame) (clock : nat → Z)
    (k : string) (s : ROISequence) :
  active_sequences (self (analyze_frames allow_nearby frames (new_world clock))) !! k = Some s →
  active_sequence_ok k s.
Proof.
  intros Hs. by destruct (proj1 (shapes_analysis allow_nearby frames clock) k s Hs).
Qed.

(** X2.  Under a clock that never goes back, every sequence of
    [completed_sequences] is complete and not active, has an exit frame and
    an exit time, a duration that is not negative, and per-frame lists of
    the same non-zero length. *)
Theorem completed_sequences_well_formed
    (allow_nearby : bool) (frames : list Frame) (clock : nat → Z) (s : ROISequence) :
  monotone clock →
  s ∈ completed_sequences (self (analyze_frames allow_nearby frames (new_world clock))) →
  completed_sequence_ok s.
Proof.
  intros Hmono Hs.
  apply (proj2 (shapes_analysis allow_nearby frames clock)); [|done].
  by rewrite analysis_clock.
Qed.

(** ** Numbered identifiers *)

Local Open Scope Z_scope.

Lemma pretty_N_char_digit x : is_digit (pretty_N_char x) = true.
Proof. unfold pretty_N_char. by repeat case_match. Qed.

Lemma pretty_N_go_digits x s : all_digits s = true → all_digits (pretty_N_go x s) = true.
Proof.
  revert s. induction (N.lt_wf_0 x) as [x _ IH]; intros s Hs.
  assert (x = 0 ∨ 0 < x)%N as [->|Hx] by lia.
  - by rewrite pretty_N_go_0.
  - rewrite pretty_N_go_step by done. apply IH.
    + by apply N.div_lt.
    + cbn [all_digits]. by rewrite pretty_N_char_digit.
Qed.

Lemma pretty_nat_digits (n : nat) : all_digits (pretty n) = true.
Proof.
  unfold pretty, pretty_nat, pretty, pretty_N.
  case_decide; [done|]. by apply pretty_N_go_digits.
Qed.

(** Two digit strings that are followed by an underscore in equal strings
    are equal, and so are the rests. *)
Lemma digits_underscore a b r r' :
  all_digits a = true → all_digits b = true →
  a +:+ String "_" r = b +:+ String "_" r' → a = b ∧ r = r'.
Proof.
  revert b. induction a as [|c a IH]; intros [|d b] Ha Hb Heq; cbn in *.
  - by injection Heq as ->.
  - injection Heq as <- _. by apply andb_prop in Hb as [Hb _].
  - injection Heq as -> _. by apply andb_prop in Ha as [Ha _].
  - injection Heq as -> Heq.
    apply andb_prop in Ha as [_ Ha]. apply andb_prop in Hb as [_ Hb].
    destruct (IH b Ha Hb Heq) as [-> ->]. done.
Qed.

Lemma violation_id_of_inj n m f f' :
  violation_id_of n f = violation_id_of m f' → n = m ∧ f = f'.
Proof.
  unfold violation_id_of. intros Heq. cbn in Heq.
  injection Heq as Heq.
  apply digits_underscore in Heq as [Hp ->]; try apply pretty_nat_digits.
  split; [|done]. by apply (inj pretty).
Qed.

Lemma sequence_id_of_inj n m : sequence_id_of n = sequence_id_of m → n = m.
Proof.
  unfold sequence_id_of. intros Heq. cbn in Heq. injection Heq as Heq.
  by apply (inj pretty).
Qed.

(** *** Violation ids *)

Lemma ids_numbered_step s w : ids_numbered w → ids_numbered (after (run_step s) w).
Proof.
  intros [Hcount Hids]. unfold after, ids_numbered.
  destruct s as [|a sc f i h aw r| |]; cbn [run_step].
  - done.
  - destruct (in_scooper_roi h r) eqn:Hin.
    + destruct (active_sequences (self w) !! pair_key i aw r) as [seq|] eqn:Hk.
      * by rewrite (pair_continue a sc f i h aw r w seq Hin Hk).
      * destruct (pair_entry_exact a sc f i h aw r w Hin Hk)
          as (w' & n & -> & _ & _ & _ & _ & Hcase). cbn [snd].
        destruct (should_create_at _ _ _ _).
        -- destruct Hcase as (ev & He & _ & Hc & Hid & Hf & _).
           rewrite He, Hc, length_app. cbn [length]. split; [lia|].
           intros j em Hj. apply lookup_app_Some in Hj as [Hj|[Hlen Hj]]; [by apply Hids|].
           apply list_lookup_singleton_Some in Hj as [Hj <-]. cbn [em_event].
           rewrite Hid, Hf. f_equal. lia.
        -- destruct Hcase as (He & _ & Hc). by rewrite He, Hc.
    + assert (Hx := pair_exit a sc f i h aw r w Hin).
      destruct (active_sequences (self w) !! pair_key i aw r).
      * destruct Hx as (w' & seq' & -> & _ & _ & He & _ & Hc & _). cbn [snd].
        by rewrite He, Hc.
      * by rewrite Hx.
  - destruct (cleanup_sequences_spec w) as (w' & -> & _ & _ & He & _ & Hc & _). cbn [snd].
    by rewrite He, Hc.
  - destruct (cleanup_timestamps_spec w) as (w' & -> & _ & _ & He & _ & Hc & _). cbn [snd].
    by rewrite He, Hc.
Qed.

Lemma ids_numbered_steps ss w : ids_numbered w → ids_numbered (run_steps ss w).
Proof.
  revert w. induction ss as [|s ss IH]; intros w Hw; cbn [run_steps]; [done|].
  by apply IH, ids_numbered_step.
Qed.

Lemma ids_numbered_fresh clock : ids_numbered (new_world clock).
Proof. split; [done|]. intros i em Hi. cbn in Hi. by rewrite lookup_nil in Hi. Qed.

(** X3.  Whatever frames a fresh detector has analysed, [violation_count]
    is the number of events emitted so far, and the [n]-th event emitted
    (counting from 1) has the id [violation_<n>_<its frame id>]. *)
Theorem violation_ids_numbered
    (allow_nearby : bool) (frames : list Frame) (clock : nat → Z) :
  ids_numbered (analyze_frames allow_nearby frames (new_world clock)).
Proof. rewrite analyze_frames_steps. apply ids_numbered_steps, ids_numbered_fresh. Qed.

(** X4.  No two events emitted by a detector share a violation id. *)
Theorem violation_ids_distinct
    (allow_nearby : bool) (frames : list Frame) (clock : nat → Z)
    (i j : nat) (e1 e2 : Emission) :
  i ≠ j →
  emitted (analyze_frames allow_nearby frames (new_world clock)) !! i = Some e1 →
  emitted (analyze_frames allow_nearby frames (new_world clock)) !! j = Some e2 →
  violation_id (em_event e1) ≠ violation_id (em_event e2).
Proof.
  intros Hij H1 H2 Heq.
  assert (Hn : ids_numbered (analyze_frames allow_nearby frames (new_world clock))).
  { rewrite analyze_frames_steps. apply ids_numbered_steps, ids_numbered_fresh. }
  destruct Hn as [_ Hids].
  rewrite (Hids _ _ H1), (Hids _ _ H2) in Heq.
  apply violation_id_of_inj in Heq as [Heq _]. lia.
Qed.

(** *** Sequence ids *)

Local Open Scope Z_scope.

Lemma sequence_ids_step s w : sequence_ids_unique w → sequence_ids_unique (after (run_step s) w).
Proof.
  intros (Hact & Hcomp & Hinj & Hnd & Hsep). unfold after, sequence_ids_unique.
  destruct s as [|a sc f i h aw r| |]; cbn [run_step].
  - done.
  - destruct (in_scooper_roi h r) eqn:Hin.
    + destruct (active_sequences (self w) !! pair_key i aw r) as [seq|] eqn:Hk.
      * rewrite (pair_continue a sc f i h aw r w seq Hin Hk).
        cbn [snd self active_sequences completed_sequences sequence_counter
             with_active_sequences].
        set (seq' := add_frame seq f (center h) _ _).
        assert (Hid : sequence_id seq' = sequence_id seq) by done.
        assert (Hlook : ∀ k s, <[pair_key i aw r := seq']> (active_sequences (self w)) !! k = Some s →
                  ∃ s0, active_sequences (self w) !! k = Some s0
                        ∧ sequence_id s = sequence_id s0).
        { intros k s. destruct (decide (pair_key i aw r = k)) as [<-|Hne].
          - rewrite lookup_insert_eq. intros [= <-]. by exists seq.
          - rewrite lookup_insert_ne by done. intros Hs. by exists s. }
        split; [|split; [done|split; [|split; [done|]]]].
        -- intros k s Hs. destruct (Hlook k s Hs) as (s0 & Hs0 & ->). by eapply Hact.
        -- intros k1 k2 s1 s2 H1 H2.
           destruct (Hlook _ _ H1) as (t1 & Ht1 & ->).
           destruct (Hlook _ _ H2) as (t2 & Ht2 & ->). by eapply Hinj.
        -- intros k s Hs. destruct (Hlook k s Hs) as (s0 & Hs0 & ->). by eapply Hsep.
      * destruct (pair_entry_exact a sc f i h aw r w Hin Hk)
          as (w' & n & -> & _ & Hcnt & Hc & Ha & _). cbn [snd].
        rewrite Hcnt, Hc, Ha.
        assert (Hlook : ∀ k s,
                  <[pair_key i aw r :=
                      {| sequence_id := "seq_" +:+ pretty (S (sequence_counter (self w)));
                         hand_id := hand_id_of i aw; roi_name := name r; worker_id := aw;
                         entry_frame := f; exit_frame := None;
                         entry_time := clock w n; exit_time := None;
                         frames_in_roi := [f]; positions_in_roi := [center h];
                         scooper_usage_frames := [_is_hand_using_scooper_simple a h sc];
                         scooper_distances := [_get_closest_scooper_distance h sc];
                         is_active := true; is_complete := false |}]>
                    (active_sequences (self w)) !! k = Some s →
                  (k = pair_key i aw r
                   ∧ sequence_id s = sequence_id_of (S (sequence_counter (self w))))
                  ∨ (k ≠ pair_key i aw r ∧ active_sequences (self w) !! k = Some s)).
        { intros k s. destruct (decide (pair_key i aw r = k)) as [<-|Hne].
          - rewrite lookup_insert_eq. intros [= <-]. by left.
          - rewrite lookup_insert_ne by done. intros Hs. by right. }
        assert (Hfresh : ∀ m, (1 <= m <= sequence_counter (self w))%nat →
                  sequence_id_of (S (sequence_counter (self w))) ≠ sequence_id_of m).
        { intros m Hm Heq%sequence_id_of_inj. lia. }
        split; [|split; [|split; [|split; [done|]]]].
        -- intros k s Hs. destruct (Hlook k s Hs) as [[-> Hid]|[_ Hold]].
           ++ exists (S (sequence_counter (self w))). split; [lia|done].
           ++ destruct (Hact _ _ Hold) as (m & Hm & Hid). exists m. split; [lia|done].
        -- intros s Hs. destruct (Hcomp s Hs) as (m & Hm & Hid). exists m. split; [lia|done].
        -- intros k1 k2 s1 s2 H1 H2 Heq.
           destruct (Hlook _ _ H1) as [[-> Hid1]|[Hne1 Hold1]];
             destruct (Hlook _ _ H2) as [[-> Hid2]|[Hne2 Hold2]].
           ++ done.
           ++ destruct (Hact _ _ Hold2) as (m & Hm & Hid2).
              rewrite Hid1, Hid2 in Heq. by destruct (Hfresh m Hm).
           ++ destruct (Hact _ _ Hold1) as (m & Hm & Hid1).
              rewrite Hid1, Hid2 in Heq. by destruct (Hfresh m Hm).
           ++ by eapply Hinj.
        -- intros k s Hs. destruct (Hlook k s Hs) as [[-> Hid]|[_ Hold]]; [|by eapply Hsep].
           intros (s0 & Heq & Hs0)%list_elem_of_fmap.
           destruct (Hcomp s0 Hs0) as (m & Hm & Hid0).
           rewrite Hid, Hid0 in Heq. by destruct (Hfresh m Hm).
    + destruct (active_sequences (self w) !! pair_key i aw r) as [seq|] eqn:Hk.
      * destruct (pair_exit_exact a sc f i h aw r w seq Hin Hk)
          as (w' & -> & _ & Hcnt & Hc & Ha). cbn [snd].
        rewrite Hcnt, Hc, Ha, fmap_app. cbn [fmap list_fmap sequence_id].
        split; [|split; [|split; [|split]]].
        -- intros k s [_ Hs]%lookup_delete_Some. by eapply Hact.
        -- intros s [Hs|Hs]%elem_of_app; [by apply Hcomp|].
           apply list_elem_of_singleton in Hs as ->. cbn [sequence_id]. by eapply Hact.
        -- intros k1 k2 s1 s2 [_ H1]%lookup_delete_Some [_ H2]%lookup_delete_Some.
           by eapply Hinj.
        -- apply NoDup_app. split; [done|]. split; [|apply NoDup_singleton].
           intros x Hx ->%list_elem_of_singleton. by apply (Hsep _ _ Hk).
        -- intros k s [Hne Hs]%lookup_delete_Some [Hx|Hx]%elem_of_app.
           ++ by apply (Hsep _ _ Hs).
           ++ apply list_elem_of_singleton in Hx. apply Hne. by eapply Hinj.
      * assert (Hx := pair_exit a sc f i h aw r w Hin). rewrite Hk in Hx.
        rewrite Hx. done.
  - destruct (cleanup_sequences_spec w)
      as (w' & Hrun & _ & _ & _ & _ & _ & _ & _ & Hc & Ha).
    assert (Hcnt : sequence_counter (self w') = sequence_counter (self w)).
    { revert Hrun. unfold _cleanup_old_sequences, bind, modify_self, get_self, set_self, now, ret.
      cbn -[Nat.ltb Nat.sub drop Z.ltb seconds]. intros [= <-].
      by destruct (50 <? length (completed_sequences (self w)))%nat. }
    rewrite Hrun. cbn [snd]. rewrite Hcnt.
    assert (Hlook : ∀ k s, active_sequences (self w') !! k = Some s →
              active_sequences (self w) !! k = Some s).
    { intros k s. rewrite Ha. destruct (active_sequences (self w) !! k) as [s0|]; [|done].
      by destruct (seconds 30 <? clock w (reads w) - entry_time s0). }
    assert (Hsub : ∃ older, completed_sequences (self w) = older ++ completed_sequences (self w')).
    { rewrite Hc. destruct (50 <? length (completed_sequences (self w)))%nat.
      - eexists. symmetry. apply take_drop.
      - by exists []. }
    destruct Hsub as (older & Hsub).
    assert (Hin : ∀ x, x ∈ sequence_id <$> completed_sequences (self w') →
              x ∈ sequence_id <$> completed_sequences (self w)).
    { intros x Hx. rewrite Hsub, fmap_app. apply elem_of_app. by right. }
    split; [|split; [|split; [|split]]].
    + intros k s Hs. by eapply Hact, Hlook.
    + intros s Hs. apply Hcomp. rewrite Hsub. apply elem_of_app. by right.
    + intros k1 k2 s1 s2 H1 H2. eapply Hinj; by apply Hlook.
    + rewrite Hsub, fmap_app in Hnd. by apply NoDup_app in Hnd as (_ & _ & Hnd).
    + intros k s Hs Hx. apply (Hsep k s); [by apply Hlook|by apply Hin].
  - destruct (cleanup_timestamps_spec w)
      as (w' & Hrun & _ & _ & _ & _ & _ & _ & Ha & Hc & _).
    assert (Hcnt : sequence_counter (self w') = sequence_counter (self w)).
    { revert Hrun.
      unfold _cleanup_old_violation_timestamps, bind, modify_self, get_self, set_self, now, ret.
      cbn -[Z.ltb seconds]. by intros [= <-]. }
    rewrite Hrun. cbn [snd]. by rewrite Hcnt, Ha, Hc.
Qed.

Lemma sequence_ids_steps ss w : sequence_ids_unique w → sequence_ids_unique (run_steps ss w).
Proof.
  revert w. induction ss as [|s ss IH]; intros w Hw; cbn [run_steps]; [done|].
  by apply IH, sequence_ids_step.
Qed.

Lemma sequence_ids_fresh clock : sequence_ids_unique (new_world clock).
Proof.
  unfold sequence_ids_unique. cbn.
  split; [intros k s Hs; by rewrite lookup_empty in Hs|].
  split; [intros s Hs; by apply elem_of_nil in Hs|].
  split; [intros k1 k2 s1 s2 Hs; by rewrite lookup_empty in Hs|].
  split; [apply NoDup_nil_2|].
  intros k s Hs; by rewrite lookup_empty in Hs.
Qed.

(** X5.  Whatever frames a fresh detector has analysed, the sequences it
    holds, active or completed, carry pairwise different sequence ids, each
    of the form [seq_<n>] with [n] between 1 and [sequence_counter]. *)
Theorem sequence_ids_never_collide
    (allow_nearby : bool) (frames : list Frame) (clock : nat → Z) :
  sequence_ids_unique (analyze_frames allow_nearby frames (new_world clock)).
Proof. rewrite analyze_frames_steps. apply sequence_ids_steps, sequence_ids_fresh. Qed.

(** ** When an event is created *)

Local Open Scope Z_scope.

Lemma should_create_unrecorded d t k uses :
  sequence_violations d = ∅ → violation_timestamps d = ∅ →
  should_create_at d t k uses = negb uses.
Proof.
  intros Hsv Hts. unfold should_create_at. rewrite Hsv, Hts, !lookup_empty.
  by destruct uses.
Qed.

Lemma should_create_not_using d t k uses : should_create_at d t k uses = true → uses = false.
Proof.
  unfold should_create_at. destruct (sequence_violations d !! k); [done|].
  destruct (match violation_timestamps d !! k with Some _ => _ | None => _ end); [done|].
  by destruct uses.
Qed.

(** X6.  On a detector that has only run the pipeline since its
    construction, a loop iteration appends an event exactly when it opens a
    sequence for a hand that is not using a scooper: the hand is in a
    scooper-requiring ROI, no sequence is open for its key, and the simple
    classifier answers no.  Every other step leaves the events as they
    are. *)
Theorem event_exactly_on_entry_without_scooper
    (clock : nat → Z) (ss : list step) (s : step) :
  (opens_without_scooper s (run_steps ss (new_world clock)) →
   ∃ em, emitted (after (run_step s) (run_steps ss (new_world clock)))
         = emitted (run_steps ss (new_world clock)) ++ [em])
  ∧ (¬ opens_without_scooper s (run_steps ss (new_world clock)) →
     emitted (after (run_step s) (run_steps ss (new_world clock)))
     = emitted (run_steps ss (new_world clock))).
Proof.
  destruct (fresh_detector_never_records clock ss) as [Hsv Hts].
  set (w := run_steps ss (new_world clock)) in *.
  split.
  - destruct s as [|a sc f i h aw r| |]; try done.
    intros (Hin & Hclosed & Huses).
    assert (Hk : active_sequences (self w) !! pair_key i aw r = None).
    { destruct (active_sequences (self w) !! pair_key i aw r) eqn:E; [|done].
      destruct Hclosed. unfold is_open. by rewrite E. }
    destruct (pair_entry_exact a sc f i h aw r w Hin Hk)
      as (w' & n & Hrun & _ & _ & _ & _ & Hcase).
    unfold after. cbn [run_step]. rewrite Hrun. cbn [snd].
    rewrite (should_create_unrecorded _ _ _ _ Hsv Hts), Huses in Hcase.
    destruct Hcase as (ev & He & _). by eexists.
  - intros Hnot.
    destruct (run_step_emitted s w)
      as [He|(a & sc & f & i & h & aw & r & ev & -> & Hin & Hk & Hneed & _)]; [done|].
    destruct Hnot. split; [done|]. split.
    + unfold is_open. rewrite Hk. by intros [? ?].
    + by apply should_create_not_using in Hneed.
Qed.

(** ** The events of a call *)

Lemma hand_steps_elem a sc f assoc rois start hands s :
  s ∈ hand_steps a sc f assoc rois start hands →
  ∃ i h r, s = StepPair a sc f i h (assoc !! i) r ∧ h ∈ hands ∧ r ∈ rois.
Proof.
  revert start. induction hands as [|hand hands IH]; intros start; cbn [hand_steps].
  - by intros ?%elem_of_nil.
  - intros [Hin|Hin]%elem_of_app.
    + apply list_elem_of_fmap in Hin as (roi & -> & Hroi).
      exists start, hand, roi. split; [done|]. split; [apply list_elem_of_here|done].
    + destruct (IH _ Hin) as (i & h & r & -> & Hh & Hr).
      exists i, h, r. split; [done|]. split; [by apply list_elem_of_further|done].
Qed.

(** Each event a step appends to [violations] is one of an iteration that
    found its hand in its ROI and not using a scooper. *)
Lemma step_violations_from (P : Emission → Prop) s w :
  (∀ a sc f i h aw r ev,
     s = StepPair a sc f i h aw r →
     in_scooper_roi h r = true →
     _is_hand_using_scooper_simple a h sc = false →
     ev_frame_id ev = f → ev_roi_name ev = name r →
     ev_confidence ev = confidence h → hand_center (evidence ev) = center h →
     P {| em_key := pair_key i aw r; em_hand := h; em_event := ev |}) →
  Forall P (violations w) →
  Forall P (violations (after (run_step s) w)).
Proof.
  intros HP Hok. unfold after.
  destruct s as [|a sc f i h aw r| |]; cbn [run_step].
  - constructor.
  - destruct (in_scooper_roi h r) eqn:Hin.
    + destruct (active_sequences (self w) !! pair_key i aw r) as [seq|] eqn:Hk.
      * by rewrite (pair_continue a sc f i h aw r w seq Hin Hk).
      * destruct (pair_entry_exact a sc f i h aw r w Hin Hk)
          as (w' & n & -> & _ & _ & _ & _ & Hcase). cbn [snd].
        destruct (should_create_at _ _ _ _) eqn:Hneed.
        -- destruct Hcase as (ev & _ & Hv & _ & _ & Hf & Hr & Hc & Hhc & _).
           rewrite Hv. apply Forall_app. split; [done|]. constructor; [|constructor].
           apply (HP a sc f i h aw r ev); try done.
           by apply should_create_not_using in Hneed.
        -- destruct Hcase as (_ & Hv & _). by rewrite Hv.
    + assert (Hx := pair_exit a sc f i h aw r w Hin).
      destruct (active_sequences (self w) !! pair_key i aw r).
      * destruct Hx as (w' & seq' & -> & _ & _ & _ & Hv & _). cbn [snd]. by rewrite Hv.
      * by rewrite Hx.
  - destruct (cleanup_sequences_spec w) as (w' & -> & _ & _ & _ & Hv & _). cbn [snd].
    by rewrite Hv.
  - destruct (cleanup_timestamps_spec w) as (w' & -> & _ & _ & _ & Hv & _). cbn [snd].
    by rewrite Hv.
Qed.

Lemma steps_violations_from (P : Emission → Prop) ss w :
  (∀ s a sc f i h aw r ev,
     s ∈ ss → s = StepPair a sc f i h aw r →
     in_scooper_roi h r = true →
     _is_hand_using_scooper_simple a h sc = false →
     ev_frame_id ev = f → ev_roi_name ev = name r →
     ev_confidence ev = confidence h → hand_center (evidence ev) = center h →
     P {| em_key := pair_key i aw r; em_hand := h; em_event := ev |}) →
  Forall P (violations w) →
  Forall P (violations (run_steps ss w)).
Proof.
  revert w. induction ss as [|s ss IH]; intros w HP Hok; cbn [run_steps]; [done|].
  apply IH.
  - intros s' a sc f i h aw r ev Hin. apply HP. by apply list_elem_of_further.
  - apply step_violations_from; [|done].
    intros a sc f i h aw r ev. apply HP. apply list_elem_of_here.
Qed.

(** X7.  An analysis call returns normally, and every event it returns is
    justified by the request: some hand detection of the frame is inside a
    scooper-requiring ROI of the request and the simple classifier finds it
    not using a scooper; the event carries the frame id of the call, the name
    of that ROI, and the confidence and center of that hand. *)
Theorem returned_events_justified
    (allow_nearby : bool) (detections : list Detection) (rois : list ROI)
    (fid : string) (w : World) :
  ∃ evs w',
    _detect_violations allow_nearby detections rois fid w = (Val evs, w')
    ∧ Forall (justified allow_nearby detections rois fid) evs.
Proof.
  eexists _, _. split; [apply detect_violations_steps|].
  apply Forall_fmap.
  unfold frame_steps. cbn [run_steps].
  apply steps_violations_from; [|constructor].
  intros s a sc f i h aw r ev [Hin|Hin]%elem_of_app Hs Hroi Huses Hf Hr Hc Hhc.
  - apply hand_steps_elem in Hin as (i' & h' & r' & Heq & Hh & Hr').
    rewrite Heq in Hs. injection Hs as <- <- <- <- <- <- <-.
    apply list_elem_of_In, List.filter_In in Hh as [Hh Hcls].
    apply list_elem_of_In in Hh.
    unfold in_scooper_roi in Hroi. apply andb_prop in Hroi as [Hreq Hinroi].
    exists h', r'. cbn [em_event]. done.
  - apply elem_of_cons in Hin as [->|Hin]; [done|].
    apply elem_of_cons in Hin as [->|Hin]; [done|]. by apply elem_of_nil in Hin.
Qed.

(** ** Sequence statistics *)

Local Open Scope Z_scope.

Lemma sum_bools_fold (l : list bool) (acc : Z) :
  fold_left (fun acc (b : bool) => acc + (if b then 1 else 0)) l acc
  = acc + Z.of_nat (length (List.filter (fun b => b) l)).
Proof.
  revert acc. induction l as [|b l IH]; intros acc; cbn [fold_left List.filter].
  - cbn. lia.
  - rewrite IH. destruct b; cbn [length]; lia.
Qed.

Lemma sum_bools_count (l : list bool) :
  sum_bools l = Z.of_nat (length (List.filter (fun b => b) l)).
Proof. unfold sum_bools. rewrite sum_bools_fold. lia. Qed.

Lemma count_le_length (l : list bool) :
  (length (List.filter (fun b => b) l) <= length l)%nat.
Proof. induction l as [|[] l IH]; cbn; lia. Qed.

(** The percentage [c / n * 100] against a threshold, for [n > 0]. *)
Lemma percentage_ge (c n t : Z) :
  0 < n →
  (inject_Z t <= inject_Z c / inject_Z n * 100)%Q ↔ t * n <= 100 * c.
Proof.
  intros Hn. destruct n as [|p|p]; try lia.
  unfold Qle, Qdiv, Qmult, Qinv, inject_Z. cbn.
  rewrite ?Pos.mul_1_r, ?Pos.mul_1_l, ?Z.mul_1_r. lia.
Qed.

Lemma percentage_le (c n t : Z) :
  0 < n →
  (inject_Z c / inject_Z n * 100 <= inject_Z t)%Q ↔ 100 * c <= t * n.
Proof.
  intros Hn. destruct n as [|p|p]; try lia.
  unfold Qle, Qdiv, Qmult, Qinv, inject_Z. cbn.
  rewrite ?Pos.mul_1_r, ?Pos.mul_1_l, ?Z.mul_1_r. lia.
Qed.

(** X8.  The usage percentage of a sequence lies between 0 and 100, and
    [was_scooper_used_properly] holds exactly when the sequence has at
    least one frame and the scooper was used in at least 7 out of every 10
    of its frames. *)
Theorem scooper_used_properly_threshold (s : ROISequence) :
  (0 <= get_scooper_usage_percentage s <= 100)%Q
  ∧ (was_scooper_used_properly s = true
     ↔ scooper_usage_frames s ≠ []
       ∧ (7 * length (scooper_usage_frames s)
          <= 10 * length (List.filter (fun b => b) (scooper_usage_frames s)))%nat).
Proof.
  unfold was_scooper_used_properly, get_scooper_usage_percentage.
  destruct (scooper_usage_frames s) as [|b l] eqn:E.
  - split; [split; done|]. split; [done|]. by intros [? _].
  - set (l' := b :: l). set (c := List.filter (fun b => b) l').
    assert (Hn : 0 < Z.of_nat (length l')) by (cbn; lia).
    assert (Hc := count_le_length l'). fold c in Hc.
    rewrite sum_bools_count. fold c. split; [split|].
    + change 0%Q with (inject_Z 0). apply percentage_ge; [done|]. lia.
    + change 100%Q with (inject_Z 100). apply percentage_le; [done|]. lia.
    + rewrite Qle_bool_iff. change 70%Q with (inject_Z 70).
      rewrite percentage_ge by done. split.
      * intros H. split; [done|]. lia.
      * intros [_ H]. lia.
Qed.

(** ** The simple classifier and the set of scoopers *)

Local Open Scope Q_scope.

Lemma Qle_bool_trans_lt (a b c : Q) : Qltb a b = true → Qle_bool b c = true → Qle_bool a c = true.
Proof.
  intros H1%Qltb_lt H2%Qle_bool_iff. apply Qle_bool_iff. apply Qlt_le_weak.
  by eapply Qlt_le_trans.
Qed.

(** Within a pixel threshold of the closest scooper is within the threshold
    of some scooper. *)
Lemma closest_within (hand : Detection) (c : Q) (scoopers : list Detection) (acc : dist) :
  dist_le_px
    (fold_left
       (fun closest_distance scooper =>
          let distance := _calculate_distance (center hand) (center scooper) in
          if dist_ltb distance closest_distance then distance else closest_distance)
       scoopers acc) c
  = dist_le_px acc c
    || existsb (fun s => Qle_bool (sq_distance (center hand) (center s)) (c * c)) scoopers.
Proof.
  revert acc. induction scoopers as [|s l IH]; intros acc; cbn [fold_left existsb].
  - by rewrite orb_false_r.
  - rewrite IH. cbv zeta. unfold _calculate_distance.
    destruct (dist_ltb (Root (sq_distance (center hand) (center s))) acc) eqn:Hlt.
    + destruct acc as [t|]; cbn [dist_le_px dist_ltb] in *.
      * destruct (Qle_bool t (c * c)) eqn:Ht.
        -- rewrite (Qle_bool_trans_lt _ _ _ Hlt Ht). done.
        -- by rewrite orb_false_l.
      * by rewrite orb_false_l.
    + destruct acc as [t|]; cbn [dist_le_px dist_ltb] in *; [|done].
      destruct (Qle_bool t (c * c)) eqn:Ht; [done|]. cbn [orb].
      destruct (Qle_bool (sq_distance (center hand) (center s)) (c * c)) eqn:Hs; [|done].
      exfalso. apply Qltb_ge in Hlt. apply Qle_bool_iff in Hs.
      assert (Qle_bool t (c * c) = true); [|congruence].
      apply Qle_bool_iff. by eapply Qle_trans.
Qed.

Lemma simple_classifier_exists allow hand scoopers :
  _is_hand_using_scooper_simple allow hand scoopers
  = existsb (fun s => Qle_bool (sq_distance (center hand) (center s)) (50 * 50)) scoopers
    || (allow
        && existsb (fun s => Qle_bool (sq_distance (center hand) (center s)) (100 * 100))
             scoopers).
Proof.
  unfold _is_hand_using_scooper_simple, closest_scooper.
  destruct scoopers as [|s l]; [by destruct allow|].
  rewrite !closest_within. cbn [dist_le_px orb].
  destruct (existsb _ (s :: l)); [done|]. cbn [orb].
  by destruct (existsb _ (s :: l)), allow.
Qed.

(** X9.  The answer of the simple classifier depends on the scoopers of
    the frame only as a set and grows with it: if every scooper of one
    list occurs in another and the hand is found using a scooper with the
    first list, it is with the second; and a hand found using a scooper with
    the fallback off is found using one with the fallback on. *)
Theorem simple_classifier_monotone
    (allow_nearby : bool) (hand : Detection) (scoopers scoopers' : list Detection) :
  scoopers ⊆ scoopers' →
  _is_hand_using_scooper_simple allow_nearby hand scoopers = true →
  _is_hand_using_scooper_simple allow_nearby hand scoopers' = true
  ∧ _is_hand_using_scooper_simple true hand scoopers' = true.
Proof.
  intros Hsub. rewrite !simple_classifier_exists.
  assert (Hex : ∀ c,
            existsb (fun s => Qle_bool (sq_distance (center hand) (center s)) (c * c)) scoopers
            = true →
            existsb (fun s => Qle_bool (sq_distance (center hand) (center s)) (c * c)) scoopers'
            = true).
  { intros c (s & Hs & Hc)%existsb_exists. apply existsb_exists. exists s.
    split; [|done]. apply list_elem_of_In, Hsub, list_elem_of_In, Hs. }
  intros [H|[Ha H]%andb_prop]%orb_prop.
  - rewrite (Hex _ H). done.
  - rewrite (Hex _ H), Ha. cbn. rewrite !orb_true_r. done.
Qed.

(** ** Parsed ROIs *)

Local Open Scope Q_scope.









Lemma coordinates_read (coordinates : list (list Q)) :
  Forall (fun coord => (2 <= length coord)%nat) coordinates →
  ∃ vs, mapM (fun coord => coord !! 0%nat) coordinates = Some vs.*1
        ∧ mapM (fun coord => coord !! 1%nat) coordinates = Some vs.*2
        ∧ mapM (fun coord => cx ← coord !! 0%nat; cy ← coord !! 1%nat; Some (at_xy cx cy))
               coordinates = Some (map to_pos vs)
        ∧ length vs = length coordinates.
Proof.
  induction 1 as [|c cs Hc _ (vs & H0 & H1 & Hp & Hl)].
  - by exists [].
  - destruct c as [|cx [|cy c]]; cbn in Hc; try lia.
    exists ((cx, cy) :: vs). cbn. rewrite H0, H1, Hp, Hl. done.
Qed.

Lemma parse_roi_fails (data : RawROI) :
  parse_roi data = None
  ↔ raw_name data = None
    ∨ ((4 <= length (default [] (raw_coordinates data)))%nat
       ∧ ∃ coord, coord ∈ default [] (raw_coordinates data) ∧ (length coord < 2)%nat).
Proof.
  unfold parse_roi.
  set (coordinates := default [] (raw_coordinates data)).
  destruct (4 <=? length coordinates)%nat eqn:Hlen.
  - apply Nat.leb_le in Hlen.
    destruct (decide (Forall (fun coord => (2 <= length coord)%nat) coordinates)) as [Hall|Hex].
    + destruct (coordinates_read coordinates Hall) as (vs & -> & -> & -> & Hl).
      cbn [mbind option_bind].
      destruct vs as [|v vs]; [cbn in Hl; lia|].
      cbn [fmap list_fmap list_min list_max mbind option_bind].
      destruct (raw_name data); cbn [mbind option_bind].
      * split; [done|]. intros [?|(_ & coord & Hin & Hshort)]; [done|].
        rewrite Forall_forall in Hall. specialize (Hall coord Hin). lia.
      * split; [by left|done].
    + apply not_Forall_Exists in Hex; [|intros c; apply _].
      apply Exists_exists in Hex as (coord & Hin & Hshort). cbn in Hshort.
      split; [intros _; right; split; [done|]; exists coord; split; [done|lia]|].
      intros _.
      destruct (mapM (fun coord => coord !! 0%nat) coordinates) as [xs|] eqn:Ex; [|done].
      destruct (mapM (fun coord => coord !! 1%nat) coordinates) as [ys|] eqn:Ey; [|done].
      exfalso. apply mapM_Some in Ex, Ey.
      apply list_elem_of_lookup in Hin as [n Hn].
      destruct (Forall2_lookup_l _ _ _ _ _ Ey Hn) as (cy & _ & Hcy).
      apply lookup_lt_Some in Hcy. lia.
  - apply Nat.leb_gt in Hlen. cbn [mbind option_bind].
    destruct (raw_name data); cbn [mbind option_bind].
    + split; [done|]. intros [?|(? & _)]; [done|lia].
    + split; [by left|done].
Qed.

Lemma parse_roi_keeps (data : RawROI) (roi : ROI) :
  parse_roi data = Some roi →
  raw_name data = Some (name roi)
  ∧ shape roi = default "rectangle"%string (raw_shape data)
  ∧ ingredient_type roi = default "unknown"%string (raw_ingredient_type data)
  ∧ requires_scooper roi = default true (raw_requires_scooper data).
Proof.
  unfold parse_roi.
  destruct (if (4 <=? length (default [] (raw_coordinates data)))%nat then _ else _)
    as [[[[[vx vy] vw] vh] vp]|]; [|done].
  cbn [mbind option_bind]. destruct (raw_name data); [|done].
  cbn [mbind option_bind]. by intros [= <-].
Qed.

(** X12.  [_parse_rois] fails exactly when some ROI dict has no name, or
    has a coordinates array of at least four entries one of which holds
    fewer than two numbers; when it succeeds it returns one ROI per dict, in
    order, with the dict's name, and with the shape ["rectangle"], the
    ingredient type ["unknown"] and [requires_scooper = True] where the
    dict is silent. *)
Theorem parse_rois_failure_and_defaults (roi_data : list RawROI) :
  (_parse_rois roi_data = None
   ↔ ∃ data, data ∈ roi_data
       ∧ (raw_name data = None
          ∨ ((4 <= length (default [] (raw_coordinates data)))%nat
             ∧ ∃ coord, coord ∈ default [] (raw_coordinates data)
                        ∧ (length coord < 2)%nat)))
  ∧ ∀ rois, _parse_rois roi_data = Some rois →
      Forall2 (fun data roi =>
                 raw_name data = Some (name roi)
                 ∧ shape roi = default "rectangle"%string (raw_shape data)
                 ∧ ingredient_type roi = default "unknown"%string (raw_ingredient_type data)
                 ∧ requires_scooper roi = default true (raw_requires_scooper data))
              roi_data rois.
Proof.
  unfold _parse_rois. split.
  - rewrite mapM_None, Exists_exists. split.
    + intros (data & Hin & Hfail). exists data. split; [done|]. by apply parse_roi_fails.
    + intros (data & Hin & Hfail). exists data. split; [done|]. by apply parse_roi_fails.
  - intros rois Hrois. apply mapM_Some in Hrois.
    eapply Forall2_impl; [exact Hrois|]. intros data roi. apply parse_roi_keeps.
Qed.

(** ** Frame ids *)

Local Open Scope Z_scope.

Lemma split_on_length sep s : length (split_on sep s) = S (count_char sep s).
Proof.
  induction s as [|c s IH]; cbn [split_on count_char]; [done|].
  destruct (Ascii.eqb c sep); cbn [length]; [by rewrite IH|].
  destruct (split_on sep s); cbn in *; lia.
Qed.

Lemma split_on_no_sep sep s : count_char sep s = 0%nat → split_on sep s = [s].
Proof.
  induction s as [|c s IH]; cbn [split_on count_char]; [done|].
  destruct (Ascii.eqb c sep); [done|]. intros H. by rewrite IH.
Qed.

Lemma split_on_app sep a b :
  count_char sep a = 0%nat →
  split_on sep (a +:+ String sep b) = a :: split_on sep b.
Proof.
  induction a as [|c a IH]; cbn [count_char].
  - intros _. change (EmptyString +:+ String sep b) with (String sep b).
    cbn [split_on]. by rewrite Ascii.eqb_refl.
  - change (String c a +:+ String sep b) with (String c (a +:+ String sep b)).
    cbn [split_on]. destruct (Ascii.eqb c sep); [done|]. intros H. by rewrite IH.
Qed.

(** The first field of a split has no separator, and the string is this
    field, followed, if there is more, by the separator. *)
Lemma split_on_head sep s :
  ∃ field fields,
    split_on sep s = field :: fields
    ∧ count_char sep field = 0%nat
    ∧ (s = field ∨ ∃ rest, s = field +:+ String sep rest).
Proof.
  induction s as [|c s (field & fields & Hs & Hf & Hrest)]; cbn [split_on].
  - exists EmptyString, []. split; [done|]. split; [done|]. by left.
  - destruct (Ascii.eqb_spec c sep) as [->|Hne].
    + exists EmptyString, (split_on sep s). split; [done|]. split; [done|].
      right. by exists s.
    + rewrite Hs. exists (String c field), fields. split; [done|]. split.
      * cbn [count_char]. apply Ascii.eqb_neq in Hne. by rewrite Hne.
      * destruct Hrest as [->|(rest & ->)]; [by left|]. right. by exists rest.
Qed.

Lemma digits_no_underscore s : all_digits s = true → count_char "_" s = 0%nat.
Proof.
  induction s as [|c s IH]; cbn [all_digits count_char]; [done|].
  intros [Hc Hs]%andb_prop. rewrite (IH Hs).
  destruct (Ascii.eqb_spec c "_") as [->|_]; [done|done].
Qed.

Lemma digit_not_space c : is_digit c = true → is_space c = false.
Proof.
  unfold is_digit, is_space. intros [H1 H2]%andb_prop.
  apply Nat.leb_le in H1, H2.
  repeat match goal with
         | |- context [(?a <=? ?b)%nat] => destruct (Nat.leb_spec a b)
         end; cbn; try done; lia.
Qed.

Lemma lstrip_digits s : all_digits s = true → lstrip s = s.
Proof.
  destruct s as [|c s]; [done|]. cbn. intros [Hc _]%andb_prop.
  by rewrite (digit_not_space c Hc).
Qed.

Lemma rstrip_digits s : all_digits s = true → rstrip s = s.
Proof.
  induction s as [|c s IH]; [done|]. cbn. intros [Hc Hs]%andb_prop.
  rewrite (IH Hs), (digit_not_space c Hc). by destruct s.
Qed.

(** A string of digits is read as such by [int]. *)
Lemma py_int_digits s :
  all_digits s = true → py_int s = int_digits s false 0.
Proof.
  intros Hs. unfold py_int. rewrite (lstrip_digits s Hs), (rstrip_digits s Hs).
  destruct s as [|c s]; [done|].
  cbn in Hs. apply andb_prop in Hs as [Hc _].
  destruct c as [[] [] [] [] [] [] [] []]; try done.
Qed.

Lemma pretty_N_char_value x :
  (x < 10)%N → digit_value (pretty_N_char x) = Z.of_N x.
Proof.
  intros Hx.
  assert (x = 0 ∨ x = 1 ∨ x = 2 ∨ x = 3 ∨ x = 4 ∨ x = 5 ∨ x = 6 ∨ x = 7 ∨ x = 8 ∨ x = 9)%N
    as Hcases by lia.
  repeat (destruct Hcases as [->|Hcases]; [done|]). by subst.
Qed.

Lemma int_digits_pretty_go (x : N) :
  (0 < x)%N →
  ∃ k : nat, ∀ s b acc,
    int_digits (pretty_N_go x s) b acc
    = int_digits s true (acc * 10 ^ Z.of_nat k + Z.of_N x).
Proof.
  induction (N.lt_wf_0 x) as [x _ IH]. intros Hx.
  assert (Hmod : (x `mod` 10 < 10)%N) by (by apply N.mod_lt).
  assert (Hdiv : x = (10 * (x `div` 10) + x `mod` 10)%N) by (by apply N.div_mod).
  assert ((x `div` 10 = 0)%N ∨ (0 < x `div` 10)%N) as [H0|Hpos] by lia.
  - exists 1%nat. intros s b acc. rewrite pretty_N_go_step by done.
    rewrite H0, pretty_N_go_0. cbn [int_digits].
    rewrite pretty_N_char_digit, pretty_N_char_value by done.
    f_equal. change (10 ^ Z.of_nat 1) with 10. lia.
  - destruct (IH (x `div` 10)%N) as (k & Hk); [by apply N.div_lt|done|].
    exists (S k). intros s b acc. rewrite pretty_N_go_step by done.
    rewrite Hk. cbn [int_digits].
    rewrite pretty_N_char_digit, pretty_N_char_value by done.
    f_equal. rewrite Nat2Z.inj_succ, Z.pow_succ_r by lia. lia.
Qed.

Lemma py_int_pretty (n : nat) : py_int (pretty n) = Some (Z.of_nat n).
Proof.
  rewrite py_int_digits by apply pretty_nat_digits.
  unfold pretty, pretty_nat, pretty, pretty_N.
  case_decide as Hn.
  - assert (n = 0%nat) as -> by lia. done.
  - destruct (int_digits_pretty_go (N.of_nat n)) as (k & Hk); [lia|].
    rewrite Hk. cbn [int_digits]. f_equal. lia.
Qed.

Lemma reader_frame_id_split (source_path : string) (frame_count timestamp : nat) :
  count_char "_" source_path = 0%nat →
  split_on "_" (reader_frame_id source_path frame_count timestamp)
  = [source_path; pretty frame_count; pretty timestamp].
Proof.
  intros Hp. unfold reader_frame_id.
  change ("_" +:+ pretty frame_count +:+ "_" +:+ pretty timestamp)
    with (String "_" (pretty frame_count +:+ String "_" (pretty timestamp))).
  rewrite split_on_app by done.
  rewrite split_on_app by apply digits_no_underscore, pretty_nat_digits.
  rewrite split_on_no_sep by apply digits_no_underscore, pretty_nat_digits.
  done.
Qed.

(** X13.  On a frame id built by the frame reader from a source path
    without underscore, a frame count and a timestamp, the three extractors
    give back the source path, the frame count, and the session name made
    of the path's last component without [.mp4]; and the source path is
    given back only if it has no underscore. *)
Theorem reader_frame_id_round_trip (source_path : string) (frame_count timestamp : nat) :
  (count_char "_" source_path = 0%nat →
   _extract_frame_path (reader_frame_id source_path frame_count timestamp) = source_path
   ∧ _extract_frame_number (reader_frame_id source_path frame_count timestamp)
     = Z.of_nat frame_count
   ∧ _extract_session_id (reader_frame_id source_path frame_count timestamp)
     = "session_" +:+ remove_all ".mp4" (List.last (split_on "/" source_path) EmptyString))
  ∧ (_extract_frame_path (reader_frame_id source_path frame_count timestamp) = source_path →
     count_char "_" source_path = 0%nat).
Proof.
  split.
  - intros Hp. unfold _extract_frame_path, _extract_frame_number, _extract_session_id.
    rewrite (reader_frame_id_split _ _ _ Hp). cbn [length Nat.leb List.nth].
    rewrite py_int_pretty. done.
  - unfold _extract_frame_path. intros <-.
    destruct (split_on_head "_" (reader_frame_id source_path frame_count timestamp))
      as (field & fields & -> & Hf & _).
    done.
Qed.

(** X14.  For every frame id, the extracted frame path has no underscore
    and is the frame id up to its first underscore; the session id is
    ["default_session"] exactly when the frame id has fewer than two
    underscores; and the frame number of a frame id without underscore
    is 0. *)
Theorem frame_id_fields (frame_id : string) :
  count_char "_" (_extract_frame_path frame_id) = 0%nat
  ∧ (frame_id = _extract_frame_path frame_id
     ∨ ∃ rest, frame_id = _extract_frame_path frame_id +:+ String "_" rest)
  ∧ (_extract_session_id frame_id = "default_session"%string
     ↔ (count_char "_" frame_id < 2)%nat)
  ∧ (count_char "_" frame_id = 0%nat → _extract_frame_number frame_id = 0).
Proof.
  unfold _extract_frame_path, _extract_session_id, _extract_frame_number.
  rewrite split_on_length.
  destruct (split_on_head "_" frame_id) as (field & fields & Hs & Hf & Hrest).
  rewrite Hs. cbn [Nat.leb List.nth].
  split; [done|]. split; [done|]. split.
  - destruct (count_char "_" frame_id) as [|[|n]]; cbn; split; try done; try lia.
  - intros ->. done.
Qed.

(** ** Worker tracking *)

Local Open Scope Z_scope.


Lemma deque_append_length {A} (n : nat) (q : list A) (a : A) :
  (length (deque_append n q a) <= n)%nat.
Proof. unfold deque_append. rewrite length_drop. lia. Qed.

Lemma deque_extend_length {A} (n : nat) (q l : list A) :
  (length q <= n)%nat → (length (deque_extend n q l) <= n)%nat.
Proof.
  unfold deque_extend. revert q. induction l as [|a l IH]; intros q Hq; cbn [fold_left]; [done|].
  apply IH, deque_append_length.
Qed.

Lemma deque_append_complete (q : list HandPosition) (hp : HandPosition) :
  Forall (fun hp => is_Some (pos_xy (hp_position hp))) q →
  is_Some (pos_xy (hp_position hp)) →
  Forall (fun hp => is_Some (pos_xy (hp_position hp))) (deque_append 20 q hp).
Proof.
  intros Hq Hhp. unfold deque_append. apply Forall_drop, Forall_app. split; [done|].
  by constructor.
Qed.

Lemma analyze_movement_returns (self : WorkerTracker) :
  positions_complete self → is_Some (_analyze_movement self).
Proof.
  intros Hc. unfold _analyze_movement.
  destruct (length (hand_positions self) <? 3)%nat; [by eexists|].
  assert (Hm : is_Some (mapM (fun hp => pos_xy (hp_position hp))
                          (last_n 5 (hand_positions self)))).
  { apply mapM_is_Some. unfold last_n. by apply Forall_drop. }
  destruct Hm as [pts ->]. cbn [mbind option_bind].
  repeat case_match; by eexists.
Qed.

(** What [update] does: it reads the clock once and never loses the
    bounds; on complete positions it returns normally. *)
Lemma update_spec (self : WorkerTracker) (detections : list Detection) (fid : string) w :
  ∃ tracker out,
    update self detections fid w = (Val (tracker, out), snd (now w))
    ∧ last_seen tracker = clock w (reads w)
    ∧ (within_bounds self → within_bounds tracker)
    ∧ (positions_complete self →
       (∀ d, d ∈ detections → class_name d = "hand"%string → is_Some (pos_xy (center d))) →
       out = Returned ∧ positions_complete tracker).
Proof.
  unfold update, bind, now, ret. cbn [fst snd].
  destruct (List.filter (fun d => String.eqb (class_name d) "hand") detections)
    as [|hand hands] eqn:Hf.
  - eexists _, _. split; [reflexivity|]. split; [done|]. split.
    + intros [H1 H2]. split; [done|]. by apply deque_extend_length.
    + intros Hc _. done.
  - set (self' := with_hand_positions _ _).
    assert (Hhand : hand ∈ detections ∧ class_name hand = "hand"%string).
    { assert (Hin : List.In hand (List.filter (fun d => String.eqb (class_name d) "hand")
                                      detections)) by (rewrite Hf; by left).
      apply List.filter_In in Hin as [Hin Hcls]. apply String.eqb_eq in Hcls.
      split; [by apply list_elem_of_In|done]. }
    destruct (_analyze_movement self') as [action|] eqn:Ha.
    + eexists _, _. split; [reflexivity|]. split; [done|]. split.
      * intros [H1 H2]. split; [apply deque_append_length|].
        by apply deque_extend_length.
      * intros Hc Hall. split; [done|].
        apply deque_append_complete; [done|]. apply Hall; by destruct Hhand.
    + eexists _, _. split; [reflexivity|]. split; [done|]. split.
      * intros [H1 H2]. split; [apply deque_append_length|done].
      * intros Hc Hall. exfalso.
        assert (Hc' : positions_complete self').
        { apply deque_append_complete; [done|]. apply Hall; by destruct Hhand. }
        destruct (analyze_movement_returns self' Hc') as [? ?]. congruence.
Qed.

Lemma now_clock w : clock (snd (now w)) = clock w ∧ reads (snd (now w)) = S (reads w).
Proof. done. Qed.

Lemma worker_id_inj (i j : nat) :
  ("worker_" +:+ pretty i)%string = ("worker_" +:+ pretty j)%string → i = j.
Proof. intros Heq. cbn in Heq. injection Heq as Heq. by apply (inj pretty). Qed.

(** The loop over the persons: it keeps the bounds of every tracker; on
    complete positions it returns normally, and then every person handled
    has a tracker last seen at a clock reading taken by the loop. *)
Lemma update_persons_spec (all_detections : list Detection) (fid : string)
    (persons : list Detection) :
  ∀ (i : nat) (workers : gmap string WorkerTracker) w,
  ∃ ws out w',
    update_persons all_detections fid i persons workers w = (Val (ws, out), w')
    ∧ clock w' = clock w
    ∧ (reads w <= reads w')%nat
    ∧ ((∀ id wt, workers !! id = Some wt → within_bounds wt) →
       ∀ id wt, ws !! id = Some wt → within_bounds wt)
    ∧ (∀ id wt, ws !! id = Some wt →
         workers !! id = Some wt
         ∨ ∃ n, (reads w <= n < reads w')%nat ∧ last_seen wt = clock w n)
    ∧ (∀ id, is_Some (workers !! id) → is_Some (ws !! id))
    ∧ ((∀ id wt, workers !! id = Some wt → positions_complete wt) →
       (∀ d, d ∈ all_detections → class_name d = "hand"%string →
             is_Some (pos_xy (center d))) →
       (∀ p, p ∈ persons → p ∈ all_detections) →
       out = Returned
       ∧ (∀ id wt, ws !! id = Some wt → positions_complete wt)
       ∧ ∀ j, (i <= j < i + length persons)%nat →
           ∃ wt n, ws !! ("worker_" +:+ pretty j)%string = Some wt
                   ∧ (reads w <= n < reads w')%nat ∧ last_seen wt = clock w n).
Proof.
  induction persons as [|person rest IH]; intros i workers w; cbn [update_persons].
  - exists workers, Returned, w. split; [done|]. split; [done|]. split; [done|].
    split; [done|]. split; [by left|]. split; [done|].
    intros Hc _ _. split; [done|]. split; [done|].
    intros j Hj. cbn in Hj. lia.
  - set (wid := ("worker_" +:+ pretty i)%string).
    set (got := match workers !! wid with
                | Some tracker => ret tracker
                | None => let* t := now in ret (new_WorkerTracker wid t)
                end).
    assert (Hgot : ∃ tracker w1,
              got w = (Val tracker, w1)
              ∧ clock w1 = clock w ∧ (reads w <= reads w1 <= S (reads w))%nat
              ∧ ((∀ id wt, workers !! id = Some wt → within_bounds wt) → within_bounds tracker)
              ∧ ((∀ id wt, workers !! id = Some wt → positions_complete wt) →
                 positions_complete tracker)).
    { unfold got. destruct (workers !! wid) as [tracker|] eqn:E.
      - exists tracker, w. split; [done|]. split; [done|]. split; [lia|].
        split; intros H; by apply (H wid).
      - eexists _, _. split; [reflexivity|]. cbn. split; [done|]. split; [lia|].
        split; intros _; [split; cbn; lia|constructor]. }
    destruct Hgot as (tracker & w1 & Hgot & Hc1 & Hr1 & Hb1 & Hp1).
    unfold bind at 1. rewrite Hgot.
    destruct (update_spec tracker (_find_associated_detections person all_detections) fid w1)
      as (tracker' & out & Hup & Hls & Hb2 & Hp2).
    unfold bind at 1. rewrite Hup. cbn [fst snd].
    destruct (now_clock w1) as [Hc2 Hr2].
    set (w2 := snd (now w1)) in *.
    assert (Hins : ∀ id wt, <[wid := tracker']> workers !! id = Some wt →
              (id = wid ∧ wt = tracker') ∨ (id ≠ wid ∧ workers !! id = Some wt)).
    { intros id wt. destruct (decide (wid = id)) as [<-|Hne].
      - rewrite lookup_insert_eq. intros [= <-]. by left.
      - rewrite lookup_insert_ne by done. intros H. by right. }
    assert (Hassoc : (∀ d, d ∈ all_detections → class_name d = "hand"%string →
                           is_Some (pos_xy (center d))) →
                     person ∈ all_detections →
                     ∀ d, d ∈ _find_associated_detections person all_detections →
                          class_name d = "hand"%string → is_Some (pos_xy (center d))).
    { intros Hdets Hperson d Hd Hcls. apply Hdets; [|done].
      unfold _find_associated_detections in Hd.
      apply elem_of_cons in Hd as [->|Hd]; [done|].
      apply list_elem_of_In, List.filter_In in Hd as [Hd _].
      by apply list_elem_of_In. }
    destruct out.
    + destruct (IH (S i) (<[wid := tracker']> workers) w2)
        as (ws & out & w' & Hrun & Hc & Hr & Hb & Hseen & Hdom & Hp).
      exists ws, out, w'. split; [done|]. split; [congruence|]. split; [lia|].
      split; [|split; [|split]].
      * intros Hall. apply Hb. intros id wt [[_ ->]|[_ Hold]]%Hins; [|by eapply Hall].
        by apply Hb2, Hb1.
      * intros id wt Hs. destruct (Hseen id wt Hs) as [Hold|(n & Hn & Hl)].
        -- apply Hins in Hold as [[_ ->]|[_ Hold]]; [|by left].
           right. exists (reads w1). split; [lia|]. by rewrite Hls, Hc1.
        -- right. exists n. split; [lia|]. by rewrite Hl, Hc2, Hc1.
      * intros id [wt Hid]. apply Hdom.
        destruct (decide (wid = id)) as [<-|Hne].
        -- rewrite lookup_insert_eq. by eexists.
        -- rewrite lookup_insert_ne by done. by eexists.
      * intros Hall Hdets Hpers.
        assert (Hperson : person ∈ all_detections) by (apply Hpers, list_elem_of_here).
        destruct (Hp2 (Hp1 Hall) (Hassoc Hdets Hperson)) as [_ Hcomp'].
        destruct Hp as (-> & Hcomp & Hworkers).
        { intros id wt [[_ ->]|[_ Hold]]%Hins; [done|by eapply Hall]. }
        { done. }
        { intros p0 Hp0. by apply Hpers, list_elem_of_further. }
        split; [done|]. split; [done|].
        intros j Hj. cbn [length] in Hj.
        destruct (decide (j = i)) as [->|Hne].
        -- destruct (Hdom wid) as [wt Hwt]; [rewrite lookup_insert_eq; by eexists|].
           exists wt. destruct (Hseen wid wt Hwt) as [Hold|(n & Hn & Hl)].
           ++ rewrite lookup_insert_eq in Hold. injection Hold as <-.
              exists (reads w1). split; [done|]. split; [lia|]. by rewrite Hls, Hc1.
           ++ exists n. split; [done|]. split; [lia|]. by rewrite Hl, Hc2, Hc1.
        -- destruct (Hworkers j) as (wt & n & Hwt & Hn & Hl); [lia|].
           exists wt, n. split; [done|]. split; [lia|]. by rewrite Hl, Hc2, Hc1.
    + exists (<[wid := tracker']> workers), RaisedKeyError, w2.
      split; [done|]. split; [congruence|]. split; [lia|].
      split; [|split; [|split]].
      * intros Hall id wt [[_ ->]|[_ Hold]]%Hins; [|by eapply Hall].
        by apply Hb2, Hb1.
      * intros id wt [[_ ->]|[_ Hold]]%Hins; [|by left].
        right. exists (reads w1). split; [lia|]. by rewrite Hls, Hc1.
      * intros id [wt Hid]. destruct (decide (wid = id)) as [<-|Hne].
        -- rewrite lookup_insert_eq. by eexists.
        -- rewrite lookup_insert_ne by done. by eexists.
      * intros Hall Hdets Hpers.
        assert (Hperson : person ∈ all_detections) by (apply Hpers, list_elem_of_here).
        by destruct (Hp2 (Hp1 Hall) (Hassoc Hdets Hperson)).
Qed.

Lemma update_workers_spec (detections : list Detection) (fid : string)
    (workers : gmap string WorkerTracker) w :
  ∃ ws out w',
    _update_workers detections fid workers w = (Val (ws, out), w')
    ∧ clock w' = clock w
    ∧ ((∀ id wt, workers !! id = Some wt → within_bounds wt) →
       ∀ id wt, ws !! id = Some wt → within_bounds wt)
    ∧ ((∀ id wt, workers !! id = Some wt → positions_complete wt) →
       (∀ d, d ∈ detections → class_name d = "hand"%string →
             is_Some (pos_xy (center d))) →
       out = Returned
       ∧ (reads w < reads w')%nat
       ∧ (∀ id wt, ws !! id = Some wt →
            positions_complete wt
            ∧ clock w (reads w' - 1) - last_seen wt <= seconds 30)
       ∧ (monotone (clock w) →
          clock w (reads w' - 1) - clock w (reads w) <= seconds 30 →
          ∀ j, (j < length (List.filter (fun d => String.eqb (class_name d) "person")
                                       detections))%nat →
               is_Some (ws !! ("worker_" +:+ pretty j)%string))).
Proof.
  unfold _update_workers.
  set (persons := List.filter (fun d => String.eqb (class_name d) "person") detections).
  destruct (update_persons_spec detections fid persons 0 workers w)
    as (ws & out & w1 & Hrun & Hc & Hr & Hb & Hseen & Hdom & Hp).
  unfold bind at 1. rewrite Hrun. cbn [fst snd].
  destruct out.
  - unfold bind, now, ret. cbn [fst snd].
    eexists _, _, _. split; [reflexivity|]. cbn [clock reads]. rewrite Hc.
    assert (Hlook : ∀ id wt,
              delete_keys
                (stale_keys (fun worker => seconds 30 <? clock w (reads w1) - last_seen worker)
                            ws) ws !! id = Some wt →
              ws !! id = Some wt
              ∧ (seconds 30 <? clock w (reads w1) - last_seen wt) = false).
    { intros id wt. rewrite janitor_lookup. destruct (ws !! id) as [wt0|]; [|done].
      destruct (seconds 30 <? clock w (reads w1) - last_seen wt0) eqn:E; [done|].
      by intros [= <-]. }
    split; [done|]. split.
    + intros Hall id wt [Hs _]%Hlook. by eapply Hb.
    + intros Hall Hdets. destruct (Hp Hall Hdets) as (_ & Hcomp & Hworkers).
      { intros p0 Hp0. apply list_elem_of_In, List.filter_In in Hp0 as [Hp0 _].
        by apply list_elem_of_In. }
      split; [done|]. split; [lia|].
      replace (S (reads w1) - 1)%nat with (reads w1) by lia.
      split.
      * intros id wt [Hs Hfresh]%Hlook. split; [by eapply Hcomp|].
        by apply Z.ltb_ge in Hfresh.
      * intros Hmono Hquick j Hj.
        destruct (Hworkers j) as (wt & n & Hwt & Hn & Hl); [lia|].
        exists wt. rewrite janitor_lookup, Hwt.
        assert (clock w (reads w) <= clock w n) by (apply Hmono; lia).
        destruct (seconds 30 <? clock w (reads w1) - last_seen wt) eqn:E; [|done].
        apply Z.ltb_lt in E. lia.
  - unfold ret. eexists _, _, _. split; [reflexivity|]. split; [done|]. split; [done|].
    intros Hall Hdets. destruct (Hp Hall Hdets) as (Hout & _); [|done].
    intros p0 Hp0. apply list_elem_of_In, List.filter_In in Hp0 as [Hp0 _].
    by apply list_elem_of_In.
Qed.

(** X16.  Whatever frames have been through [_update_workers] since the
    detector was constructed, each call returns to its caller or raises the
    [KeyError] of a hand position, and no tracker ever holds more than 20
    hand positions or more than 50 detections. *)
Theorem worker_trackers_bounded (frames : list Frame) (w : World) :
  ∃ ws w',
    track_frames frames ∅ w = (Val ws, w')
    ∧ ∀ id wt, ws !! id = Some wt →
        (length (hand_positions wt) <= 20)%nat
        ∧ (length (detection_history wt) <= 50)%nat.
Proof.
  assert (H : ∀ workers w,
            (∀ id wt, workers !! id = Some wt → within_bounds wt) →
            ∃ ws w', track_frames frames workers w = (Val ws, w')
                     ∧ ∀ id wt, ws !! id = Some wt → within_bounds wt).
  { induction frames as [|f rest IH]; intros workers w0 Hall; cbn [track_frames].
    - by exists workers, w0.
    - destruct (update_workers_spec (fr_detections f) (fr_id f) workers w0)
        as (ws & out & w1 & Hrun & _ & Hb & _).
      unfold bind. rewrite Hrun. cbn [fst]. apply IH. by apply Hb. }
  apply H. intros id wt Hid. by rewrite lookup_empty in Hid.
Qed.


(** *** The action of a worker *)






(** ** Sequence keys *)

Lemma append_cons (c : ascii) (a b : string) : String c a +:+ b = String c (a +:+ b).
Proof. done. Qed.

Lemma append_assoc (a b c : string) : (a +:+ b) +:+ c = a +:+ (b +:+ c).
Proof. induction a as [|x a IH]; [done|]. by rewrite !append_cons, IH. Qed.

(** The key of an iteration, spelled out: the hand index, the worker when
    there is one, the ROI name. *)
Lemma pair_key_spelled (i : nat) (aw : option nat) (roi : ROI) :
  pair_key i aw roi
  = "hand_" +:+ pretty i
    +:+ String "_" (match truthy aw with
                    | Some w => "worker_" +:+ pretty w +:+ String "_" (name roi)
                    | None => name roi
                    end).
Proof.
  unfold pair_key, sequence_key_of, hand_id_of.
  destruct (truthy aw) as [w|]; rewrite ?append_assoc; reflexivity.
Qed.

(** X19.  When no ROI name begins with [worker_], the sequence key of a
    loop iteration determines the hand index, the associated worker (if
    any) and the ROI name: two iterations that differ in one of them work on
    different sequences. *)
Theorem sequence_keys_separate (i i' : nat) (aw aw' : option nat) (roi roi' : ROI) :
  String.prefix "worker_" (name roi) = false →
  String.prefix "worker_" (name roi') = false →
  pair_key i aw roi = pair_key i' aw' roi' →
  i = i' ∧ truthy aw = truthy aw' ∧ name roi = name roi'.
Proof.
  intros Hr Hr'. rewrite !pair_key_spelled. intros Heq.
  rewrite !append_cons in Heq. injection Heq as Heq.
  apply digits_underscore in Heq as [Hi Heq]; try apply pretty_nat_digits.
  apply (inj pretty) in Hi as <-. split; [done|].
  destruct (truthy aw) as [w|], (truthy aw') as [w'|].
  - rewrite !append_cons in Heq. injection Heq as Heq.
    apply digits_underscore in Heq as [Hw Heq]; try apply pretty_nat_digits.
    apply (inj pretty) in Hw as <-. done.
  - rewrite <- Heq in Hr'. rewrite !append_cons in Hr'. cbn in Hr'.
    by destruct (_ +:+ _) in Hr'.
  - rewrite Heq in Hr. rewrite !append_cons in Hr. cbn in Hr.
    by destruct (_ +:+ _) in Hr.
  - done.
Qed.

(** ** Hand trackers *)

Local Open Scope Z_scope.

Lemma last_n_length {A} (n : nat) (l : list A) :
  (n <= length l)%nat → length (last_n n l) = n.
Proof. intros H. unfold last_n. rewrite length_drop. lia. Qed.

(** X21.  [add_position] keeps a hand tracker well formed: as many
    timestamps as positions, at most ten of them, the newest position last,
    and every ROI name recorded once, the empty name never; it reads the
    clock twice and sets [last_seen] to the second reading. *)
Theorem add_position_keeps_tracker
    (self : HandTracker) (px py : Q) (roi_name : option string) (w : World) :
  hand_tracker_ok self →
  ∃ self',
    add_position self px py roi_name w = (Val self', snd (now (snd (now w))))
    ∧ hand_tracker_ok self'
    ∧ last (positions self') = Some (px, py)
    ∧ ht_last_seen self' = clock w (S (reads w))
    ∧ ∀ r, r ∈ roi_entries self'
           ↔ r ∈ roi_entries self ∨ (roi_name = Some r ∧ r ≠ EmptyString).
Proof.
  intros (Hlen & Hten & Hnd & Hne).
  unfold add_position, bind, now, ret. cbn [fst snd clock reads].
  set (entries :=
         match roi_name with
         | Some roi_name =>
             if (negb (String.eqb roi_name "")
                 && negb (bool_decide (roi_name ∈ roi_entries self)))%bool
             then roi_entries self ++ [roi_name]
             else roi_entries self
         | None => roi_entries self
         end).
  assert (Hentries : NoDup entries ∧ (EmptyString ∉ entries)
                     ∧ ∀ r, r ∈ entries
                            ↔ r ∈ roi_entries self ∨ (roi_name = Some r ∧ r ≠ EmptyString)).
  { unfold entries. destruct roi_name as [nm|].
    - destruct (String.eqb_spec nm "") as [->|Hnm]; cbn [negb andb].
      + split; [done|]. split; [done|]. intros r. split; [by left|].
        intros [Hr|[Heq Hr]]; [done|]. by injection Heq as <-.
      + destruct (bool_decide (nm ∈ roi_entries self)) eqn:Hin; cbn [negb].
        * apply bool_decide_eq_true in Hin. split; [done|]. split; [done|].
          intros r. split; [by left|].
          intros [Hr|[Heq Hr]]; [done|]. by injection Heq as <-.
        * apply bool_decide_eq_false in Hin. split; [|split].
          -- apply NoDup_app. split; [done|]. split; [|apply NoDup_singleton].
             intros x Hx Hx'. apply list_elem_of_singleton in Hx'. by subst.
          -- intros Hx. apply elem_of_app in Hx as [Hx|Hx]; [done|].
             apply list_elem_of_singleton in Hx. by subst.
          -- intros r. rewrite elem_of_app, list_elem_of_singleton. split.
             ++ intros [Hr| ->]; [by left|by right].
             ++ intros [Hr|[Heq Hr]]; [by left|]. injection Heq as <-. by right.
    - split; [done|]. split; [done|]. intros r. split; [by left|].
      intros [Hr|[Heq Hr]]; done. }
  destruct Hentries as (Hnd' & Hne' & Hiff).
  destruct (10 <? length (positions self ++ [(px, py)]))%nat eqn:Hfull.
  - apply Nat.ltb_lt in Hfull. rewrite length_app in Hfull. cbn [length] in Hfull.
    eexists. split; [reflexivity|]. unfold hand_tracker_ok.
    cbn [positions timestamps roi_entries ht_last_seen].
    split; [|split; [|split; [done|done]]].
    + split; [|split; [|done]].
      * rewrite !last_n_length; [done| |]; rewrite length_app; cbn [length]; lia.
      * rewrite last_n_length; [done|]. rewrite length_app; cbn [length]; lia.
    + unfold last_n. rewrite drop_app_le; [apply last_snoc|].
      rewrite length_app. cbn [length]. lia.
  - apply Nat.ltb_ge in Hfull. rewrite length_app in Hfull. cbn [length] in Hfull.
    eexists. split; [reflexivity|]. unfold hand_tracker_ok.
    cbn [positions timestamps roi_entries ht_last_seen].
    split; [|split; [|split; [done|done]]].
    + split; [|split; [|done]]; rewrite !length_app; cbn [length]; lia.
    + apply last_snoc.
Qed.

Lemma turns_cons (p1 p2 p3 : Q * Q) (l : list (Q * Q)) :
  turns (p1 :: p2 :: p3 :: l)
  = ((if Qltb ((p2.1 - p1.1) * (p3.1 - p2.1) + (p2.2 - p1.2) * (p3.2 - p2.2)) 0
      then 1 else 0) + turns (p2 :: p3 :: l))%nat.
Proof. done. Qed.

Lemma turns_snoc (l : list (Q * Q)) (p1 p2 p3 : Q * Q) :
  turns (l ++ [p1; p2; p3])
  = (turns (l ++ [p1; p2])
     + (if Qltb ((p2.1 - p1.1) * (p3.1 - p2.1) + (p2.2 - p1.2) * (p3.2 - p2.2)) 0
        then 1 else 0))%nat.
Proof.
  induction l as [|a l IH].
  - cbn [app]. rewrite turns_cons. cbn [turns]. lia.
  - destruct l as [|b l].
    + cbn [app]. rewrite !turns_cons. cbn [turns]. lia.
    + destruct l as [|c l].
      * cbn [app] in *. rewrite !turns_cons in *. cbn [turns] in *. lia.
      * cbn [app] in *. rewrite (turns_cons a b c), (turns_cons a b c), IH. lia.
Qed.

Lemma turn_symmetric (p1 p2 p3 : Q * Q) :
  Qltb ((p2.1 - p3.1) * (p1.1 - p2.1) + (p2.2 - p3.2) * (p1.2 - p2.2)) 0
  = Qltb ((p2.1 - p1.1) * (p3.1 - p2.1) + (p2.2 - p1.2) * (p3.2 - p2.2)) 0.
Proof.
  unfold Qltb. f_equal. apply Qle_bool_proper; [reflexivity|ring].
Qed.

Lemma turns_rev (l : list (Q * Q)) : turns (rev l) = turns l.
Proof.
  induction l as [|p1 l IH]; [done|].
  destruct l as [|p2 l]; [done|].
  destruct l as [|p3 l]; [done|].
  rewrite turns_cons, <- IH.
  change (rev (p1 :: p2 :: p3 :: l)) with (((rev l ++ [p3]) ++ [p2]) ++ [p1]).
  change (rev (p2 :: p3 :: l)) with ((rev l ++ [p3]) ++ [p2]).
  rewrite <- !app_assoc. cbn [app].
  rewrite turns_snoc, turn_symmetric. lia.
Qed.

Lemma turns_bound (l : list (Q * Q)) : (turns l <= length l - 2)%nat.
Proof.
  induction l as [|a [|b [|c l]] IH]; cbn [turns length] in *; try lia.
  destruct (Qltb _ 0); lia.
Qed.

(** X22.  The number of direction changes of a hand tracker is at most
    the number of its positions minus two, and it is the same when the
    positions are taken in the reverse order. *)
Theorem direction_changes_reversible (self : HandTracker) :
  (get_direction_changes self <= length (positions self) - 2)%nat
  ∧ get_direction_changes
      {| ht_hand_id := ht_hand_id self; positions := rev (positions self);
         timestamps := timestamps self; roi_entries := roi_entries self;
         ht_last_seen := ht_last_seen self |}
    = get_direction_changes self.
Proof.
  unfold get_direction_changes. cbn [positions]. rewrite length_rev.
  destruct (length (positions self) <? 3)%nat; [split; [lia|done]|].
  split; [apply turns_bound|apply turns_rev].
Qed.

(** ** Calls without hands, and the two registries *)

Local Open Scope Z_scope.

Lemma hand_steps_no_rois a sc f assoc start hands :
  hand_steps a sc f assoc [] start hands = [].
Proof.
  revert start. induction hands as [|h hands IH]; intros start; cbn [hand_steps map app]; [done|].
  apply IH.
Qed.

(** X23.  A call on a frame without hand detection, or with no ROI,
    returns no event and does to the tracker what the two janitors do: the
    active sequences older than 30 seconds are dropped, the others stay
    open, whether or not their hands are still in the ROI. *)
Theorem call_without_hands
    (allow_nearby : bool) (detections : list Detection) (rois : list ROI)
    (fid : string) (w : World) :
  List.filter (has_class ["hand"; "hands"]) detections = [] ∨ rois = [] →
  ∃ w',
    _detect_violations allow_nearby detections rois fid w = (Val [], w')
    ∧ emitted w' = emitted w
    ∧ violation_count (self w') = violation_count (self w)
    ∧ reads w' = S (S (reads w))
    ∧ ∀ k, active_sequences (self w') !! k
           = match active_sequences (self w) !! k with
             | Some s => if seconds 30 <? clock w (reads w) - entry_time s then None else Some s
             | None => None
             end.
Proof.
  intros Hnone.
  assert (Hsteps : frame_steps allow_nearby detections rois fid
                   = [StepCall; StepCleanSequences; StepCleanTimestamps]).
  { unfold frame_steps. destruct Hnone as [-> | ->]; [done|].
    by rewrite hand_steps_no_rois. }
  assert (Hrun := detect_violations_steps allow_nearby detections rois fid w).
  cbv zeta in Hrun. rewrite Hsteps in Hrun. cbn [run_steps] in Hrun.
  set (w0 := after (run_step StepCall) w) in *.
  destruct (cleanup_sequences_spec w0)
    as (w1 & Hrun1 & Hc1 & Hr1 & He1 & Hv1 & Hn1 & _ & _ & _ & Ha1).
  assert (Hw1 : after (run_step StepCleanSequences) w0 = w1)
    by (by apply (after_eq _ _ _ _ Hrun1)).
  rewrite Hw1 in Hrun.
  destruct (cleanup_timestamps_spec w1)
    as (w2 & Hrun2 & Hc2 & Hr2 & He2 & Hv2 & Hn2 & _ & Ha2 & _).
  assert (Hw2 : after (run_step StepCleanTimestamps) w1 = w2)
    by (by apply (after_eq _ _ _ _ Hrun2)).
  rewrite Hw2 in Hrun.
  exists w2. rewrite Hrun, Hv2, Hv1, He2, He1, Hn2, Hn1, Hr2, Hr1, Ha2.
  split; [done|]. split; [done|]. split; [done|]. split; [done|].
  intros k. by rewrite Ha1.
Qed.

(** X24.  Whatever frames a fresh detector has analysed, the registry of
    recorded sequences and the registry of cooldown timestamps are both
    empty: the entry branch never gets to record the event it has
    appended. *)
Theorem registries_stay_empty
    (allow_nearby : bool) (frames : list Frame) (clock : nat → Z) :
  sequence_violations (self (analyze_frames allow_nearby frames (new_world clock))) = ∅
  ∧ violation_timestamps (self (analyze_frames allow_nearby frames (new_world clock))) = ∅.
Proof. rewrite analyze_frames_steps. apply fresh_detector_never_records. Qed.

Lemma mark_registries hand_id roi_name violation_id w :
  sequence_violations (self (after (_mark_sequence_as_violation hand_id roi_name violation_id) w))
  = <[sequence_key_of hand_id roi_name := violation_id]> (sequence_violations (self w))
  ∧ violation_timestamps
      (self (after (_mark_sequence_as_violation hand_id roi_name violation_id) w))
    = <[sequence_key_of hand_id roi_name := clock w (reads w)]> (violation_timestamps (self w)).
Proof. done. Qed.

(** X25.  Recording a violation writes both registries, an exit deletes
    the key from both and the cooldown janitor deletes from the timestamps
    only: so every key with a timestamp is a recorded key, and the decision
    to create an event never depends on the clock: it is yes exactly for a
    hand without scooper whose key is not recorded. *)
Theorem cooldown_never_decides (w : World) :
  registries_nested (self w) →
  (∀ s, registries_nested (self (after (run_step s) w)))
  ∧ (∀ hand_id roi_name violation_id,
       registries_nested
         (self (after (_mark_sequence_as_violation hand_id roi_name violation_id) w)))
  ∧ ∀ t k uses,
      should_create_at (self w) t k uses
      = negb uses && bool_decide (sequence_violations (self w) !! k = None).
Proof.
  intros Hnest. split; [|split].
  - intros s k [t Ht].
    destruct (run_step_registries s w k) as [Hsv Hts].
    destruct Hts as [Heq|[Hexit|(-> & t' & Ht' & Hold)]].
    + rewrite Heq in Ht. destruct (Hnest k) as [v Hv]; [by eexists|].
      destruct Hsv as [Heq'|Hexit]; [rewrite Heq'; by eexists|].
      destruct (exit_closure_purges k s w Hexit) as (_ & _ & Hnone & _). congruence.
    + destruct (exit_closure_purges k s w Hexit) as (_ & _ & Hnone & _). congruence.
    + destruct Hsv as [Heq'|Hexit]; [|done].
      rewrite Heq'. apply Hnest. by eexists.
  - intros hand_id roi_name violation_id k.
    destruct (mark_registries hand_id roi_name violation_id w) as [-> ->].
    destruct (decide (sequence_key_of hand_id roi_name = k)) as [<-|Hne].
    + rewrite !lookup_insert_eq. by eexists.
    + rewrite !lookup_insert_ne by done. apply Hnest.
  - intros t k uses. unfold should_create_at.
    destruct (sequence_violations (self w) !! k) as [v|] eqn:Hsv.
    + rewrite bool_decide_eq_false_2 by done. by rewrite andb_false_r.
    + rewrite bool_decide_eq_true_2 by done.
      destruct (violation_timestamps (self w) !! k) as [t'|] eqn:Hts.
      * destruct (Hnest k) as [v Hv]; [by eexists|]. congruence.
      * by destruct uses.
Qed.

(** ** Matching a detection across frames *)

Local Open Scope Q_scope.

Section Similar.
Variable target : Detection.

Let d (c : Detection) : dist := _calculate_distance (center target) (center c).

End Similar.


(** ** The further properties on the concrete scene *)

Local Open Scope Z_scope.

(** X1, witness: the sequence opened by the first frame of the scene. *)
Lemma active_sequences_well_formed_witness :
  match active_sequences
          (self (analyze_frames true [frame_with hand_inside "frame_1"]
                   (new_world quarter_clock))) !! "hand_0_roi" with
  | Some s => active_sequence_ok "hand_0_roi" s
  | None => False
  end.
Proof.
  destruct (active_sequences
              (self (analyze_frames true [frame_with hand_inside "frame_1"]
                       (new_world quarter_clock))) !! "hand_0_roi") as [s|] eqn:E.
  - exact (active_sequences_well_formed true [frame_with hand_inside "frame_1"]
             quarter_clock "hand_0_roi" s E).
  - vm_compute in E. discriminate E.
Defined.

(** X2, witness: the sequence closed by the second frame of the scene. *)
Lemma completed_sequences_well_formed_witness :
  match head (completed_sequences
                (self (analyze_frames true reentry_frames (new_world quarter_clock)))) with
  | Some s => completed_sequence_ok s
  | None => False
  end.
Proof.
  destruct (head (completed_sequences
                    (self (analyze_frames true reentry_frames (new_world quarter_clock)))))
    as [s|] eqn:E.
  - apply (completed_sequences_well_formed true reentry_frames quarter_clock s
             quarter_clock_monotone).
    destruct (completed_sequences
                (self (analyze_frames true reentry_frames (new_world quarter_clock))))
      as [|s0 l]; [discriminate E|].
    injection E as ->. apply list_elem_of_here.
  - vm_compute in E. discriminate E.
Defined.

(** X4, witness: the two events of the scene, emitted at the first and at
    the second entry. *)
Lemma violation_ids_distinct_witness :
  match emitted (analyze_frames true reentry_frames (new_world quarter_clock)) !! 0%nat,
        emitted (analyze_frames true reentry_frames (new_world quarter_clock)) !! 1%nat with
  | Some e1, Some e2 => violation_id (em_event e1) ≠ violation_id (em_event e2)
  | _, _ => False
  end.
Proof.
  destruct (emitted (analyze_frames true reentry_frames (new_world quarter_clock)) !! 0%nat)
    as [e1|] eqn:E1; [|vm_compute in E1; discriminate E1].
  destruct (emitted (analyze_frames true reentry_frames (new_world quarter_clock)) !! 1%nat)
    as [e2|] eqn:E2; [|vm_compute in E2; discriminate E2].
  apply (violation_ids_distinct true reentry_frames quarter_clock 0 1 e1 e2); [lia|done|done].
Defined.

(** X9, witness: a scooper 10 pixels from the hand, alone and after a far
    one. *)
Lemma simple_classifier_monotone_witness :
  _is_hand_using_scooper_simple false hand_inside
    [other_at "scooper" 900 900; other_at "scooper" 530 420] = true
  ∧ _is_hand_using_scooper_simple true hand_inside
      [other_at "scooper" 900 900; other_at "scooper" 530 420] = true.
Proof.
  apply (simple_classifier_monotone false hand_inside [other_at "scooper" 530 420]).
  - intros s Hs. by apply list_elem_of_further.
  - vm_compute. reflexivity.
Defined.





(** X19, witness: the key of the scene's hand and ROI. *)
Lemma sequence_keys_separate_witness :
  0%nat = 0%nat ∧ truthy None = truthy (Some 0%nat) ∧ name the_roi = name the_roi.
Proof.
  apply (sequence_keys_separate 0 0 None (Some 0%nat) the_roi the_roi); reflexivity.
Defined.

(** X21, witness: the first position of a new hand tracker. *)
Lemma add_position_keeps_tracker_witness :
  ∃ self',
    add_position {| ht_hand_id := "hand_0"; positions := []; timestamps := [];
                    roi_entries := []; ht_last_seen := 0 |}
                 520 420 (Some "roi"%string) (new_world quarter_clock)
    = (Val self', snd (now (snd (now (new_world quarter_clock)))))
    ∧ hand_tracker_ok self'
    ∧ last (positions self') = Some (520%Q, 420%Q)
    ∧ ht_last_seen self' = clock (new_world quarter_clock) (S (reads (new_world quarter_clock)))
    ∧ ∀ r, r ∈ roi_entries self'
           ↔ r ∈ [] ∨ (Some "roi"%string = Some r ∧ r ≠ EmptyString).
Proof.
  apply (add_position_keeps_tracker
           {| ht_hand_id := "hand_0"; positions := []; timestamps := [];
              roi_entries := []; ht_last_seen := 0 |}
           520 420 (Some "roi"%string) (new_world quarter_clock)).
  split; [done|]. split; [cbn; lia|]. split; [apply NoDup_nil_2|apply not_elem_of_nil].
Defined.

(** X23, witness: a frame with a person and no hand, after the hand of the
    scene has entered the ROI. *)
Lemma call_without_hands_witness :
  ∃ w',
    _detect_violations true [other_at "person" 500 400] [the_roi] "frame_2"
      (analyze_frames true [frame_with hand_inside "frame_1"] (new_world quarter_clock))
    = (Val [], w')
    ∧ is_open "hand_0_roi" w'.
Proof.
  destruct (call_without_hands true [other_at "person" 500 400] [the_roi] "frame_2"
              (analyze_frames true [frame_with hand_inside "frame_1"]
                 (new_world quarter_clock)))
    as (w' & Hrun & _ & _ & _ & Hact).
  - left. vm_compute. reflexivity.
  - exists w'. split; [exact Hrun|]. unfold is_open. rewrite Hact.
    vm_compute. by eexists.
Defined.

Lemma marked_world_nested : registries_nested (self marked_world).
Proof.
  intros k [t Ht]. unfold marked_world in *.
  destruct (mark_registries "hand_0" "roi" "violation_1_frame_1" (new_world late_clock))
    as [Hsv Hts].
  rewrite Hsv. rewrite Hts in Ht.
  destruct (decide (sequence_key_of "hand_0" "roi" = k)) as [<-|Hne].
  - rewrite lookup_insert_eq. by eexists.
  - rewrite lookup_insert_ne in Ht by done. cbn in Ht. by rewrite lookup_empty in Ht.
Qed.

(** X25, witness: 61 seconds after a violation was recorded for a key, a
    hand without scooper under this key still gets no event. *)
Lemma cooldown_never_decides_witness :
  should_create_at (self marked_world) (seconds 61) "hand_0_roi" false = false.
Proof.
  destruct (cooldown_never_decides marked_world marked_world_nested) as (_ & _ & Hdec).
  rewrite Hdec. vm_compute. reflexivity.
Defined.
